(** * avr-sts-humeai: the session bridge, its WAV helpers and its chunker

    A shallow embedding of the JavaScript/TypeScript sources of the bridge
    ([index.js], [src/index.ts], [src/lib.ts] and the two further revisions
    of the WAV library) together with the properties checked against them.

    Conventions.
    - A Node [Buffer] is a [list byte]; offsets into it are [nat] where the
      source only ever uses small ones and [N] where a 32-bit size read from
      the buffer is added to them.
    - A JavaScript exception is a value of [Exn]; code that may throw
      returns a [completion].
    - One Rocq module per source file, definitions under the source's names. *)

From Stdlib Require Import List Arith NArith ZArith Lia Bool.
From Stdlib.Strings Require Import String Ascii Byte.
From Stdlib Require Import DecimalString.
From Equations Require Import Equations.
Import ListNotations.

Open Scope string_scope.
Open Scope list_scope.
Open Scope nat_scope.
Infix "+++" := String.append (at level 60, right associativity).

Set Implicit Arguments.

(** ** Exceptions and completions *)

Inductive Exn : Type :=
| TypeError (message : string)
| RangeError (message : string)
| SyntaxError (message : string)
| Error (message : string).

Definition message_of (e : Exn) : string :=
  match e with
  | TypeError m | RangeError m | SyntaxError m | Error m => m
  end.

Inductive completion (A : Type) : Type :=
| Normal (a : A)
| Throw (e : Exn).
Arguments Normal {A} a.
Arguments Throw {A} e.

(** ** Node's Buffer, as far as the sources use it *)

Module Buffer.

Definition t : Type := list byte.

Definition from (s : string) : t := list_byte_of_string s.

(** [buf.slice(start, end)] and [buf.subarray(start, end)] for
    non-negative arguments: both ends are clamped to the length. *)
Definition slice (b : t) (start stop : nat) : t :=
  firstn (stop - start) (skipn start b).

(** [buf.subarray(start)] / [buf.slice(start)]. *)
Definition subarray_from (b : t) (start : nat) : t := skipn start b.

Fixpoint equals (a b : t) : bool :=
  match a, b with
  | [], [] => true
  | x :: a', y :: b' => Byte.eqb x y && equals a' b'
  | _, _ => false
  end.

Fixpoint starts_with (m b : t) : bool :=
  match m, b with
  | [], _ => true
  | x :: m', y :: b' => Byte.eqb x y && starts_with m' b'
  | _ :: _, [] => false
  end.

(** [buf.indexOf(marker)]: the first offset at which [marker] occurs,
    [None] for the source's [-1]. *)
Fixpoint indexOf (b m : t) : option nat :=
  if starts_with m b then Some 0
  else match b with
       | [] => None
       | _ :: b' => option_map S (indexOf b' m)
       end.

Definition out_of_range : Exn := RangeError "ERR_OUT_OF_RANGE".

Definition byte_at (b : t) (i : nat) : N := Byte.to_N (nth i b x00).

(** [buf.readUInt16LE(offset)]: throws a [RangeError] unless the two
    bytes lie inside the buffer. *)
Definition readUInt16LE (b : t) (offset : nat) : completion N :=
  if offset + 2 <=? List.length b
  then Normal (byte_at b offset + 256 * byte_at b (offset + 1))%N
  else Throw out_of_range.

Definition readUInt32LE (b : t) (offset : nat) : completion N :=
  if offset + 4 <=? List.length b
  then Normal (byte_at b offset + 256 * byte_at b (offset + 1)
               + 65536 * byte_at b (offset + 2)
               + 16777216 * byte_at b (offset + 3))%N
  else Throw out_of_range.

(** Decoding with the ['ascii'] encoding clears the top bit of every
    byte before it maps the byte to a character. *)
Definition unset_high_bit (x : byte) : byte :=
  match Byte.of_N (N.land (Byte.to_N x) 127) with
  | Some y => y
  | None => x
  end.

(** [buf.toString("ascii", start, end)]. *)
Definition toString_ascii (b : t) (start stop : nat) : string :=
  string_of_list_byte (map unset_high_bit (slice b start stop)).

End Buffer.

Abbreviation Buffer := Buffer.t.

(** Remembers which branch of a test was taken, for termination proofs. *)
Definition inspect {A : Type} (a : A) : {b : A | a = b} := exist _ a eq_refl.

(** ** index.js: [stripWavHeader], the chunk-walking parser *)

Module index_js_wav.

(** The [while (offset + 8 <= buffer.length)] loop.  The offset grows by
    at least 8 in every round, which is the termination measure. *)
Equations? walk (buffer : Buffer) (offset : N) : completion Buffer
  by wf (N.to_nat (N.of_nat (List.length buffer) - offset)) lt :=
  walk buffer offset
    with inspect (N.leb (offset + 8) (N.of_nat (List.length buffer))) => {
    | exist _ false _ := Normal buffer
    | exist _ true _ with Buffer.readUInt32LE buffer (N.to_nat offset + 4) => {
        | Throw e := Throw e
        | Normal chunkSize with
            String.eqb (Buffer.toString_ascii buffer (N.to_nat offset)
                                              (N.to_nat offset + 4)) "data" => {
            | true :=
                Normal (Buffer.slice buffer (N.to_nat (offset + 8))
                          (N.to_nat (N.min (offset + 8 + chunkSize)
                                           (N.of_nat (List.length buffer)))))
            | false := walk buffer (offset + 8 + chunkSize) } } }.
Proof. apply N.leb_le in e. lia. Qed.

Definition stripWavHeader (buffer : Buffer) : completion Buffer :=
  if (List.length buffer <? 44)
     || negb (String.eqb (Buffer.toString_ascii buffer 0 4) "RIFF")
     || negb (String.eqb (Buffer.toString_ascii buffer 8 12) "WAVE")
  then Normal buffer
  else walk buffer 12.

End index_js_wav.

(** ** src/lib.ts: [stripWavHeader] by marker search

    The [console.warn] calls of the WAV helpers are not part of the model. *)

Module lib_ts.

Definition DATA_MARKER : Buffer := Buffer.from "data".

Definition stripWavHeader (buffer : Buffer) : Buffer :=
  let searchLimit := Nat.min (List.length buffer) 200 in
  match Buffer.indexOf (Buffer.slice buffer 0 searchLimit) DATA_MARKER with
  | None => buffer
  | Some dataIndex =>
      let pcmDataStart := dataIndex + 8 in
      Buffer.subarray_from buffer pcmDataStart
  end.

End lib_ts.

(** ** The WAV library with [parseWav] (a later revision of src/lib.ts) *)

Module wav_lib.

Definition DATA_MARKER : Buffer := Buffer.from "data".
Definition FMT_MARKER : Buffer := Buffer.from "fmt ".

Record WavInfo : Type := {
  sampleRate : N;
  channels : N;
  bitsPerSample : N;
  pcmData : Buffer
}.

(** [parseWav] returns [WavInfo | null]; the three field reads throw
    when the fmt marker sits too close to the end of the buffer. *)
Definition parseWav (buffer : Buffer) : completion (option WavInfo) :=
  let searchLimit := Nat.min (List.length buffer) 200 in
  match Buffer.indexOf (Buffer.slice buffer 0 searchLimit) FMT_MARKER with
  | None => Normal None
  | Some fmtIndex =>
      let fmtDataStart := fmtIndex + 8 in
      match Buffer.readUInt16LE buffer (fmtDataStart + 2) with
      | Throw e => Throw e
      | Normal channels =>
      match Buffer.readUInt32LE buffer (fmtDataStart + 4) with
      | Throw e => Throw e
      | Normal sampleRate =>
      match Buffer.readUInt16LE buffer (fmtDataStart + 14) with
      | Throw e => Throw e
      | Normal bitsPerSample =>
      match Buffer.indexOf (Buffer.slice buffer 0 searchLimit) DATA_MARKER with
      | None => Normal None
      | Some dataIndex =>
          let pcmDataStart := dataIndex + 8 in
          let pcmData := Buffer.subarray_from buffer pcmDataStart in
          Normal (Some {| sampleRate := sampleRate; channels := channels;
                          bitsPerSample := bitsPerSample; pcmData := pcmData |})
      end end end end
  end.

Definition stripWavHeader (buffer : Buffer) : Buffer :=
  let searchLimit := Nat.min (List.length buffer) 200 in
  match Buffer.indexOf (Buffer.slice buffer 0 searchLimit) DATA_MARKER with
  | None => buffer
  | Some dataIndex =>
      let pcmDataStart := dataIndex + 8 in
      Buffer.subarray_from buffer pcmDataStart
  end.

End wav_lib.

(** ** The earliest WAV library: [stripWavHeader] with a scanning loop *)

Module wav_scan.

Definition dataMarker : Buffer := Buffer.from "data".

(** [for (let i = 0; i < Math.min(buffer.length, 200); i++)], with
    [remaining] the number of rounds still to run. *)
Fixpoint scan (buffer : Buffer) (i remaining : nat) : option nat :=
  match remaining with
  | 0 => None
  | S remaining' =>
      if Buffer.equals (Buffer.slice buffer i (i + 4)) dataMarker
      then Some i
      else scan buffer (S i) remaining'
  end.

Definition stripWavHeader (buffer : Buffer) : Buffer :=
  match scan buffer 0 (Nat.min (List.length buffer) 200) with
  | None => buffer
  | Some dataIndex =>
      let pcmDataStart := dataIndex + 8 in
      Buffer.subarray_from buffer pcmDataStart
  end.

End wav_scan.

(** ** JSON values and the JavaScript operations applied to them *)

Module JSON.

(** What [JSON.parse] can return.  Numbers are kept as integers: the
    sources only test them for truthiness and print them.  The model
    covers the integers that JavaScript prints digit by digit (below
    10^21 in magnitude); fractions and larger numbers are outside it. *)
Inductive value : Type :=
| Null
| Bool (b : bool)
| Num (z : Z)
| Str (s : string)
| Arr (items : list value)
| Obj (members : list (string * value)).

Fixpoint lookup (k : string) (ms : list (string * value)) : option value :=
  match ms with
  | [] => None
  | (k', v) :: ms' => if String.eqb k k' then Some v else lookup k ms'
  end.

Definition decimal (z : Z) : string := NilZero.string_of_int (Z.to_int z).

Definition dquote : string := String (ascii_of_nat 34) EmptyString.

Definition hex_digit (n : nat) : string :=
  String.substring n 1 "0123456789abcdef".

(** The escapes of [JSON.stringify] inside a string literal. *)
Definition escape_char (c : ascii) : string :=
  let n := nat_of_ascii c in
  if n =? 34 then "\" +++ dquote
  else if n =? 92 then "\\"
  else if n =? 8 then "\b"
  else if n =? 12 then "\f"
  else if n =? 10 then "\n"
  else if n =? 13 then "\r"
  else if n =? 9 then "\t"
  else if n <? 32 then "\u00" +++ hex_digit (n / 16) +++ hex_digit (n mod 16)
  else String c EmptyString.

Fixpoint escape (s : string) : string :=
  match s with
  | EmptyString => EmptyString
  | String c s' => escape_char c +++ escape s'
  end.

Definition quote (s : string) : string := dquote +++ escape s +++ dquote.

(** [JSON.stringify] on a JSON value. *)
Fixpoint stringify (v : value) : string :=
  match v with
  | Null => "null"
  | Bool true => "true"
  | Bool false => "false"
  | Num z => decimal z
  | Str s => quote s
  | Arr items =>
      "[" +++ (fix elements (l : list value) : string :=
                 match l with
                 | [] => EmptyString
                 | x :: l' =>
                     match l' with
                     | [] => stringify x
                     | _ :: _ => stringify x +++ "," +++ elements l'
                     end
                 end) items +++ "]"
  | Obj members =>
      "{" +++ (fix pairs (l : list (string * value)) : string :=
                 match l with
                 | [] => EmptyString
                 | (k, x) :: l' =>
                     match l' with
                     | [] => quote k +++ ":" +++ stringify x
                     | _ :: _ => quote k +++ ":" +++ stringify x +++ "," +++ pairs l'
                     end
                 end) members +++ "}"
  end.

End JSON.

(** A JavaScript value as the handlers see it: [None] is [undefined]. *)
Definition JsVal : Type := option JSON.value.
Definition undefined : JsVal := None.

Module Js.
Import JSON.

(** [v.k]: reading a property of [undefined] or [null] throws; values
    other than objects have none of the properties the sources read. *)
Definition get (k : string) (v : JsVal) : completion JsVal :=
  match v with
  | None =>
      Throw (TypeError ("Cannot read properties of undefined (reading '" +++ k +++ "')"))
  | Some Null =>
      Throw (TypeError ("Cannot read properties of null (reading '" +++ k +++ "')"))
  | Some (Obj ms) => Normal (lookup k ms)
  | Some _ => Normal None
  end.

Definition truthy (v : JsVal) : bool :=
  match v with
  | None | Some Null => false
  | Some (Bool b) => b
  | Some (Num z) => negb (Z.eqb z 0)
  | Some (Str s) => negb (String.eqb s EmptyString)
  | Some (Arr _) | Some (Obj _) => true
  end.

Definition not_primitive : Exn := TypeError "Cannot convert object to primitive value".

(** [String(v)], the conversion of template literals.  A parsed object
    with an own [toString] member has no callable conversion. *)
Fixpoint to_string (v : value) : completion string :=
  match v with
  | Null => Normal "null"
  | Bool true => Normal "true"
  | Bool false => Normal "false"
  | Num z => Normal (decimal z)
  | Str s => Normal s
  | Arr items =>
      (fix join (l : list value) : completion string :=
         match l with
         | [] => Normal EmptyString
         | x :: l' =>
             match (match x with Null => Normal EmptyString | _ => to_string x end) with
             | Throw e => Throw e
             | Normal sx =>
                 match l' with
                 | [] => Normal sx
                 | _ :: _ =>
                     match join l' with
                     | Throw e => Throw e
                     | Normal r => Normal (sx +++ "," +++ r)
                     end
                 end
             end
         end) items
  | Obj ms =>
      match lookup "toString" ms with
      | Some _ => Throw not_primitive
      | None => Normal "[object Object]"
      end
  end.

Definition ToString (v : JsVal) : completion string :=
  match v with
  | None => Normal "undefined"
  | Some x => to_string x
  end.

(** [x.toString("base64")] on a parsed value [x]: only a Buffer takes an
    encoding; a string ignores the argument and a number reads it as a
    radix, which is out of range. *)
Definition toString_base64 (v : value) : completion string :=
  match v with
  | Num _ => Throw (RangeError "toString() radix must be between 2 and 36")
  | _ => to_string v
  end.

(** An object literal handed to [JSON.stringify]: members whose value is
    [undefined] are left out. *)
Fixpoint object (fields : list (string * JsVal)) : value :=
  match fields with
  | [] => Obj []
  | (k, None) :: fields' => object fields'
  | (k, Some v) :: fields' =>
      match object fields' with
      | Obj ms => Obj ((k, v) :: ms)
      | other => other
      end
  end.

Definition str (s : string) : JsVal := Some (Str s).

(** [JSON.stringify(v)] on any value: [undefined] stays [undefined]. *)
Definition JSON_stringify (v : JsVal) : JsVal :=
  option_map (fun x => Str (stringify x)) v.

End Js.

(** ** Sockets, observable calls and the handler monad *)

Inductive ReadyState : Type := CONNECTING | OPEN | CLOSING | CLOSED.

Definition is_open (r : ReadyState) : bool :=
  match r with OPEN => true | _ => false end.

(** The client socket of a session, or the upstream socket created
    [k]-th by that session. *)
Inductive Peer : Type :=
| Client
| Upstream (k : nat).

(** What a handler does to the outside world, in program order.  A [send]
    or [close] records the [readyState] the socket had when the method was
    called: a [send] reaches the wire only on an [OPEN] socket. *)
Inductive Call : Type :=
| console_log (text : string)
| console_warn (text : string)
| console_error (text : string)
| new_WebSocket (custom_session_id : string)
| send (to : Peer) (readyState : ReadyState) (data : string)
| close (to : Peer) (readyState : ReadyState)
| call_handler (name : JsVal) (sessionUuid : JsVal) (parameters : JSON.value)
| chat_connect
| sendSessionSettings (to : Peer)
| sendAudioInput (to : Peer) (data : string).

(** Handlers run over the mutable variables of their closure ([S]), may
    throw, and leave a trace of calls. *)
Definition M (S A : Type) : Type := S -> completion A * S * list Call.

Section HandlerMonad.
Context {S : Type}.

Definition ret {A} (a : A) : M S A := fun s => (Normal a, s, []).

Definition bind {A B} (m : M S A) (k : A -> M S B) : M S B :=
  fun s =>
    match m s with
    | (Normal a, s1, t1) =>
        match k a s1 with
        | (r, s2, t2) => (r, s2, t1 ++ t2)
        end
    | (Throw e, s1, t1) => (Throw e, s1, t1)
    end.

Definition throw {A} (e : Exn) : M S A := fun s => (Throw e, s, []).

Definition lift {A} (c : completion A) : M S A := fun s => (c, s, []).

Definition emit (c : Call) : M S unit := fun s => (Normal tt, s, [c]).

Definition read : M S S := fun s => (Normal s, s, []).

Definition modify (f : S -> S) : M S unit := fun s => (Normal tt, f s, []).

(** [try { body } catch (error) { handler }] *)
Definition try_catch {A} (body : M S A) (handler : Exn -> M S A) : M S A :=
  fun s =>
    match body s with
    | (Normal a, s1, t1) => (Normal a, s1, t1)
    | (Throw e, s1, t1) =>
        match handler e s1 with
        | (r, s2, t2) => (r, s2, t1 ++ t2)
        end
    end.

Definition when (b : bool) (m : M S unit) : M S unit :=
  if b then m else ret tt.

(** [array.forEach(f)] over the elements present when it starts. *)
Fixpoint forEach {A} (f : A -> M S unit) (l : list A) : M S unit :=
  match l with
  | [] => ret tt
  | x :: l' => bind (f x) (fun _ => forEach f l')
  end.

End HandlerMonad.

Notation "x <- m ;; k" := (bind m (fun x => k))
  (at level 61, m at next level, right associativity).
Notation "m ;;; k" := (bind m (fun _ => k))
  (at level 61, right associativity).

Definition set_nth {A} (l : list A) (k : nat) (x : A) : list A :=
  firstn k l ++ match skipn k l with [] => [] | _ :: r => x :: r end.

(** ** What the bridge takes from its platform and its configuration *)

(** [JSON_parse] is [JSON.parse] on a text; [getToolHandler] comes from
    [./loadTools]; [url_ok] tells whether [new WebSocket] accepts the URL
    built for a session id; [Buffer_from_base64] is
    [Buffer.from(x, "base64")] and [base64] is [buf.toString("base64")];
    [globalDownsampler] is the resampler created at start-up, applied to
    the 16-bit samples of a PCM buffer: it stands for the [Int16Array]
    view laid over the buffer, the call of [full] and the copy of its
    result into a Buffer. *)
Class Platform : Type := {
  JSON_parse : string -> completion JSON.value;
  getToolHandler : JsVal -> bool;
  url_ok : string -> bool;
  Buffer_from_base64 : JsVal -> completion Buffer;
  base64 : Buffer -> string;
  globalDownsampler : option (Buffer -> completion Buffer);
  HUMEAI_WELCOME_MESSAGE : string
}.

(** What a [catch] clause can be handed: an [Error] object with its
    message, as the runtime and [throw new Error(...)] produce them, or
    any other value that was thrown or that a promise was rejected
    with ([undefined], [null], a string, a plain object, ...). *)
Inductive Thrown : Type :=
| error_object (message : string)
| thrown_value (v : JsVal).

(** The exceptions of the model are raised by the runtime and by the
    libraries: all of them are [Error] objects. *)
Definition thrown_of (e : Exn) : Thrown := error_object (message_of e).

(** [error.message]: reading it off [undefined] or [null] throws; a
    value without the property gives [undefined]. *)
Definition message_property (error : Thrown) : completion JsVal :=
  match error with
  | error_object m => Normal (Js.str m)
  | thrown_value v => Js.get "message" v
  end.

(** How the awaited call of a tool handler ends: with a result, or with
    whatever the handler threw or its promise was rejected with. *)
Inductive Settlement : Type :=
| Resolved (content : JsVal)
| Rejected (error : Thrown).

(** ** index.js: the session bridge *)

Module index_js.
Import JSON Js.

(** The variables closed over by [handleClientConnection], the
    [readyState] of the client socket and of every upstream socket the
    session has created, and the [tool_call] messages whose handler has
    not settled yet. *)
Record Session : Type := {
  sessionUuid : JsVal;
  ws : option nat;
  audioBuffer : list JSON.value;
  clientWs : ReadyState;
  sockets : list ReadyState;
  awaiting : list JsVal
}.

Definition new_session : Session :=
  {| sessionUuid := Some Null; ws := None; audioBuffer := [];
     clientWs := OPEN; sockets := []; awaiting := [] |}.

Definition set_sessionUuid (v : JsVal) (s : Session) : Session :=
  {| sessionUuid := v; ws := ws s; audioBuffer := audioBuffer s;
     clientWs := clientWs s; sockets := sockets s; awaiting := awaiting s |}.
Definition set_ws (v : option nat) (s : Session) : Session :=
  {| sessionUuid := sessionUuid s; ws := v; audioBuffer := audioBuffer s;
     clientWs := clientWs s; sockets := sockets s; awaiting := awaiting s |}.
Definition set_audioBuffer (v : list JSON.value) (s : Session) : Session :=
  {| sessionUuid := sessionUuid s; ws := ws s; audioBuffer := v;
     clientWs := clientWs s; sockets := sockets s; awaiting := awaiting s |}.
Definition set_clientWs (v : ReadyState) (s : Session) : Session :=
  {| sessionUuid := sessionUuid s; ws := ws s; audioBuffer := audioBuffer s;
     clientWs := v; sockets := sockets s; awaiting := awaiting s |}.
Definition set_sockets (v : list ReadyState) (s : Session) : Session :=
  {| sessionUuid := sessionUuid s; ws := ws s; audioBuffer := audioBuffer s;
     clientWs := clientWs s; sockets := v; awaiting := awaiting s |}.
Definition set_awaiting (v : list JsVal) (s : Session) : Session :=
  {| sessionUuid := sessionUuid s; ws := ws s; audioBuffer := audioBuffer s;
     clientWs := clientWs s; sockets := sockets s; awaiting := v |}.

Definition state_of (p : Peer) (s : Session) : ReadyState :=
  match p with
  | Client => clientWs s
  | Upstream k => nth k (sockets s) CLOSED
  end.

Definition set_state (p : Peer) (r : ReadyState) (s : Session) : Session :=
  match p with
  | Client => set_clientWs r s
  | Upstream k => set_sockets (set_nth (sockets s) k r) s
  end.

(** [socket.send(data)] of the ws library: throws while the socket is
    still connecting, transmits when it is open, and otherwise drops
    the data without raising. *)
Definition socket_send (p : Peer) (data : string) : M Session unit :=
  s <- read ;;
  emit (send p (state_of p s) data) ;;;
  match state_of p s with
  | CONNECTING => throw (Error "WebSocket is not open: readyState 0 (CONNECTING)")
  | _ => ret tt
  end.

(** [socket.close()]: starts the closing handshake of a connecting or
    open socket, and does nothing otherwise. *)
Definition socket_close (p : Peer) : M Session unit :=
  s <- read ;;
  emit (close p (state_of p s)) ;;;
  match state_of p s with
  | CONNECTING | OPEN => modify (set_state p CLOSING)
  | _ => ret tt
  end.

(** [ws.send(data)] through the closure variable [ws]. *)
Definition ws_send (data : string) : M Session unit :=
  s <- read ;;
  match ws s with
  | None => throw (TypeError "Cannot read properties of null (reading 'send')")
  | Some k => socket_send (Upstream k) data
  end.

Definition clientWs_send (v : JSON.value) : M Session unit :=
  socket_send Client (stringify v).

Definition audio_input (data sessionUuid : JsVal) : JSON.value :=
  object [("data", data); ("type", str "audio_input");
          ("custom_session_id", sessionUuid)].

Definition assistant_input (sessionUuid : JsVal) (text : string) : JSON.value :=
  object [("type", str "assistant_input"); ("custom_session_id", sessionUuid);
          ("text", str text)].

Definition tool_response (tool_call_id content : JsVal) : JSON.value :=
  object [("type", str "tool_response"); ("tool_call_id", tool_call_id);
          ("content", content)].

Definition error_content (text : string) : JsVal :=
  JSON_stringify (Some (object [("error", str text)])).

Section Handlers.
Context {platform : Platform}.

(** The [Int16Array] view needs the stripped data to start at an even
    offset of the underlying memory and throws a RangeError otherwise;
    a [list byte] does not carry that offset, so the view is part of
    what [globalDownsampler] stands for, and statements about a
    resampled result assume an even offset. *)
Definition convertProviderTo8k (audioBuffer48k : Buffer) : completion Buffer :=
  match globalDownsampler with
  | None => Normal []
  | Some full =>
      if List.length audioBuffer48k =? 0 then Normal []
      else match index_js_wav.stripWavHeader audioBuffer48k with
           | Throw e => Throw e
           | Normal pcmBuffer => full pcmBuffer
           end
  end.

Definition cleanup : M Session unit :=
  s <- read ;;
  match ws s with
  | Some k =>
      try_catch (socket_close (Upstream k))
        (fun _ => emit (console_error "Error closing HumeAI connection:")) ;;;
      modify (set_ws None)
  | None => ret tt
  end ;;;
  s <- read ;;
  when (is_open (clientWs s))
    (try_catch (socket_close Client)
       (fun _ => emit (console_error "Error closing client connection:"))) ;;;
  modify (set_audioBuffer []).

(** The URL is built from the configuration and the session id; the
    log lines and the tool schemas that depend on the configuration
    alone are left out. *)
Definition initializeHumeAIConnection : M Session unit :=
  try_catch
    (s <- read ;;
     id <- lift (ToString (sessionUuid s)) ;;
     if url_ok id
     then emit (new_WebSocket id) ;;;
          modify (fun s => set_ws (Some (List.length (sockets s)))
                             (set_sockets (sockets s ++ [CONNECTING]) s))
     else throw (SyntaxError "Invalid URL"))
    (fun _ =>
       emit (console_error "Failed to initialize HumeAI connection:") ;;;
       clientWs_send (object [("type", str "error");
                              ("message", str "Failed to connect to HumeAI API")])).

(** [ws.on("open", ...)] *)
Definition on_ws_open : M Session unit :=
  emit (console_log "Connected to HumeAI WebSocket API") ;;;
  s <- read ;;
  when (0 <? List.length (audioBuffer s))
    (emit (console_log ("Sending " +++ decimal (Z.of_nat (List.length (audioBuffer s)))
                        +++ " buffered audio chunks")) ;;;
     forEach (fun chunk =>
                data <- lift (toString_base64 chunk) ;;
                s <- read ;;
                ws_send (stringify (audio_input (str data) (sessionUuid s))))
             (audioBuffer s) ;;;
     modify (set_audioBuffer [])) ;;;
  s <- read ;;
  ws_send (stringify (assistant_input (sessionUuid s) HUMEAI_WELCOME_MESSAGE)).

(** The [catch] block of the tool call: answers with the failure.  The
    text of the answer is built from [error.message], whatever was
    caught. *)
Definition tool_failed (message : JsVal) (error : Thrown) : M Session unit :=
  name <- lift (get "name" message) ;;
  name_text <- lift (ToString name) ;;
  emit (console_error ("Error executing tool " +++ name_text +++ ":")) ;;;
  tool_call_id <- lift (get "tool_call_id" message) ;;
  error_message <- lift (message_property error) ;;
  error_text <- lift (ToString error_message) ;;
  ws_send (stringify (tool_response tool_call_id
             (error_content ("Error executing tool " +++ name_text +++ ": "
                             +++ error_text)))).

Definition parse_error : M Session unit :=
  emit (console_error "Error parsing HumeAI message:").

(** [case "tool_call"], up to the [await]. *)
Definition tool_call (message : JsVal) : M Session unit :=
  emit (console_log "Tool call:") ;;;
  name <- lift (get "name" message) ;;
  if negb (getToolHandler name)
  then
    name_text <- lift (ToString name) ;;
    emit (console_error ("No handler found for tool: " +++ name_text)) ;;;
    tool_call_id <- lift (get "tool_call_id" message) ;;
    ws_send (stringify (tool_response tool_call_id
               (error_content ("Tool " +++ name_text +++ " not found"))))
  else
    try_catch
      (s <- read ;;
       parameters <- lift (get "parameters" message) ;;
       text <- lift (ToString parameters) ;;
       parsed <- lift (JSON_parse text) ;;
       emit (call_handler name (sessionUuid s) parsed) ;;;
       modify (fun s => set_awaiting (awaiting s ++ [message]) s))
      (fun error => tool_failed message (thrown_of error)).

(** The rest of [case "tool_call"], once the awaited handler settled. *)
Definition tool_settled (message : JsVal) (result : Settlement) : M Session unit :=
  try_catch
    (match result with
     | Resolved content =>
         try_catch
           (emit (console_log "Tool response:") ;;;
            tool_call_id <- lift (get "tool_call_id" message) ;;
            ws_send (stringify (tool_response tool_call_id (JSON_stringify content))))
           (fun error => tool_failed message (thrown_of error))
     | Rejected error => tool_failed message error
     end)
    (fun _ => parse_error).

(** [ws.on("message", async (data) => ...)] *)
Definition on_ws_message (data : string) : M Session unit :=
  try_catch
    (parsed <- lift (JSON_parse data) ;;
     let message : JsVal := Some parsed in
     type <- lift (get "type" message) ;;
     match type with
     | Some (Str "audio_output") =>
         payload <- lift (get "data" message) ;;
         audioChunk <- lift (Buffer_from_base64 payload) ;;
         converted <- lift (convertProviderTo8k audioChunk) ;;
         clientWs_send (object [("type", str "audio");
                                ("audio", str (base64 converted))])
     | Some (Str "user_interruption") =>
         emit (console_log "User interruption") ;;;
         clientWs_send (object [("type", str "interruption")])
     | Some (Str "user_message") =>
         inner <- lift (get "message" message) ;;
         content <- lift (get "content" inner) ;;
         emit (console_log "User message:") ;;;
         clientWs_send (object [("type", str "transcript"); ("role", str "user");
                                ("text", content)])
     | Some (Str "assistant_message") =>
         inner <- lift (get "message" message) ;;
         content <- lift (get "content" inner) ;;
         emit (console_log "Assistant message:") ;;;
         clientWs_send (object [("type", str "transcript"); ("role", str "agent");
                                ("text", content)])
     | Some (Str "tool_call") => tool_call message
     | _ => emit (console_log "Unknown message type from HumeAI:")
     end)
    (fun _ => parse_error).

(** [ws.on("error", ...)] *)
Definition on_ws_error : M Session unit :=
  emit (console_error "HumeAI WebSocket error:") ;;;
  clientWs_send (object [("type", str "error");
                         ("message", str "Connection error with HumeAI API")]).

(** [clientWs.on("message", ...)]: no [try] around [JSON.parse]. *)
Definition on_client_message (data : string) : M Session unit :=
  parsed <- lift (JSON_parse data) ;;
  let message : JsVal := Some parsed in
  type <- lift (get "type" message) ;;
  match type with
  | Some (Str "init") =>
      uuid <- lift (get "uuid" message) ;;
      modify (set_sessionUuid uuid) ;;;
      emit (console_log "Session UUID:") ;;;
      initializeHumeAIConnection
  | Some (Str "audio") =>
      audioBase64 <- lift (get "audio" message) ;;
      match audioBase64 with
      | Some chunk =>
          when (truthy audioBase64)
            (s <- read ;;
             match ws s with
             | Some k =>
                 if is_open (state_of (Upstream k) s)
                 then ws_send (stringify (audio_input audioBase64 (sessionUuid s)))
                 else modify (set_audioBuffer (audioBuffer s ++ [chunk]))
             | None => modify (set_audioBuffer (audioBuffer s ++ [chunk]))
             end)
      | None => ret tt
      end
  | _ => emit (console_log "Unknown message type from client:")
  end.

(** What the session can be told.  The ws library updates the
    [readyState] of a socket before it calls the listener. *)
Inductive Event : Type :=
| client_message (data : string)
| client_close
| client_error
| ws_open (k : nat)
| ws_message (k : nat) (data : string)
| ws_error (k : nat)
| ws_close (k : nat)
| handler_settled (i : nat) (result : Settlement).

Definition remove_nth {A} (i : nat) (l : list A) : list A :=
  firstn i l ++ skipn (S i) l.

Definition step (ev : Event) : M Session unit :=
  match ev with
  | client_message data => on_client_message data
  | client_close =>
      modify (set_state Client CLOSED) ;;;
      emit (console_log "Client WebSocket connection closed") ;;;
      cleanup
  | client_error =>
      modify (set_state Client CLOSING) ;;;
      emit (console_error "Client WebSocket error:") ;;;
      cleanup
  | ws_open k => modify (set_state (Upstream k) OPEN) ;;; on_ws_open
  | ws_message k data => on_ws_message data
  | ws_error k => modify (set_state (Upstream k) CLOSING) ;;; on_ws_error
  | ws_close k =>
      modify (set_state (Upstream k) CLOSED) ;;;
      emit (console_log "HumeAI WebSocket connection closed") ;;;
      cleanup
  | handler_settled i result =>
      s <- read ;;
      match nth_error (awaiting s) i with
      | Some message =>
          modify (set_awaiting (remove_nth i (awaiting s))) ;;;
          tool_settled message result
      | None => ret tt
      end
  end.

(** A run of the session: events are handled one after the other; an
    exception that leaves a listener is not caught by anything in
    index.js and ends the run. *)
Fixpoint run (evs : list Event) (s : Session)
  : option Exn * Session * list Call :=
  match evs with
  | [] => (None, s, [])
  | ev :: evs' =>
      match step ev s with
      | (Normal _, s1, t1) =>
          match run evs' s1 with
          | (r, s2, t2) => (r, s2, t1 ++ t2)
          end
      | (Throw e, s1, t1) => (Some e, s1, t1)
      end
  end.

End Handlers.

(** The data that reached the wire towards a peer. *)
Definition delivered (p : Peer -> bool) (t : list Call) : list string :=
  flat_map (fun c => match c with
                     | send to OPEN data => if p to then [data] else []
                     | _ => []
                     end) t.

Definition to_upstream (p : Peer) : bool :=
  match p with Upstream _ => true | Client => false end.
Definition to_client (p : Peer) : bool :=
  match p with Client => true | Upstream _ => false end.

End index_js.

(** ** index.js, first revision: the client listener with its [try] *)

Module index_js_skeleton.
Import JSON Js.

(** [ws] is declared and never assigned in this revision: it is [null]
    throughout, so the guarded [ws.send()] is never reached. *)
Record Session : Type := {
  sessionUuid : JsVal;
  clientWs : ReadyState
}.

Section Handlers.
Context {platform : Platform}.

Definition on_client_message (data : string) : M Session unit :=
  try_catch
    (parsed <- lift (JSON_parse data) ;;
     let message : JsVal := Some parsed in
     type <- lift (get "type" message) ;;
     match type with
     | Some (Str "init") =>
         uuid <- lift (get "uuid" message) ;;
         modify (fun s => {| sessionUuid := uuid; clientWs := clientWs s |}) ;;;
         emit (console_log "Session UUID:")
     | Some (Str "audio") =>
         audio <- lift (get "audio" message) ;;
         ret tt
     | _ => emit (console_log "Unknown message type from client:")
     end)
    (fun _ => emit (console_error "Error processing client message:")).

End Handlers.

End index_js_skeleton.

(** ** src/index.ts: the bridge over the Hume SDK *)

Module index_ts.
Import JSON Js.

(** 100 ms of 48 kHz 16-bit mono PCM. *)
Definition CHUNK_SIZE : nat := 9600.

Section Chunker.
(** The frame size, [CHUNK_SIZE] in the source. *)
Variable size : nat.
Hypothesis size_pos : 0 < size.

(** [for (let offset = 0; offset < bufferLength; offset += CHUNK_SIZE)] *)
Equations? chunk_loop (audioBuffer : Buffer) (offset : nat) : list Buffer
  by wf (List.length audioBuffer - offset) lt :=
  chunk_loop audioBuffer offset
    with inspect (offset <? List.length audioBuffer) => {
    | exist _ true _ :=
        Buffer.slice audioBuffer offset (offset + size)
          :: chunk_loop audioBuffer (offset + size)
    | exist _ false _ := [] }.
Proof. apply Nat.ltb_lt in e. lia. Qed.

(** The frames [sendAudioInChunks] hands to [sendAudioInput], in the
    order of the calls. *)
Definition chunks (audioBuffer : Buffer) : list Buffer :=
  let bufferLength := List.length audioBuffer in
  if bufferLength <=? size then [audioBuffer]
  else chunk_loop audioBuffer 0.

End Chunker.

Definition CHUNK_SIZE_pos : 0 < CHUNK_SIZE :=
  proj1 (Nat.ltb_lt 0 CHUNK_SIZE) eq_refl.

(** [humeSocket] and [queued] of [handleClientConnection], the sockets'
    [readyState]s, and the number of [init] messages still awaiting
    [initializeHumeConnection]. *)
Record Session : Type := {
  humeSocket : option nat;
  queued : list JsVal;
  clientWs : ReadyState;
  sockets : list ReadyState;
  dialing : nat
}.

Definition new_session : Session :=
  {| humeSocket := None; queued := []; clientWs := OPEN; sockets := [];
     dialing := 0 |}.

Definition set_humeSocket (v : option nat) (s : Session) : Session :=
  {| humeSocket := v; queued := queued s; clientWs := clientWs s;
     sockets := sockets s; dialing := dialing s |}.
Definition set_queued (v : list JsVal) (s : Session) : Session :=
  {| humeSocket := humeSocket s; queued := v; clientWs := clientWs s;
     sockets := sockets s; dialing := dialing s |}.
Definition set_clientWs (v : ReadyState) (s : Session) : Session :=
  {| humeSocket := humeSocket s; queued := queued s; clientWs := v;
     sockets := sockets s; dialing := dialing s |}.
Definition set_sockets (v : list ReadyState) (s : Session) : Session :=
  {| humeSocket := humeSocket s; queued := queued s; clientWs := clientWs s;
     sockets := v; dialing := dialing s |}.
Definition set_dialing (v : nat) (s : Session) : Session :=
  {| humeSocket := humeSocket s; queued := queued s; clientWs := clientWs s;
     sockets := sockets s; dialing := v |}.

Definition state_of (p : Peer) (s : Session) : ReadyState :=
  match p with
  | Client => clientWs s
  | Upstream k => nth k (sockets s) CLOSED
  end.

Definition set_state (p : Peer) (r : ReadyState) (s : Session) : Session :=
  match p with
  | Client => set_clientWs r s
  | Upstream k => set_sockets (set_nth (sockets s) k r) s
  end.

Definition socket_send (p : Peer) (data : string) : M Session unit :=
  s <- read ;;
  emit (send p (state_of p s) data) ;;;
  match state_of p s with
  | CONNECTING => throw (Error "WebSocket is not open: readyState 0 (CONNECTING)")
  | _ => ret tt
  end.

Definition socket_close (p : Peer) : M Session unit :=
  s <- read ;;
  emit (close p (state_of p s)) ;;;
  match state_of p s with
  | CONNECTING | OPEN => modify (set_state p CLOSING)
  | _ => ret tt
  end.

(** [humeSocket && humeSocket.readyState === WebSocket.OPEN] *)
Definition hume_ready (s : Session) : option nat :=
  match humeSocket s with
  | Some k => if is_open (state_of (Upstream k) s) then Some k else None
  | None => None
  end.

Section Handlers.
Context {platform : Platform}.

Definition sendAudioInChunks (audioBuffer : Buffer) : M Session unit :=
  s <- read ;;
  match hume_ready s with
  | None => emit (console_warn "Cannot send audio: Hume socket not ready")
  | Some k =>
      try_catch
        (forEach (fun frame => emit (sendAudioInput (Upstream k) (base64 frame)))
                 (chunks CHUNK_SIZE_pos audioBuffer))
        (fun _ => emit (console_error "Error sending audio chunks to Hume:"))
  end.

Definition flushQueue : M Session unit :=
  s <- read ;;
  match hume_ready s with
  | None => ret tt
  | Some _ =>
      if List.length (queued s) =? 0 then ret tt
      else
        try_catch
          (forEach (fun audio =>
                      clientAudio <- lift (Buffer_from_base64 audio) ;;
                      sendAudioInChunks clientAudio)
                   (queued s) ;;;
           modify (set_queued []))
          (fun _ => emit (console_error "Error flushing audio queue:"))
  end.

Definition client_failed : M Session unit :=
  emit (console_error "Error processing message from client:") ;;;
  socket_close Client.

(** [clientWs.on("message", async (data) => ...)], up to the [await]
    of the [init] case. *)
Definition on_client_message (data : string) : M Session unit :=
  try_catch
    (parsed <- lift (JSON_parse data) ;;
     let message : JsVal := Some parsed in
     type <- lift (get "type" message) ;;
     match type with
     | Some (Str "audio") =>
         audio <- lift (get "audio" message) ;;
         modify (fun s => set_queued (queued s ++ [audio]) s) ;;;
         flushQueue
     | Some (Str "init") =>
         emit (console_log "Received init message from client") ;;;
         emit chat_connect ;;;
         modify (fun s => set_dialing (S (dialing s)) s)
     | _ => ret tt
     end)
    (fun _ => client_failed).

(** The [init] case after [initializeHumeConnection] returned a socket
    whose [readyState] is [r]. *)
Definition on_connected (r : ReadyState) : M Session unit :=
  try_catch
    (modify (fun s => set_humeSocket (Some (List.length (sockets s)))
                        (set_sockets (sockets s ++ [r]) s)) ;;;
     when (is_open r) flushQueue)
    (fun _ => client_failed).

(** [humeSocket.on("message", (msg) => ...)]: the SDK hands over
    parsed messages. *)
Definition on_hume_message (msg : JsVal) : M Session unit :=
  type <- lift (get "type" msg) ;;
  match type with
  | Some (Str "error") =>
      emit (console_log "Received message from Hume:") ;;;
      emit (console_error "Error from Hume API:")
  | Some (Str "audio_output") =>
      try_catch
        (payload <- lift (get "data" msg) ;;
         providerAudio <- lift (Buffer_from_base64 payload) ;;
         wavInfo <- lift (wav_lib.parseWav providerAudio) ;;
         match wavInfo with
         | None => emit (console_error "Failed to parse WAV from Hume")
         | Some info =>
             when (negb (N.eqb (wav_lib.sampleRate info) 8000))
               (emit (console_warn "Hume output sample rate differs from expected (8000Hz)")) ;;;
             s <- read ;;
             when (is_open (clientWs s))
               (socket_send Client
                  (stringify (object [("type", str "audio");
                                      ("audio", str (base64 (wav_lib.pcmData info)))])))
         end)
        (fun _ => emit (console_error "Error processing audio from Hume:"))
  | _ => emit (console_log "Received message from Hume:")
  end.

Inductive Event : Type :=
| client_message (data : string)
| client_close
| connected (r : ReadyState)
| connect_failed
| hume_open (k : nat)
| hume_message (k : nat) (msg : JsVal)
| hume_error (k : nat)
| hume_close (k : nat).

Definition step (ev : Event) : M Session unit :=
  match ev with
  | client_message data => on_client_message data
  | client_close =>
      modify (set_state Client CLOSED) ;;;
      emit (console_log "Client WebSocket connection closed") ;;;
      s <- read ;;
      match hume_ready s with
      | Some k => socket_close (Upstream k)
      | None => ret tt
      end
  | connected r =>
      s <- read ;;
      match dialing s with
      | 0 => ret tt
      | S n => modify (set_dialing n) ;;; on_connected r
      end
  | connect_failed =>
      s <- read ;;
      match dialing s with
      | 0 => ret tt
      | S n => modify (set_dialing n) ;;; client_failed
      end
  | hume_open k =>
      modify (set_state (Upstream k) OPEN) ;;;
      emit (console_log "Hume connection opened") ;;;
      emit (sendSessionSettings (Upstream k)) ;;;
      emit (console_log "Session settings sent: 8000Hz, linear16, mono")
  | hume_message k msg => on_hume_message msg
  | hume_error k =>
      modify (set_state (Upstream k) CLOSING) ;;;
      emit (console_error "Error from Hume WebSocket:")
  | hume_close k =>
      modify (set_state (Upstream k) CLOSED) ;;;
      emit (console_log "Hume connection closed:") ;;;
      s <- read ;;
      when (is_open (clientWs s)) (socket_close Client)
  end.

End Handlers.

End index_ts.

(** ** Concrete inputs used by the examples *)

Definition u16le (n : N) : Buffer :=
  match Byte.of_N (n mod 256), Byte.of_N (n / 256 mod 256) with
  | Some a, Some b => [a; b]
  | _, _ => []
  end.

Definition u32le (n : N) : Buffer := u16le (n mod 65536) ++ u16le (n / 65536).

(** A RIFF/WAVE file: the container magic, a 16-byte PCM [fmt ] chunk
    (format 1, 1 channel, 8000 Hz, 16 bits) and a [data] chunk of 4 bytes. *)
Definition test_wav : Buffer :=
  Buffer.from "RIFF" ++ u32le 40 ++ Buffer.from "WAVE"
  ++ Buffer.from "fmt " ++ u32le 16
  ++ u16le 1 ++ u16le 1 ++ u32le 8000 ++ u32le 16000 ++ u16le 2 ++ u16le 16
  ++ Buffer.from "data" ++ u32le 4 ++ [x01; x02; x03; x04].

(** Raw bytes that are no container but hold the letters "data". *)
Definition raw_with_data_letters : Buffer := Buffer.from "abcddata0000PCM!".

(** A [data] marker that starts at offset 198 and ends at offset 202. *)
Definition marker_across_limit : Buffer :=
  repeat x00 198 ++ Buffer.from "data" ++ u32le 4 ++ [x01; x02; x03; x04].

(** A [data] chunk that starts at offset 300. *)
Definition late_data_chunk : Buffer :=
  repeat x00 300 ++ Buffer.from "data" ++ u32le 4 ++ [x01; x02; x03; x04].

(** The test file with the top bit set in the first byte of each magic. *)
Definition high_bit_wav : Buffer :=
  match test_wav with
  | _ :: b1 :: b2 :: b3 :: b4 :: b5 :: b6 :: b7 :: _ :: rest =>
      xd2 :: b1 :: b2 :: b3 :: b4 :: b5 :: b6 :: b7 :: xd7 :: rest
  | other => other
  end.

(** ** A platform and traffic to run the bridge on *)

Module Sample.
Import JSON Js.

Definition init_message (uuid : string) : JSON.value :=
  Obj [("type", Str "init"); ("uuid", Str uuid)].

Definition audio_message (audio : string) : JSON.value :=
  Obj [("type", Str "audio"); ("audio", Str audio)].

Definition tool_call_message (name tool_call_id parameters : string) : JSON.value :=
  Obj [("type", Str "tool_call"); ("name", Str name);
       ("tool_call_id", Str tool_call_id); ("parameters", Str parameters)].

Definition interruption : JSON.value := Obj [("type", Str "user_interruption")].

(** The values whose texts the sample [JSON.parse] knows. *)
Definition known : list JSON.value :=
  [ init_message "call-a"; init_message "call-b";
    audio_message "AAAA"; audio_message "BBBB"; audio_message EmptyString;
    tool_call_message "lookup_order" "tc-1" "{}";
    tool_call_message "get_weather" "tc-2" "{}";
    interruption;
    Obj [] ].

(** [JSON.parse] cut down to the texts of [known]; every other text,
    "not json" among them, is a syntax error here. *)
Definition parse (text : string) : completion JSON.value :=
  match find (fun v => String.eqb (stringify v) text) known with
  | Some v => Normal v
  | None => Throw (SyntaxError "Unexpected token")
  end.

(** One registered tool, every URL accepted, no resampler; the base64
    codec is replaced by the identity on bytes. *)
Definition platform : Platform :=
  {| JSON_parse := parse;
     getToolHandler := fun name =>
       match name with
       | Some (Str n) => String.eqb n "get_weather"
       | _ => false
       end;
     url_ok := fun _ => true;
     Buffer_from_base64 := fun v =>
       match v with
       | Some (Str text) => Normal (Buffer.from text)
       | _ => Throw (TypeError "The first argument must be of type string")
       end;
     base64 := string_of_list_byte;
     globalDownsampler := None;
     HUMEAI_WELCOME_MESSAGE := "Hello, how can I help you today?" |}.

Definition text (v : JSON.value) : string := stringify v.

Definition init_a : string := text (init_message "call-a").
Definition init_b : string := text (init_message "call-b").
Definition unknown_call : string :=
  text (tool_call_message "lookup_order" "tc-1" "{}").
Definition failing_call : string :=
  text (tool_call_message "get_weather" "tc-2" "{}").

(** Three audio messages, the second with an empty payload. *)
Definition traffic : list string :=
  [text (audio_message "AAAA"); text (audio_message EmptyString);
   text (audio_message "BBBB")].

(** A session of index.js whose upstream socket 0 is open. *)
Definition ready : index_js.Session :=
  {| index_js.sessionUuid := str "call-a"; index_js.ws := Some 0;
     index_js.audioBuffer := []; index_js.clientWs := OPEN;
     index_js.sockets := [OPEN]; index_js.awaiting := [] |}.

(** A session of index.js that has dialled and waits for the upstream. *)
Definition connecting : index_js.Session :=
  {| index_js.sessionUuid := str "call-a"; index_js.ws := Some 0;
     index_js.audioBuffer := []; index_js.clientWs := OPEN;
     index_js.sockets := [CONNECTING]; index_js.awaiting := [] |}.

End Sample.

(** A second platform, with a resampler, a URL it refuses and more
    texts: a tool call whose parameters are no JSON, an [init] whose
    session id makes the URL invalid, an audio message whose payload is
    a number, an [audio_output] message and a transcript. *)
Module Relay.
Import JSON Js.

Definition bad_call : JSON.value :=
  Sample.tool_call_message "get_weather" "tc-3" "{oops".

Definition numeric_audio : JSON.value :=
  Obj [("type", Str "audio"); ("audio", Num 7)].

(** An [audio_output] message whose payload decodes to [test_wav]. *)
Definition audio_output : JSON.value :=
  Obj [("type", Str "audio_output"); ("data", Str (string_of_list_byte test_wav))].

Definition assistant_message : JSON.value :=
  Obj [("type", Str "assistant_message");
       ("message", Obj [("role", Str "assistant"); ("content", Str "Hello")])].

Definition known : list JSON.value :=
  Sample.known ++ [bad_call; Sample.init_message "bad id"; numeric_audio;
                   audio_output; assistant_message].

Definition parse (text : string) : completion JSON.value :=
  match find (fun v => String.eqb (stringify v) text) known with
  | Some v => Normal v
  | None => Throw (SyntaxError "Unexpected token")
  end.

(** The resampler keeps every sixth byte pair, as a 48 kHz to 8 kHz
    decimation of 16-bit samples would. *)
Fixpoint decimate (fuel : nat) (pcm : Buffer) : Buffer :=
  match fuel, pcm with
  | S fuel', lo :: hi :: rest => lo :: hi :: decimate fuel' (skipn 10 rest)
  | _, _ => []
  end.

Definition platform : Platform :=
  {| JSON_parse := parse;
     getToolHandler := getToolHandler (Platform := Sample.platform);
     url_ok := fun id => negb (String.eqb id "bad id");
     Buffer_from_base64 := Buffer_from_base64 (Platform := Sample.platform);
     base64 := string_of_list_byte;
     globalDownsampler := Some (fun pcm => Normal (decimate (List.length pcm) pcm));
     HUMEAI_WELCOME_MESSAGE := "Hello, how can I help you today?" |}.

End Relay.

(** ** Vocabulary of the statements *)

(** The [data] marker starts at none of the offsets below [limit]. *)
Definition no_data_marker_before (limit : nat) (buffer : Buffer) : Prop :=
  forall i, i < limit -> Buffer.slice buffer i (i + 4) <> Buffer.from "data".

(** [ceil (len / size)] *)
Definition frame_count (size len : nat) : nat := (len + size - 1) / size.

(** A client text that is an [audio] message carrying [payload]: a
    base64 string, or nothing when the field is absent. *)
Definition audio_message_of {platform : Platform}
  (data : string) (payload : option string) : Prop :=
  exists parsed,
    JSON_parse data = Normal parsed
    /\ Js.get "type" (Some parsed) = Normal (Js.str "audio")
    /\ Js.get "audio" (Some parsed) = Normal (option_map JSON.Str payload).

(** [ws && ws.readyState === WebSocket.OPEN] in a session of index.js. *)
Definition upstream_open (s : index_js.Session) : bool :=
  match index_js.ws s with
  | Some k => is_open (index_js.state_of (Upstream k) s)
  | None => false
  end.

(** The frames among the payloads: an empty string is no frame. *)
Definition frames_of (payloads : list (option string)) : list string :=
  flat_map (fun p => match p with
                     | Some a => if String.eqb a EmptyString then [] else [a]
                     | None => []
                     end) payloads.

(** A client text that is an [init] message with the session id [uuid]. *)
Definition init_message_of {platform : Platform}
  (data : string) (uuid : JsVal) : Prop :=
  exists parsed,
    JSON_parse data = Normal parsed
    /\ Js.get "type" (Some parsed) = Normal (Js.str "init")
    /\ Js.get "uuid" (Some parsed) = Normal uuid.

(** An upstream text that is a [tool_call] for the tool [name] with the
    call id [tool_call_id]. *)
Definition tool_call_of {platform : Platform}
  (data : string) (name : string) (tool_call_id : JsVal) (message : JsVal) : Prop :=
  exists parsed,
    message = Some parsed
    /\ JSON_parse data = Normal parsed
    /\ Js.get "type" message = Normal (Js.str "tool_call")
    /\ Js.get "name" message = Normal (Js.str name)
    /\ Js.get "tool_call_id" message = Normal tool_call_id.

(** A RIFF sub-chunk laid out the way [stripWavHeader] of index.js reads
    it: a 4-byte id, the payload length in 4 little-endian bytes, the
    payload, with no pad byte after it. *)
Definition riff_chunk (c : Buffer * Buffer) : Buffer :=
  fst c ++ u32le (N.of_nat (List.length (snd c))) ++ snd c.

(** The 12 bytes before the first sub-chunk, with any size field. *)
Definition riff_header (size : N) : Buffer :=
  Buffer.from "RIFF" ++ u32le size ++ Buffer.from "WAVE".

(** A sub-chunk the walk of index.js steps over: a 4-byte id that does
    not read "data" and a length that fits its 32-bit field. *)
Definition skipped_chunk (c : Buffer * Buffer) : Prop :=
  List.length (fst c) = 4
  /\ Buffer.toString_ascii (fst c) 0 4 <> "data"
  /\ (N.of_nat (List.length (snd c)) < 4294967296)%N.

(** The 44-byte header of a PCM file: the container header, a 16-byte
    [fmt ] chunk and the header of the [data] chunk. *)
Definition wav_header
  (riff_size format channels rate byte_rate align bits data_size : N) : Buffer :=
  riff_header riff_size
  ++ Buffer.from "fmt " ++ u32le 16
  ++ u16le format ++ u16le channels ++ u32le rate ++ u32le byte_rate
  ++ u16le align ++ u16le bits
  ++ Buffer.from "data" ++ u32le data_size.

(** A handler under which the session it starts from and the session it
    leaves are related by [R], and which makes only calls accepted by
    [ok], whether it returns or throws. *)
Definition respects {S A : Type} (R : S -> S -> Prop) (ok : Call -> bool)
  (m : M S A) : Prop :=
  forall s, R s (snd (fst (m s))) /\ forallb ok (snd (m s)) = true.

(** A call that neither closes a socket nor opens a connection. *)
Definition keeps_connections (c : Call) : bool :=
  match c with
  | close _ _ | new_WebSocket _ => false
  | _ => true
  end.

(** Two sessions of index.js that differ at most in the tool calls that
    are awaited. *)
Definition same_connection (s s' : index_js.Session) : Prop :=
  s' = index_js.set_awaiting (index_js.awaiting s') s.

(** No audio waits in the queue of a session of index.js whose upstream
    socket is open. *)
Definition queue_drained (s : index_js.Session) : Prop :=
  upstream_open s = true -> index_js.audioBuffer s = [].

(** The events of index.js that end in [cleanup]. *)
Definition tears_down (ev : index_js.Event) : bool :=
  match ev with
  | index_js.client_close | index_js.client_error | index_js.ws_close _ => true
  | _ => false
  end.

(** A step of a session of index.js that keeps the queue drained. *)
Definition keeps_drained (s s' : index_js.Session) : Prop :=
  queue_drained s -> queue_drained s'.

Definition any_call (c : Call) : bool := true.

Definition is_send (c : Call) : bool :=
  match c with
  | send _ _ _ => true
  | _ => false
  end.

(** The queue entries of a session of src/index.ts decode to [bufs],
    one buffer per entry. *)
Definition decodes {platform : Platform}
  (items : list JsVal) (bufs : list Buffer) : Prop :=
  Forall2 (fun item buf => Buffer_from_base64 item = Normal buf) items bufs.

(** The [sendAudioInput] calls that carry [bufs] to the Hume socket [k],
    each buffer cut into frames of [CHUNK_SIZE] bytes. *)
Definition frames_to {platform : Platform} (k : nat) (bufs : list Buffer)
  : list Call :=
  flat_map (fun buf =>
              map (fun frame => sendAudioInput (Upstream k) (base64 frame))
                  (index_ts.chunks index_ts.CHUNK_SIZE_pos buf))
           bufs.



Definition is_console (c : Call) : bool :=
  match c with
  | console_log _ | console_warn _ | console_error _ => true
  | _ => false
  end.

(** Two sessions of the first revision of index.js whose client socket
    is in the same state. *)
Definition same_client (s s' : index_js_skeleton.Session) : Prop :=
  index_js_skeleton.clientWs s' = index_js_skeleton.clientWs s.

(** The [role] under which index.js relays a transcript message. *)
Definition transcript_role (type : string) : option string :=
  if String.eqb type "user_message" then Some "user"
  else if String.eqb type "assistant_message" then Some "agent"
  else None.

(** A handler that returns, without an exception, from every session
    that satisfies [P], and leaves a session that satisfies [P]. *)
Definition returns_from {S A : Type} (P : S -> Prop) (m : M S A) : Prop :=
  forall s, P s -> exists a s' t, m s = (Normal a, s', t) /\ P s'.

(** A session of index.js whose client socket has completed its
    handshake, as every socket handed over by the server has. *)
Definition client_accepted (s : index_js.Session) : Prop :=
  index_js.clientWs s <> CONNECTING.

(** * Properties *)

(** ** Buffers *)

Lemma equals_eq (a b : Buffer) : Buffer.equals a b = true <-> a = b.
Proof.
  revert b; induction a as [|x a IH]; intros [|y b]; simpl; split;
    try congruence; try reflexivity.
  - intros H. apply andb_prop in H as [Hx Hr].
    apply Byte.byte_dec_bl in Hx. apply IH in Hr. congruence.
  - intros H. injection H as -> ->. apply andb_true_intro. split.
    + apply Byte.byte_dec_lb. reflexivity.
    + apply IH. reflexivity.
Qed.

Lemma starts_with_firstn (m b : Buffer) :
  Buffer.starts_with m b = true -> firstn (List.length m) b = m.
Proof.
  revert b; induction m as [|x m IH]; intros [|y b]; simpl; try congruence.
  intros H. apply andb_prop in H as [Hx Hr].
  apply Byte.byte_dec_bl in Hx. rewrite (IH _ Hr). congruence.
Qed.

Lemma indexOf_Some (b m : Buffer) (i : nat) :
  Buffer.indexOf b m = Some i -> firstn (List.length m) (skipn i b) = m.
Proof.
  revert i; induction b as [|x b IH]; intros i; simpl.
  - destruct (Buffer.starts_with m []) eqn:E; [|discriminate].
    intros [= <-]. apply starts_with_firstn in E. exact E.
  - destruct (Buffer.starts_with m (x :: b)) eqn:E.
    + intros [= <-]. apply starts_with_firstn in E. exact E.
    + destruct (Buffer.indexOf b m) as [j|] eqn:Ej; simpl; [|discriminate].
      intros [= <-]. simpl. apply IH. reflexivity.
Qed.

(** A marker found in the first [limit] bytes is a marker of the buffer,
    and it ends before [limit]. *)
Lemma indexOf_prefix (b m : Buffer) (limit i : nat) :
  m <> [] ->
  Buffer.indexOf (Buffer.slice b 0 limit) m = Some i ->
  Buffer.slice b i (i + List.length m) = m /\ i + List.length m <= limit.
Proof.
  intros Hm H. apply indexOf_Some in H.
  unfold Buffer.slice in *. simpl in H. rewrite Nat.sub_0_r in H.
  rewrite skipn_firstn_comm, firstn_firstn in H.
  assert (Hlen : List.length m <= limit - i).
  { destruct (Nat.le_gt_cases (List.length m) (limit - i)) as [|Hlt]; [assumption|].
    rewrite Nat.min_r in H by lia.
    apply (f_equal (@List.length byte)) in H. rewrite length_firstn in H.
    destruct m; [congruence|]. simpl in *. lia. }
  rewrite Nat.min_l in H by assumption.
  replace (i + List.length m - i) with (List.length m) by lia.
  split; [exact H|].
  destruct m; [congruence|]. simpl in *. lia.
Qed.

(** ** The container parser of index.js *)

(** The loop of [stripWavHeader] reads chunk sizes only inside the buffer:
    the parser always returns. *)
Lemma walk_returns (buffer : Buffer) (offset : N) :
  exists pcm, index_js_wav.walk buffer offset = Normal pcm.
Proof.
  funelim (index_js_wav.walk buffer offset);
    try solve [eexists; reflexivity]; try assumption.
  exfalso.
  match goal with
  | Hr : Buffer.readUInt32LE _ _ = Throw _ |- _ =>
      unfold Buffer.readUInt32LE in Hr;
      destruct (N.to_nat offset + 4 + 4 <=? List.length buffer) eqn:E;
      [discriminate Hr | apply Nat.leb_gt in E]
  end.
  match goal with
  | Hle : N.leb _ _ = true |- _ => pose proof (proj1 (N.leb_le _ _) Hle); lia
  end.
Qed.

Lemma stripWavHeader_returns (buffer : Buffer) :
  exists pcm, index_js_wav.stripWavHeader buffer = Normal pcm.
Proof.
  unfold index_js_wav.stripWavHeader.
  destruct (_ || _ || _); [eexists; reflexivity | apply walk_returns].
Qed.

Lemma toString_ascii_neq (b : Buffer) (start stop : nat) (magic : string) :
  map Buffer.unset_high_bit (Buffer.slice b start stop) <> Buffer.from magic ->
  String.eqb (Buffer.toString_ascii b start stop) magic = false.
Proof.
  intros H. apply String.eqb_neq. intros E. apply H.
  unfold Buffer.toString_ascii, Buffer.from in *. rewrite <- E.
  symmetry. apply list_byte_of_string_of_list_byte.
Qed.

Lemma stripWavHeader_magic_guard (buffer : Buffer) :
  map Buffer.unset_high_bit (Buffer.slice buffer 0 4) <> Buffer.from "RIFF"
  \/ map Buffer.unset_high_bit (Buffer.slice buffer 8 12) <> Buffer.from "WAVE" ->
  index_js_wav.stripWavHeader buffer = Normal buffer.
Proof.
  intros [H|H]; apply toString_ascii_neq in H;
    unfold index_js_wav.stripWavHeader; rewrite H; simpl;
    rewrite ?orb_true_r; reflexivity.
Qed.

(** C2, as amended.  The chunk-walking parser of index.js returns every
    buffer unchanged, and never fails, when the first four bytes do not
    spell RIFF or the bytes 8 to 11 do not spell WAVE; the bytes are
    compared the way the 'ascii' decoding of Node reads them, with the top
    bit of each byte cleared. *)
Theorem stripWavHeader_passes_non_container (buffer : Buffer) :
  map Buffer.unset_high_bit (Buffer.slice buffer 0 4) <> Buffer.from "RIFF"
  \/ map Buffer.unset_high_bit (Buffer.slice buffer 8 12) <> Buffer.from "WAVE" ->
  index_js_wav.stripWavHeader buffer = Normal buffer.
Proof. exact (stripWavHeader_magic_guard buffer). Qed.

Lemma stripWavHeader_passes_non_container_witness :
  (map Buffer.unset_high_bit (Buffer.slice raw_with_data_letters 0 4) <> Buffer.from "RIFF"
   \/ map Buffer.unset_high_bit (Buffer.slice raw_with_data_letters 8 12) <> Buffer.from "WAVE")
  /\ index_js_wav.stripWavHeader raw_with_data_letters = Normal raw_with_data_letters.
Proof.
  assert (H : map Buffer.unset_high_bit (Buffer.slice raw_with_data_letters 0 4) <> Buffer.from "RIFF"
              \/ map Buffer.unset_high_bit (Buffer.slice raw_with_data_letters 8 12) <> Buffer.from "WAVE").
  { left. vm_compute. discriminate. }
  split; [exact H | exact (stripWavHeader_passes_non_container raw_with_data_letters H)].
Defined.

(** For header bytes below 128 the comparison is the plain one. *)
Lemma unset_high_bit_7bit (x : byte) :
  (Byte.to_N x < 128)%N -> Buffer.unset_high_bit x = x.
Proof. destruct x; vm_compute; intros H; try reflexivity; discriminate H. Qed.

Lemma stripWavHeader_passes_plain (buffer : Buffer) :
  Forall (fun x => (Byte.to_N x < 128)%N) (firstn 12 buffer) ->
  Buffer.slice buffer 0 4 <> Buffer.from "RIFF"
  \/ Buffer.slice buffer 8 12 <> Buffer.from "WAVE" ->
  index_js_wav.stripWavHeader buffer = Normal buffer.
Proof.
  intros H7 H. apply stripWavHeader_magic_guard.
  assert (Hid : forall start stop, stop <= 12 ->
            map Buffer.unset_high_bit (Buffer.slice buffer start stop)
            = Buffer.slice buffer start stop).
  { intros start stop Hs. rewrite <- (map_id (Buffer.slice buffer start stop)) at 2.
    apply map_ext_in. intros x Hx. apply unset_high_bit_7bit.
    rewrite Forall_forall in H7. apply H7.
    unfold Buffer.slice in Hx. apply In_nth with (d := x00) in Hx.
    destruct Hx as (n & Hn & <-). rewrite length_firstn, length_skipn in Hn.
    rewrite nth_firstn. replace (n <? stop - start) with true
      by (symmetry; apply Nat.ltb_lt; lia).
    rewrite nth_skipn.
    assert (Hlt : start + n < List.length (firstn 12 buffer))
      by (rewrite length_firstn; lia).
    rewrite <- (firstn_skipn 12 buffer) at 1.
    rewrite app_nth1 by assumption. apply nth_In. assumption. }
  rewrite !Hid by lia. exact H.
Qed.

(** C2, as stated, fails for the marker-search [stripWavHeader] of
    src/lib.ts: it looks at no magic, so raw bytes that contain the
    letters "data" lose their first bytes. *)
Lemma lib_ts_stripWavHeader_ignores_magic :
  Buffer.slice raw_with_data_letters 0 4 <> Buffer.from "RIFF"
  /\ lib_ts.stripWavHeader raw_with_data_letters = Buffer.from "PCM!"
  /\ lib_ts.stripWavHeader raw_with_data_letters <> raw_with_data_letters.
Proof. repeat split; vm_compute; discriminate. Qed.

(** A container whose magic bytes have their top bit set still parses
    as one in index.js. *)
Example stripWavHeader_high_bit_magic :
  Buffer.slice high_bit_wav 0 4 <> Buffer.from "RIFF"
  /\ index_js_wav.stripWavHeader high_bit_wav = Normal [x01; x02; x03; x04].
Proof. split; [vm_compute; discriminate | reflexivity]. Qed.

Example stripWavHeader_test_wav :
  index_js_wav.stripWavHeader test_wav = Normal [x01; x02; x03; x04].
Proof. reflexivity. Qed.

(** ** [parseWav] *)

(** C3.  On the container made of the magic, a [fmt ] chunk declaring one
    channel, 8000 Hz and 16 bits per sample, and a [data] chunk with the
    payload 01 02 03 04, [parseWav] returns sampleRate 8000, channels 1,
    bitsPerSample 16 and exactly that payload. *)
Theorem parseWav_test_wav :
  wav_lib.parseWav test_wav
  = Normal (Some {| wav_lib.sampleRate := 8000; wav_lib.channels := 1;
                    wav_lib.bitsPerSample := 16;
                    wav_lib.pcmData := [x01; x02; x03; x04] |}).
Proof. vm_compute. reflexivity. Qed.

(** ** The 200-byte search window of the marker-search helpers *)

Lemma window_search_misses (buffer : Buffer) :
  no_data_marker_before 200 buffer ->
  Buffer.indexOf (Buffer.slice buffer 0 (Nat.min (List.length buffer) 200))
                 (Buffer.from "data") = None.
Proof.
  intros H.
  destruct (Buffer.indexOf _ _) as [i|] eqn:E; [|reflexivity].
  apply indexOf_prefix in E; [|discriminate].
  destruct E as [Hm Hi]. simpl in Hm, Hi.
  exfalso. apply (H i); [lia | exact Hm].
Qed.

Lemma scan_misses (buffer : Buffer) (remaining i : nat) :
  (forall j, i <= j < i + remaining ->
             Buffer.slice buffer j (j + 4) <> Buffer.from "data") ->
  wav_scan.scan buffer i remaining = None.
Proof.
  revert i; induction remaining as [|r IH]; intros i H; simpl; [reflexivity|].
  destruct (Buffer.equals _ _) eqn:E.
  - apply equals_eq in E. exfalso. apply (H i); [lia | exact E].
  - apply IH. intros j Hj. apply H. lia.
Qed.

(** With no [data] marker in the window, [parseWav] returns [null]
    unless reading the fmt fields leaves the buffer. *)
Lemma parseWav_without_data (buffer : Buffer) :
  Buffer.indexOf (Buffer.slice buffer 0 (Nat.min (List.length buffer) 200))
                 wav_lib.DATA_MARKER = None ->
  match Buffer.indexOf (Buffer.slice buffer 0 (Nat.min (List.length buffer) 200))
                       wav_lib.FMT_MARKER with
  | None => wav_lib.parseWav buffer = Normal None
  | Some fmtIndex =>
      if fmtIndex + 24 <=? List.length buffer
      then wav_lib.parseWav buffer = Normal None
      else wav_lib.parseWav buffer = Throw Buffer.out_of_range
  end.
Proof.
  intros Hd. unfold wav_lib.parseWav. cbv zeta. rewrite Hd.
  destruct (Buffer.indexOf _ wav_lib.FMT_MARKER) as [f|]; [|reflexivity].
  unfold Buffer.readUInt16LE, Buffer.readUInt32LE.
  destruct (f + 24 <=? List.length buffer) eqn:E24.
  - apply Nat.leb_le in E24.
    replace (f + 8 + 2 + 2 <=? List.length buffer) with true
      by (symmetry; apply Nat.leb_le; lia).
    replace (f + 8 + 4 + 4 <=? List.length buffer) with true
      by (symmetry; apply Nat.leb_le; lia).
    replace (f + 8 + 14 + 2 <=? List.length buffer) with true
      by (symmetry; apply Nat.leb_le; lia).
    reflexivity.
  - apply Nat.leb_gt in E24.
    replace (f + 8 + 14 + 2 <=? List.length buffer) with false
      by (symmetry; apply Nat.leb_gt; lia).
    destruct (f + 8 + 2 + 2 <=? List.length buffer); [|reflexivity].
    destruct (f + 8 + 4 + 4 <=? List.length buffer); reflexivity.
Qed.

(** C10, as amended.  When the [data] marker starts at none of the first
    200 offsets of a buffer, the three marker-search [stripWavHeader]
    functions return the buffer as it is, and [parseWav] never returns a
    parsed file: it returns [null] whenever the fmt marker is absent from
    the window or its 24 bytes of fields lie inside the buffer. *)
Theorem marker_search_window (buffer : Buffer) :
  no_data_marker_before 200 buffer ->
  lib_ts.stripWavHeader buffer = buffer
  /\ wav_lib.stripWavHeader buffer = buffer
  /\ wav_scan.stripWavHeader buffer = buffer
  /\ (forall info, wav_lib.parseWav buffer <> Normal (Some info))
  /\ (match Buffer.indexOf (Buffer.slice buffer 0 (Nat.min (List.length buffer) 200))
                           wav_lib.FMT_MARKER with
      | None => True
      | Some fmtIndex => fmtIndex + 24 <= List.length buffer
      end -> wav_lib.parseWav buffer = Normal None).
Proof.
  intros H. pose proof (window_search_misses H) as Hd.
  pose proof (parseWav_without_data buffer Hd) as Hp.
  repeat split.
  - unfold lib_ts.stripWavHeader, lib_ts.DATA_MARKER. cbv zeta. rewrite Hd. reflexivity.
  - unfold wav_lib.stripWavHeader, wav_lib.DATA_MARKER. cbv zeta. rewrite Hd. reflexivity.
  - unfold wav_scan.stripWavHeader. rewrite scan_misses; [reflexivity|].
    intros j Hj. apply H. lia.
  - intros info Hi. destruct (Buffer.indexOf _ wav_lib.FMT_MARKER) as [f|].
    + destruct (f + 24 <=? List.length buffer); congruence.
    + congruence.
  - intros Hf. destruct (Buffer.indexOf _ wav_lib.FMT_MARKER) as [f|]; [|exact Hp].
    apply Nat.leb_le in Hf. rewrite Hf in Hp. exact Hp.
Qed.

Lemma late_data_chunk_no_marker : no_data_marker_before 200 late_data_chunk.
Proof.
  intros i Hi E. apply (f_equal (fun l => nth 0 l x00)) in E.
  unfold late_data_chunk, Buffer.slice in E.
  replace (i + 4 - i) with 4 in E by lia.
  rewrite nth_firstn, nth_skipn in E. simpl (0 <? 4) in E. cbv iota in E.
  rewrite app_nth1 in E by (rewrite repeat_length; lia).
  rewrite nth_repeat in E. discriminate E.
Qed.

(** The theorem at work: a well-formed [data] chunk at offset 300 is not
    found by any of the helpers. *)
Lemma marker_search_window_witness :
  no_data_marker_before 200 late_data_chunk
  /\ lib_ts.stripWavHeader late_data_chunk = late_data_chunk
  /\ wav_scan.stripWavHeader late_data_chunk = late_data_chunk
  /\ wav_lib.parseWav late_data_chunk = Normal None.
Proof.
  pose proof (marker_search_window late_data_chunk_no_marker) as (H1 & _ & H3 & _ & H5).
  split; [exact late_data_chunk_no_marker|].
  split; [exact H1|]. split; [exact H3|].
  apply H5. vm_compute. exact I.
Defined.

(** C10, as stated, fails for the scanning [stripWavHeader]: a marker
    that starts at offset 198 does not lie within the first 200 bytes,
    yet the loop, which tries every start offset below 200, finds it. *)
Lemma wav_scan_finds_marker_across_limit :
  Buffer.indexOf (Buffer.slice marker_across_limit 0 200) (Buffer.from "data") = None
  /\ lib_ts.stripWavHeader marker_across_limit = marker_across_limit
  /\ wav_scan.stripWavHeader marker_across_limit = [x01; x02; x03; x04]
  /\ wav_scan.stripWavHeader marker_across_limit <> marker_across_limit.
Proof. repeat split; vm_compute; discriminate. Qed.

(** [parseWav] on a buffer that ends inside its fmt chunk: no [data]
    marker anywhere, and the result is an exception, not [null]. *)
Example parseWav_truncated_fmt :
  Buffer.indexOf (Buffer.from "fmt abcd") (Buffer.from "data") = None
  /\ wav_lib.parseWav (Buffer.from "fmt abcd") = Throw Buffer.out_of_range.
Proof. split; reflexivity. Qed.

(** ** The chunker of src/index.ts *)

Lemma nth_map_seq {A} (f : nat -> A) (n k : nat) (d : A) :
  k < n -> nth k (map f (seq 0 n)) d = f k.
Proof.
  intros Hk. rewrite nth_indep with (d' := f 0)
    by (rewrite length_map, length_seq; exact Hk).
  rewrite map_nth, seq_nth by exact Hk. reflexivity.
Qed.

Section ChunkerProperties.
Variable size : nat.
Hypothesis size_pos : 0 < size.

Lemma frame_count_step (len offset : nat) :
  offset < len ->
  frame_count size (len - offset) = S (frame_count size (len - (offset + size))).
Proof.
  intros Hlt. unfold frame_count.
  destruct (Nat.le_gt_cases size (len - offset)) as [Hge|Hsmall].
  - replace (len - offset + size - 1)
      with (len - (offset + size) + size - 1 + 1 * size) by lia.
    rewrite Nat.div_add by lia. lia.
  - replace (len - (offset + size)) with 0 by lia.
    rewrite (Nat.div_small (0 + size - 1)) by lia.
    replace (len - offset + size - 1) with (len - offset - 1 + 1 * size) by lia.
    rewrite Nat.div_add by lia. rewrite Nat.div_small by lia. reflexivity.
Qed.

Lemma frame_count_bounds (len : nat) :
  0 < len ->
  0 < frame_count size len
  /\ (frame_count size len - 1) * size < len
  /\ len <= frame_count size len * size.
Proof.
  intros Hlen. unfold frame_count.
  pose proof (Nat.div_mod_eq (len + size - 1) size) as Hdm.
  pose proof (Nat.mod_upper_bound (len + size - 1) size) as Hmod.
  nia.
Qed.

(** The loop emits the frame at every multiple of [size] from [offset]
    on, in increasing order. *)
Lemma chunk_loop_frames (audioBuffer : Buffer) (offset : nat) :
  index_ts.chunk_loop size_pos audioBuffer offset
  = map (fun k => Buffer.slice audioBuffer (offset + k * size)
                               (offset + k * size + size))
        (seq 0 (frame_count size (List.length audioBuffer - offset))).
Proof.
  funelim (index_ts.chunk_loop size_pos audioBuffer offset).
  - match goal with
    | Hlt : (_ <? _) = true |- _ =>
        pose proof (proj1 (Nat.ltb_lt _ _) Hlt) as Hlt'
    end.
    rewrite (frame_count_step Hlt'). simpl seq.
    rewrite <- seq_shift, map_cons, map_map. f_equal.
    + f_equal; lia.
    + match goal with IH : index_ts.chunk_loop _ _ _ = map _ _ |- _ => rewrite IH end.
      apply map_ext. intros k. f_equal; lia.
  - match goal with
    | Hge : (_ <? _) = false |- _ =>
        pose proof (proj1 (Nat.ltb_ge _ _) Hge) as Hge'
    end.
    replace (List.length audioBuffer - offset) with 0 by lia.
    unfold frame_count. rewrite Nat.div_small by lia. reflexivity.
Qed.

Lemma chunk_loop_concat (audioBuffer : Buffer) (offset : nat) :
  List.concat (index_ts.chunk_loop size_pos audioBuffer offset) = skipn offset audioBuffer.
Proof.
  funelim (index_ts.chunk_loop size_pos audioBuffer offset).
  - cbn [List.concat].
    match goal with IH : List.concat _ = skipn _ _ |- _ => rewrite IH end.
    unfold Buffer.slice. replace (offset + size - offset) with size by lia.
    rewrite Nat.add_comm, <- skipn_skipn. apply firstn_skipn.
  - match goal with
    | Hge : (_ <? _) = false |- _ =>
        pose proof (proj1 (Nat.ltb_ge _ _) Hge) as Hge'
    end.
    simpl. symmetry. apply skipn_all2. exact Hge'.
Qed.

(** The frames of a buffer, whichever branch emits them. *)
Lemma chunks_frames (audioBuffer : Buffer) :
  audioBuffer <> [] ->
  index_ts.chunks size_pos audioBuffer
  = map (fun k => Buffer.slice audioBuffer (k * size) (k * size + size))
        (seq 0 (frame_count size (List.length audioBuffer))).
Proof.
  intros Hne. unfold index_ts.chunks. cbv zeta.
  destruct (List.length audioBuffer <=? size) eqn:E.
  - apply Nat.leb_le in E.
    assert (Hlen : 0 < List.length audioBuffer)
      by (destruct audioBuffer; [congruence | simpl; lia]).
    assert (Hone : frame_count size (List.length audioBuffer) = 1).
    { unfold frame_count.
      replace (List.length audioBuffer + size - 1)
        with (List.length audioBuffer - 1 + 1 * size) by lia.
      rewrite Nat.div_add by lia. rewrite Nat.div_small by lia. reflexivity. }
    rewrite Hone. simpl. unfold Buffer.slice. simpl.
    rewrite Nat.sub_0_r, firstn_all2 by exact E. reflexivity.
  - rewrite chunk_loop_frames. rewrite Nat.sub_0_r.
    apply map_ext. intros k. reflexivity.
Qed.

Lemma chunks_concat (audioBuffer : Buffer) :
  List.concat (index_ts.chunks size_pos audioBuffer) = audioBuffer.
Proof.
  unfold index_ts.chunks. cbv zeta.
  destruct (List.length audioBuffer <=? size).
  - simpl. apply app_nil_r.
  - rewrite chunk_loop_concat. reflexivity.
Qed.

(** C4, as amended.  For a buffer that is not empty and a frame size
    above zero, the frames are the slices at the offsets 0, C, 2C, ...
    in that order; their concatenation is the buffer; there are
    ceil(L/C) of them; a buffer of at most C bytes is one frame; every
    frame but the last has exactly C bytes and no frame is empty. *)
Theorem chunks_partition (audioBuffer : Buffer) :
  audioBuffer <> [] ->
  let L := List.length audioBuffer in
  let frames := index_ts.chunks size_pos audioBuffer in
  frames = map (fun k => Buffer.slice audioBuffer (k * size) (k * size + size))
               (seq 0 (List.length frames))
  /\ List.concat frames = audioBuffer
  /\ List.length frames = frame_count size L
  /\ (L <= size -> frames = [audioBuffer])
  /\ (forall k, S k < List.length frames -> List.length (nth k frames []) = size)
  /\ (forall k, k < List.length frames -> 0 < List.length (nth k frames []) <= size).
Proof.
  intros Hne L frames.
  assert (HL : 0 < L) by (subst L; destruct audioBuffer; [congruence | simpl; lia]).
  pose proof (chunks_frames Hne) as Hf. fold frames in Hf. fold L in Hf.
  assert (Hn : List.length frames = frame_count size L)
    by (rewrite Hf, length_map, length_seq; reflexivity).
  pose proof (frame_count_bounds HL) as (Hpos & Hlast & Hcover).
  assert (Hnth : forall k, k < frame_count size L ->
            List.length (nth k frames []) = Nat.min size (L - k * size)).
  { intros k Hk. rewrite Hf, nth_map_seq by exact Hk.
    unfold Buffer.slice. rewrite length_firstn, length_skipn. fold L. lia. }
  split; [rewrite Hn; exact Hf|].
  split; [apply chunks_concat|].
  split; [exact Hn|].
  split.
  { intros Hsmall. subst frames. unfold index_ts.chunks. cbv zeta.
    fold L. replace (L <=? size) with true by (symmetry; apply Nat.leb_le; exact Hsmall).
    reflexivity. }
  split.
  - intros k Hk. rewrite Hn in Hk. rewrite Hnth by lia.
    assert ((k + 1) * size < L) by nia. nia.
  - intros k Hk. rewrite Hn in Hk. rewrite Hnth by lia.
    assert (k * size < L) by nia. lia.
Qed.

End ChunkerProperties.

Lemma chunks_partition_witness :
  test_wav <> []
  /\ index_ts.chunks (size := 20) (Nat.lt_0_succ 19) test_wav
     = [firstn 20 test_wav; firstn 20 (skipn 20 test_wav); skipn 40 test_wav]
  /\ List.concat (index_ts.chunks (size := 20) (Nat.lt_0_succ 19) test_wav) = test_wav.
Proof.
  assert (Hne : test_wav <> []) by (vm_compute; discriminate).
  pose proof (chunks_partition (Nat.lt_0_succ 19) Hne) as (Hframes & Hcat & Hn & _).
  split; [exact Hne|]. split; [|exact Hcat].
  rewrite Hframes, Hn. vm_compute. reflexivity.
Defined.

(** C4, as stated, fails for the empty buffer: it is not longer than a
    frame, so it is sent as one frame, which is empty, where ceil(0/C)
    frames would be none. *)
Lemma chunks_empty_buffer :
  index_ts.chunks index_ts.CHUNK_SIZE_pos [] = [[]]
  /\ List.length (index_ts.chunks index_ts.CHUNK_SIZE_pos [])
     <> frame_count index_ts.CHUNK_SIZE 0
  /\ In [] (index_ts.chunks index_ts.CHUNK_SIZE_pos []).
Proof.
  split; [reflexivity|]. split; [|left; reflexivity].
  vm_compute. discriminate.
Qed.

(** ** The handler monad *)

Lemma bind_lift_Normal {S A B} (c : completion A) (a : A) (k : A -> M S B) (s : S) :
  c = Normal a -> bind (lift c) k s = k a s.
Proof.
  intros ->. unfold bind, lift. destruct (k a s) as [[r s'] t]. reflexivity.
Qed.

Lemma bind_lift_Throw {S A B} (c : completion A) (e : Exn) (k : A -> M S B) (s : S) :
  c = Throw e -> bind (lift c) k s = (Throw e, s, []).
Proof. intros ->. reflexivity. Qed.

Lemma bind_result {S A B} (m : M S A) (k : A -> M S B) (s s1 : S) (a : A)
    (t1 : list Call) :
  m s = (Normal a, s1, t1) ->
  bind m k s = let '(r, s2, t2) := k a s1 in (r, s2, t1 ++ t2).
Proof. intros H. unfold bind. rewrite H. reflexivity. Qed.

Lemma bind_emit {S B} (c : Call) (k : unit -> M S B) (s : S) :
  bind (emit c) k s = let '(r, s', t) := k tt s in (r, s', c :: t).
Proof. unfold bind, emit. destruct (k tt s) as [[r s'] t]. reflexivity. Qed.

Lemma bind_modify {S B} (f : S -> S) (k : unit -> M S B) (s : S) :
  bind (modify f) k s = k tt (f s).
Proof. unfold bind, modify. destruct (k tt (f s)) as [[r s'] t]. reflexivity. Qed.

Lemma bind_read {S B} (k : S -> M S B) (s : S) :
  bind read k s = k s s.
Proof. unfold bind, read. destruct (k s s) as [[r s'] t]. reflexivity. Qed.

(** The sample [JSON.parse] reads back every text it knows and rejects
    the text used as malformed input. *)
Example sample_parse_reads_known_texts :
  Forall (fun v => Sample.parse (JSON.stringify v) = Normal v) Sample.known
  /\ Sample.parse "not json" = Throw (SyntaxError "Unexpected token").
Proof. split; [repeat constructor | reflexivity]. Qed.

(** ** index.js: tool calls *)

Section ToolCalls.
Context {platform : Platform}.
Import JSON Js index_js.

Lemma run_cons (ev : Event) (evs : list Event) (s s1 : Session)
    (u : unit) (t1 : list Call) :
  step ev s = (Normal u, s1, t1) ->
  run (ev :: evs) s = let '(r, s2, t2) := run evs s1 in (r, s2, t1 ++ t2).
Proof. intros H. cbn [run]. rewrite H. reflexivity. Qed.

(** C5, as amended.  A [tool_call] whose name is not registered is
    answered on the open upstream socket with exactly one
    [tool_response] that carries the call id and the content
    {error: "Tool <name> not found"}; nothing is thrown, no socket is
    closed and the session is left as it was, so the events that follow
    are handled as they would have been. *)
Theorem unknown_tool_answered_once
    (s : Session) (k : nat) (data name : string) (tool_call_id message : JsVal) :
  ws s = Some k ->
  state_of (Upstream k) s = OPEN ->
  tool_call_of data name tool_call_id message ->
  getToolHandler (str name) = false ->
  let content := stringify (Obj [("error", Str ("Tool " +++ name +++ " not found"))]) in
  let answer := stringify (object [("type", str "tool_response");
                                   ("tool_call_id", tool_call_id);
                                   ("content", str content)]) in
  let calls := [console_log "Tool call:";
                console_error ("No handler found for tool: " +++ name);
                send (Upstream k) OPEN answer] in
  step (ws_message k data) s = (Normal tt, s, calls)
  /\ delivered to_upstream calls = [answer]
  /\ forall evs, run (ws_message k data :: evs) s
                 = let '(r, s', t) := run evs s in (r, s', calls ++ t).
Proof.
  intros Hws Hopen (parsed & -> & Hparse & Htype & Hname & Hid) Hnone
         content answer calls.
  assert (Hstep : step (ws_message k data) s = (Normal tt, s, calls)).
  { cbn [step]. unfold on_ws_message, try_catch.
    rewrite (bind_lift_Normal _ _ Hparse).
    rewrite (bind_lift_Normal _ _ Htype). cbv beta iota delta [str].
    unfold tool_call. rewrite bind_emit.
    rewrite (bind_lift_Normal _ _ Hname). rewrite Hnone. cbn [negb].
    rewrite (bind_lift_Normal (c := ToString (str name)) (a := name)) by reflexivity.
    rewrite bind_emit.
    rewrite (bind_lift_Normal _ _ Hid).
    unfold ws_send, socket_send. rewrite !bind_read, Hws, bind_read, bind_emit, Hopen.
    reflexivity. }
  split; [exact Hstep|]. split; [reflexivity|].
  intros evs. cbn [run]. rewrite Hstep. destruct (run evs s) as [[r s'] t].
  reflexivity.
Qed.

Lemma remove_last {A} (l : list A) (x : A) :
  remove_nth (List.length l) (l ++ [x]) = l.
Proof.
  unfold remove_nth.
  rewrite skipn_all2 by (rewrite length_app; simpl; lia).
  rewrite firstn_app, Nat.sub_diag, firstn_all. simpl. rewrite !app_nil_r.
  reflexivity.
Qed.

Lemma nth_error_last {A} (l : list A) (x : A) :
  nth_error (l ++ [x]) (List.length l) = Some x.
Proof. rewrite nth_error_app2, Nat.sub_diag by lia. reflexivity. Qed.

(** The [tool_call] of a registered tool whose parameters parse: the
    handler is called and the message is awaited. *)
Lemma tool_call_is_awaited
    (s : Session) (k : nat) (data name parameters : string)
    (tool_call_id message : JsVal) (parsed_parameters : JSON.value) :
  tool_call_of data name tool_call_id message ->
  getToolHandler (str name) = true ->
  get "parameters" message = Normal (str parameters) ->
  JSON_parse parameters = Normal parsed_parameters ->
  step (ws_message k data) s
  = (Normal tt, set_awaiting (awaiting s ++ [message]) s,
     [console_log "Tool call:";
      call_handler (str name) (sessionUuid s) parsed_parameters]).
Proof.
  intros (parsed & -> & Hparse & Htype & Hname & Hid) Hsome Hpar Hpp.
  cbn [step]. unfold on_ws_message, try_catch.
  rewrite (bind_lift_Normal _ _ Hparse).
  rewrite (bind_lift_Normal _ _ Htype). cbv beta iota delta [str].
  unfold tool_call. rewrite bind_emit.
  rewrite (bind_lift_Normal _ _ Hname). rewrite Hsome. cbn [negb].
  unfold try_catch. rewrite bind_read.
  rewrite (bind_lift_Normal _ _ Hpar).
  rewrite (bind_lift_Normal (c := ToString (str parameters)) (a := parameters))
    by reflexivity.
  rewrite (bind_lift_Normal _ _ Hpp).
  rewrite bind_emit. reflexivity.
Qed.

(** A [tool_call] whose handler is registered and then fails with
    something whose [message] can be read and converted to a string (an
    [Error], or any value other than [undefined] and [null]) is answered
    on the open upstream socket with exactly one [tool_response] that
    carries the call id and an error content with that text; nothing is
    thrown out of the listener, no socket is closed and the session ends
    up as it was.  For a value without a [message] the text reads
    "undefined". *)
Lemma failing_tool_is_answered
    (s : Session) (k : nat) (data name parameters text : string)
    (tool_call_id message error_message : JsVal) (parsed_parameters : JSON.value)
    (error : Thrown) :
  ws s = Some k ->
  state_of (Upstream k) s = OPEN ->
  tool_call_of data name tool_call_id message ->
  getToolHandler (str name) = true ->
  get "parameters" message = Normal (str parameters) ->
  JSON_parse parameters = Normal parsed_parameters ->
  message_property error = Normal error_message ->
  ToString error_message = Normal text ->
  let content := stringify (Obj [("error", Str ("Error executing tool " +++ name
                                                +++ ": " +++ text))]) in
  let answer := stringify (object [("type", str "tool_response");
                                   ("tool_call_id", tool_call_id);
                                   ("content", str content)]) in
  let calls := [console_log "Tool call:";
                call_handler (str name) (sessionUuid s) parsed_parameters;
                console_error ("Error executing tool " +++ name +++ ":");
                send (Upstream k) OPEN answer] in
  run [ws_message k data;
       handler_settled (List.length (awaiting s)) (Rejected error)] s
  = (None, s, calls)
  /\ delivered to_upstream calls = [answer].
Proof.
  intros Hws Hopen Hcall Hsome Hpar Hpp Hmessage Htext content answer calls.
  split; [|reflexivity].
  pose proof (@tool_call_is_awaited s k data name parameters tool_call_id message
                parsed_parameters Hcall Hsome Hpar Hpp) as Hawait.
  destruct Hcall as (parsed & -> & Hparse & Htype & Hname & Hid).
  destruct s as [uuid w queue client socks waiting].
  cbn in Hws, Hopen. subst w.
  set (s := {| sessionUuid := uuid; ws := Some k; audioBuffer := queue;
               clientWs := client; sockets := socks; awaiting := waiting |}).
  assert (Hsettle : step (handler_settled (List.length waiting) (Rejected error))
                      (set_awaiting (waiting ++ [Some parsed]) s)
                    = (Normal tt, s,
                       [console_error ("Error executing tool " +++ name +++ ":");
                        send (Upstream k) OPEN answer])).
  { cbn [step]. rewrite bind_read. cbn [awaiting set_awaiting].
    rewrite nth_error_last, bind_modify, remove_last.
    unfold tool_settled, try_catch, tool_failed.
    rewrite (bind_lift_Normal _ _ Hname).
    rewrite (bind_lift_Normal (c := ToString (str name)) (a := name)) by reflexivity.
    rewrite bind_emit.
    rewrite (bind_lift_Normal _ _ Hid).
    rewrite (bind_lift_Normal _ _ Hmessage).
    rewrite (bind_lift_Normal _ _ Htext).
    unfold ws_send, socket_send.
    rewrite !bind_read. cbn [set_awaiting ws s]. rewrite bind_read, bind_emit.
    cbn [state_of set_awaiting sockets s]. rewrite Hopen.
    reflexivity. }
  erewrite run_cons by exact Hawait. erewrite run_cons by exact Hsettle.
  reflexivity.
Qed.

End ToolCalls.

Section ToolCallExamples.
Import JSON Js index_js.

Lemma unknown_tool_answered_once_witness :
  delivered to_upstream
    (snd (step (platform := Sample.platform) (ws_message 0 Sample.unknown_call) Sample.ready))
  = [stringify
       (Obj [("type", Str "tool_response"); ("tool_call_id", Str "tc-1");
             ("content",
              Str (stringify (Obj [("error", Str "Tool lookup_order not found")])))])].
Proof.
  assert (Hcall : tool_call_of (platform := Sample.platform) Sample.unknown_call
                    "lookup_order" (str "tc-1")
                    (Some (Sample.tool_call_message "lookup_order" "tc-1" "{}"))).
  { eexists. repeat split; reflexivity. }
  pose proof (@unknown_tool_answered_once Sample.platform Sample.ready 0
                Sample.unknown_call "lookup_order" (str "tc-1") _
                eq_refl eq_refl Hcall eq_refl) as (Hstep & Hsent & _).
  rewrite Hstep. exact Hsent.
Defined.

(** C5, as stated, fails on the text of the error: the one envelope
    sent carries the content {error: "Tool lookup_order not found"},
    with a capital T, and not the content the claim quotes. *)
Lemma unknown_tool_error_text :
  let sent := delivered to_upstream
                (snd (step (platform := Sample.platform)
                        (ws_message 0 Sample.unknown_call) Sample.ready)) in
  sent = [stringify
            (Obj [("type", Str "tool_response"); ("tool_call_id", Str "tc-1");
                  ("content",
                   Str (stringify (Obj [("error", Str "Tool lookup_order not found")])))])]
  /\ sent <> [stringify
                (Obj [("type", Str "tool_response"); ("tool_call_id", Str "tc-1");
                      ("content",
                       Str (stringify
                              (Obj [("error", Str "tool lookup_order not found")])))])].
Proof. split; [reflexivity | vm_compute; intros H; discriminate H]. Qed.

(** A handler that fails with an [Error] is answered with its message. *)
Example failing_tool_is_answered_with_message :
  run (platform := Sample.platform)
      [ws_message 0 Sample.failing_call;
       handler_settled 0 (Rejected (error_object "upstream timeout"))]
      Sample.ready
  = (None, Sample.ready,
     [console_log "Tool call:";
      call_handler (str "get_weather") (str "call-a") (Obj []);
      console_error "Error executing tool get_weather:";
      send (Upstream 0) OPEN
        (stringify
           (Obj [("type", Str "tool_response"); ("tool_call_id", Str "tc-2");
                 ("content",
                  Str (stringify
                         (Obj [("error",
                                Str "Error executing tool get_weather: upstream timeout")])))]))]).
Proof.
  assert (Hcall : tool_call_of (platform := Sample.platform) Sample.failing_call
                    "get_weather" (str "tc-2")
                    (Some (Sample.tool_call_message "get_weather" "tc-2" "{}"))).
  { eexists. repeat split; reflexivity. }
  exact (proj1 (@failing_tool_is_answered Sample.platform Sample.ready 0
                  Sample.failing_call "get_weather" "{}" "upstream timeout"
                  (str "tc-2") _ (str "upstream timeout") (Obj [])
                  (error_object "upstream timeout")
                  eq_refl eq_refl Hcall eq_refl eq_refl eq_refl eq_refl eq_refl)).
Qed.

(** C6.  The [catch] block of the tool call is there to answer every
    failure of a handler, but it reads [error.message] off whatever was
    caught.  A handler whose promise is rejected with [null] is not
    answered at all: reading the message throws inside the [catch]
    block, the outer [catch] logs a parse error and no [tool_response]
    is sent for the call.  A handler that throws a string is answered
    with the text "undefined" in place of its failure message. *)
Theorem failure_without_message_is_not_answered :
  run (platform := Sample.platform)
      [ws_message 0 Sample.failing_call;
       handler_settled 0 (Rejected (thrown_value (Some Null)))]
      Sample.ready
  = (None, Sample.ready,
     [console_log "Tool call:";
      call_handler (str "get_weather") (str "call-a") (Obj []);
      console_error "Error executing tool get_weather:";
      console_error "Error parsing HumeAI message:"])
  /\ delivered to_upstream
       (snd (run (platform := Sample.platform)
               [ws_message 0 Sample.failing_call;
                handler_settled 0 (Rejected (thrown_value (str "quota exceeded")))]
               Sample.ready))
     = [stringify
          (Obj [("type", Str "tool_response"); ("tool_call_id", Str "tc-2");
                ("content",
                 Str (stringify
                        (Obj [("error",
                               Str "Error executing tool get_weather: undefined")])))])].
Proof. split; reflexivity. Qed.

End ToolCallExamples.

(** ** index.js: the pending audio queue *)

Section PendingAudio.
Context {platform : Platform}.
Import JSON Js index_js.

Lemma set_audioBuffer_same (s : Session) :
  set_audioBuffer (audioBuffer s) s = s.
Proof. destruct s; reflexivity. Qed.

Lemma run_app (evs1 evs2 : list Event) (s : Session) :
  run (evs1 ++ evs2) s
  = match run evs1 s with
    | (None, s1, t1) => let '(r, s2, t2) := run evs2 s1 in (r, s2, t1 ++ t2)
    | (Some e, s1, t1) => (Some e, s1, t1)
    end.
Proof.
  revert s; induction evs1 as [|ev evs1 IH]; intros s.
  - simpl. destruct (run evs2 s) as [[r s2] t2]. reflexivity.
  - cbn [app run]. destruct (step ev s) as [[[u|e] s1] t1]; [|reflexivity].
    rewrite IH. destruct (run evs1 s1) as [[[e|] s2] t2]; [reflexivity|].
    destruct (run evs2 s2) as [[r s3] t3]. rewrite app_assoc. reflexivity.
Qed.

(** An audio message that finds the upstream not open is queued, if
    it carries a frame, and nothing else happens. *)
Lemma audio_is_queued (s : Session) (data : string) (payload : option string) :
  upstream_open s = false ->
  audio_message_of data payload ->
  step (client_message data) s
  = (Normal tt,
     set_audioBuffer (audioBuffer s ++ map Str (frames_of [payload])) s, []).
Proof.
  intros Hclosed (parsed & Hparse & Htype & Haudio).
  cbn [step]. unfold on_client_message.
  rewrite (bind_lift_Normal _ _ Hparse).
  rewrite (bind_lift_Normal _ _ Htype). cbv beta iota delta [str].
  rewrite (bind_lift_Normal _ _ Haudio).
  destruct payload as [a|]; cbn [option_map frames_of flat_map].
  - cbn [truthy]. destruct (String.eqb a EmptyString) eqn:Ea; cbn [negb when].
    + cbn [app map]. rewrite app_nil_r, set_audioBuffer_same. reflexivity.
    + rewrite bind_read. unfold upstream_open in Hclosed.
      destruct (ws s) as [k|]; [rewrite Hclosed|]; reflexivity.
  - cbn [app map]. rewrite app_nil_r, set_audioBuffer_same. reflexivity.
Qed.

Lemma frames_of_cons (p : option string) (ps : list (option string)) :
  frames_of (p :: ps) = frames_of [p] ++ frames_of ps.
Proof. unfold frames_of. cbn [flat_map]. rewrite app_nil_r. reflexivity. Qed.

Lemma audio_run_is_queued (ds : list string) (payloads : list (option string))
    (s : Session) :
  upstream_open s = false ->
  Forall2 audio_message_of ds payloads ->
  run (map client_message ds) s
  = (None, set_audioBuffer (audioBuffer s ++ map Str (frames_of payloads)) s, []).
Proof.
  intros Hclosed Hall. revert s Hclosed.
  induction Hall as [|d p ds ps Hd Hall IH]; intros s Hclosed.
  - cbn. rewrite app_nil_r, set_audioBuffer_same. reflexivity.
  - cbn [map]. erewrite run_cons by (apply audio_is_queued; eassumption).
    rewrite IH by (destruct s; exact Hclosed).
    rewrite (frames_of_cons p ps), map_app, app_assoc.
    destruct s; reflexivity.
Qed.

(** The [forEach] of the open handler, on a queue of strings and an
    open upstream: one send per frame, in the order of the queue. *)
Lemma flush_sends_in_order (queue : list string) (s : Session) (k : nat) :
  ws s = Some k ->
  state_of (Upstream k) s = OPEN ->
  forEach (fun chunk =>
             data <- lift (toString_base64 chunk) ;;
             s' <- read ;;
             ws_send (stringify (audio_input (str data) (sessionUuid s'))))
          (map Str queue) s
  = (Normal tt, s,
     map (fun a => send (Upstream k) OPEN
                     (stringify (audio_input (str a) (sessionUuid s)))) queue).
Proof.
  intros Hws Hopen. induction queue as [|a queue IH]; [reflexivity|].
  cbn [map forEach].
  erewrite bind_result.
  2:{ rewrite (bind_lift_Normal (c := toString_base64 (Str a)) (a := a))
        by reflexivity.
      rewrite bind_read. unfold ws_send, socket_send.
      rewrite bind_read, Hws, bind_read, bind_emit, Hopen. reflexivity. }
  rewrite IH. reflexivity.
Qed.

Lemma state_of_set_nth (socks : list ReadyState) (k : nat) (r old : ReadyState) :
  nth_error socks k = Some old -> nth k (set_nth socks k r) CLOSED = r.
Proof.
  intros H. unfold set_nth.
  pose proof (nth_error_split socks k H) as (l1 & l2 & -> & <-).
  rewrite firstn_app, Nat.sub_diag, firstn_all. simpl firstn. rewrite app_nil_r.
  rewrite skipn_app, Nat.sub_diag, skipn_all. simpl.
  rewrite app_nth2, Nat.sub_diag by lia. reflexivity.
Qed.

(** The open handler on a queue of strings. *)
Lemma open_flushes (queue : list string) (s : Session) (k : nat) (old : ReadyState) :
  ws s = Some k ->
  nth_error (sockets s) k = Some old ->
  audioBuffer s = map Str queue ->
  step (ws_open k) s
  = (Normal tt, set_audioBuffer [] (set_state (Upstream k) OPEN s),
     console_log "Connected to HumeAI WebSocket API"
     :: match queue with
        | [] => []
        | _ :: _ => [console_log ("Sending "
                       +++ decimal (Z.of_nat (List.length queue))
                       +++ " buffered audio chunks")]
        end
     ++ map (fun a => send (Upstream k) OPEN
                        (stringify (audio_input (str a) (sessionUuid s)))) queue
     ++ [send (Upstream k) OPEN
           (stringify (assistant_input (sessionUuid s) HUMEAI_WELCOME_MESSAGE))]).
Proof.
  intros Hws Hsock Hqueue.
  destruct s as [uuid w buffered client socks waiting].
  cbn in Hws, Hsock, Hqueue. subst w buffered.
  set (s0 := {| sessionUuid := uuid; ws := Some k; audioBuffer := map Str queue;
                clientWs := client; sockets := socks; awaiting := waiting |}).
  set (s1 := set_state (Upstream k) OPEN s0).
  assert (Hopen : state_of (Upstream k) s1 = OPEN)
    by (cbn; eapply state_of_set_nth; eassumption).
  assert (Hopen' : state_of (Upstream k) (set_audioBuffer [] s1) = OPEN)
    by exact Hopen.
  cbn [step]. rewrite bind_modify. fold s1.
  unfold on_ws_open. rewrite bind_emit, bind_read.
  destruct queue as [|a queue].
  - replace (0 <? List.length (audioBuffer s1)) with false by reflexivity.
    cbn [when]. erewrite bind_result by reflexivity. rewrite bind_read.
    unfold ws_send, socket_send. rewrite bind_read.
    replace (ws s1) with (Some k) by reflexivity.
    rewrite bind_read, bind_emit, Hopen. reflexivity.
  - replace (0 <? List.length (audioBuffer s1)) with true by reflexivity.
    cbn [when]. erewrite bind_result.
    2:{ rewrite bind_emit. erewrite bind_result.
        2:{ apply (flush_sends_in_order (a :: queue) s1 (k := k));
              [reflexivity | exact Hopen]. }
        reflexivity. }
    rewrite bind_read.
    unfold ws_send, socket_send. rewrite bind_read.
    replace (ws (set_audioBuffer [] s1)) with (Some k) by reflexivity.
    rewrite bind_read, bind_emit, Hopen'.
    replace (List.length (audioBuffer s1)) with (List.length (a :: queue))
      by (cbn; rewrite length_map; reflexivity).
    cbn [ret app]. rewrite app_nil_r. reflexivity.
Qed.

Lemma delivered_sends (k : nat) (f : string -> string) (l : list string)
    (rest : list Call) :
  delivered to_upstream (map (fun a => send (Upstream k) OPEN (f a)) l ++ rest)
  = map f l ++ delivered to_upstream rest.
Proof.
  unfold delivered. rewrite flat_map_app. f_equal.
  induction l as [|b l IH]; [reflexivity|].
  cbn [map flat_map to_upstream app]. rewrite IH. reflexivity.
Qed.

Lemma queued_audio_then_open
    (s : Session) (k : nat) (before : list string)
    (ds : list string) (payloads : list (option string)) :
  ws s = Some k ->
  nth_error (sockets s) k = Some CONNECTING ->
  audioBuffer s = map Str before ->
  Forall2 audio_message_of ds payloads ->
  let queue := before ++ frames_of payloads in
  run (map client_message ds) s = (None, set_audioBuffer (map Str queue) s, [])
  /\ exists t,
       run (map client_message ds ++ [ws_open k]) s
       = (None, set_audioBuffer [] (set_state (Upstream k) OPEN s), t)
       /\ delivered to_upstream t
          = map (fun a => stringify (audio_input (str a) (sessionUuid s))) queue
            ++ [stringify (assistant_input (sessionUuid s) HUMEAI_WELCOME_MESSAGE)].
Proof.
  intros Hws Hsock Hqueue Hall queue.
  assert (Hclosed : upstream_open s = false).
  { unfold upstream_open. rewrite Hws. cbn.
    rewrite (nth_error_nth _ _ CLOSED Hsock). reflexivity. }
  assert (Hrun : run (map client_message ds) s
                 = (None, set_audioBuffer (map Str queue) s, [])).
  { erewrite audio_run_is_queued by eassumption. rewrite Hqueue.
    subst queue. rewrite map_app. reflexivity. }
  split; [exact Hrun|].
  rewrite run_app, Hrun.
  pose proof (@open_flushes queue (set_audioBuffer (map Str queue) s) k CONNECTING)
    as Hstep.
  assert (Hstate : set_audioBuffer [] (set_state (Upstream k) OPEN
                                         (set_audioBuffer (map Str queue) s))
                   = set_audioBuffer [] (set_state (Upstream k) OPEN s))
    by (destruct s; reflexivity).
  assert (Huuid : sessionUuid (set_audioBuffer (map Str queue) s) = sessionUuid s)
    by (destruct s; reflexivity).
  rewrite Hstate, Huuid in Hstep.
  erewrite run_cons.
  2:{ apply Hstep; destruct s; assumption || reflexivity. }
  cbn [run app]. eexists. split; [reflexivity|].
  rewrite !app_nil_r. cbn [delivered flat_map].
  destruct queue as [|a queue']; [reflexivity|].
  cbn [app flat_map].
  apply (delivered_sends k
           (fun a => stringify (audio_input (str a) (sessionUuid s)))
           (a :: queue')).
Qed.


End PendingAudio.

Section PendingAudioExamples.
Import JSON Js index_js.



End PendingAudioExamples.

(** ** index.js: [init] *)

Section Init.
Context {platform : Platform}.
Import JSON Js index_js.

Lemma init_step (s : Session) (data id : string) (uuid : JsVal) :
  init_message_of data uuid ->
  ToString uuid = Normal id ->
  url_ok id = true ->
  step (client_message data) s
  = (Normal tt,
     set_ws (Some (List.length (sockets s)))
       (set_sockets (sockets s ++ [CONNECTING]) (set_sessionUuid uuid s)),
     [console_log "Session UUID:"; new_WebSocket id]).
Proof.
  intros (parsed & Hparse & Htype & Huuid) Hid Hurl.
  cbn [step]. unfold on_client_message.
  rewrite (bind_lift_Normal _ _ Hparse).
  rewrite (bind_lift_Normal _ _ Htype). cbv beta iota delta [str].
  rewrite (bind_lift_Normal _ _ Huuid).
  rewrite bind_modify, bind_emit.
  unfold initializeHumeAIConnection, try_catch.
  rewrite bind_read.
  replace (sessionUuid (set_sessionUuid uuid s)) with uuid by reflexivity.
  rewrite (bind_lift_Normal _ _ Hid). rewrite Hurl.
  rewrite bind_emit. reflexivity.
Qed.

Lemma init_refused_step (s : Session) (data : string) (uuid : JsVal) :
  clientWs s <> CONNECTING ->
  init_message_of data uuid ->
  (exists e, ToString uuid = Throw e)
  \/ (exists id, ToString uuid = Normal id /\ url_ok id = false) ->
  step (client_message data) s
  = (Normal tt, set_sessionUuid uuid s,
     [console_log "Session UUID:";
      console_error "Failed to initialize HumeAI connection:";
      send Client (clientWs s)
        (stringify (object [("type", str "error");
                            ("message", str "Failed to connect to HumeAI API")]))]).
Proof.
  intros Hclient (parsed & Hparse & Htype & Huuid) Hfail.
  cbn [step]. unfold on_client_message.
  rewrite (bind_lift_Normal _ _ Hparse).
  rewrite (bind_lift_Normal _ _ Htype). cbv beta iota delta [str].
  rewrite (bind_lift_Normal _ _ Huuid).
  rewrite bind_modify, bind_emit.
  unfold initializeHumeAIConnection, try_catch.
  rewrite bind_read. cbn [sessionUuid set_sessionUuid].
  assert (Hsend : (emit (console_error "Failed to initialize HumeAI connection:") ;;;
                   clientWs_send (object [("type", str "error");
                                          ("message", str "Failed to connect to HumeAI API")]))
                    (set_sessionUuid uuid s)
                  = (Normal tt, set_sessionUuid uuid s,
                     [console_error "Failed to initialize HumeAI connection:";
                      send Client (clientWs s)
                        (stringify (object [("type", str "error");
                                            ("message", str "Failed to connect to HumeAI API")]))])).
  { rewrite bind_emit. unfold clientWs_send, socket_send.
    rewrite bind_read, bind_emit.
    destruct s as [u w queue client socks waiting]. cbn in Hclient |- *.
    destruct client; try congruence; reflexivity. }
  destruct Hfail as [[e He] | (id & Hid & Hurl)].
  - rewrite (bind_lift_Throw _ _ He). rewrite Hsend. reflexivity.
  - rewrite (bind_lift_Normal _ _ Hid). rewrite Hurl.
    unfold throw. rewrite Hsend. reflexivity.
Qed.

(** C8, as amended.  In every state of a session, the INIT state or a
    later one, an [init] message is handled without an error, but it is
    not ignored: the session id is replaced by the one of the message
    and the upstream is dialled again.  When the id converts to a
    string and [new WebSocket] accepts the URL built from it, the new
    socket becomes the session's upstream socket and the sockets
    dialled before are left alone; otherwise the client is sent the
    error envelope and the upstream handle stays as it was.  In both
    cases the pending queue and the client socket are left alone. *)
Theorem init_dials_again (s : Session) (data : string) (uuid : JsVal) :
  init_message_of data uuid ->
  (forall id,
     ToString uuid = Normal id ->
     url_ok id = true ->
     step (client_message data) s
     = (Normal tt,
        set_ws (Some (List.length (sockets s)))
          (set_sockets (sockets s ++ [CONNECTING]) (set_sessionUuid uuid s)),
        [console_log "Session UUID:"; new_WebSocket id]))
  /\ (clientWs s <> CONNECTING ->
      (exists e, ToString uuid = Throw e)
      \/ (exists id, ToString uuid = Normal id /\ url_ok id = false) ->
      step (client_message data) s
      = (Normal tt, set_sessionUuid uuid s,
         [console_log "Session UUID:";
          console_error "Failed to initialize HumeAI connection:";
          send Client (clientWs s)
            (stringify (object [("type", str "error");
                                ("message", str "Failed to connect to HumeAI API")]))]))
  /\ (clientWs s <> CONNECTING ->
      exists s' t,
        step (client_message data) s = (Normal tt, s', t)
        /\ sessionUuid s' = uuid
        /\ audioBuffer s' = audioBuffer s
        /\ clientWs s' = clientWs s).
Proof.
  intros Hinit.
  split; [intros id Hid Hurl; exact (@init_step s data id uuid Hinit Hid Hurl)|].
  split; [intros Hclient Hfail; exact (@init_refused_step s data uuid Hclient Hinit Hfail)|].
  intros Hclient.
  destruct (ToString uuid) as [id|e] eqn:Hid.
  - destruct (url_ok id) eqn:Hurl.
    + rewrite (@init_step s data id uuid Hinit Hid Hurl). do 2 eexists.
      split; [reflexivity|]. destruct s; repeat split.
    + rewrite (@init_refused_step s data uuid Hclient Hinit
                 (or_intror (ex_intro _ id (conj Hid Hurl)))).
      do 2 eexists. split; [reflexivity|]. destruct s; repeat split.
  - rewrite (@init_refused_step s data uuid Hclient Hinit
               (or_introl (ex_intro _ e Hid))).
    do 2 eexists. split; [reflexivity|]. destruct s; repeat split.
Qed.

(** Audio that arrives before and after the [init] of a fresh session
    is flushed in the order of arrival when the upstream opens. *)
Corollary audio_around_init_flushed_in_order
    (ds1 ds2 : list string) (payloads1 payloads2 : list (option string))
    (init : string) (uuid : JsVal) (id : string) :
  Forall2 audio_message_of ds1 payloads1 ->
  init_message_of init uuid ->
  ToString uuid = Normal id ->
  url_ok id = true ->
  Forall2 audio_message_of ds2 payloads2 ->
  exists s t,
    run (map client_message ds1 ++ client_message init
           :: map client_message ds2 ++ [ws_open 0]) new_session
    = (None, s, t)
    /\ audioBuffer s = []
    /\ delivered to_upstream t
       = map (fun a => stringify (audio_input (str a) uuid))
             (frames_of payloads1 ++ frames_of payloads2)
         ++ [stringify (assistant_input uuid HUMEAI_WELCOME_MESSAGE)].
Proof.
  intros H1 Hinit Hid Hurl H2.
  pose proof (@audio_run_is_queued platform ds1 payloads1 new_session eq_refl H1)
    as Hrun1.
  cbn [audioBuffer new_session app] in Hrun1.
  set (s1 := set_audioBuffer (map Str (frames_of payloads1)) new_session) in *.
  pose proof (init_step s1 Hinit Hid Hurl) as Hstep.
  set (s2 := set_ws _ _) in Hstep.
  destruct (@queued_audio_then_open platform s2 0 (frames_of payloads1)
              ds2 payloads2 eq_refl eq_refl eq_refl H2) as (_ & t & Hrun2 & Hsent).
  eexists. eexists. split; [|split].
  - rewrite run_app, Hrun1. erewrite run_cons by exact Hstep.
    rewrite Hrun2. reflexivity.
  - reflexivity.
  - exact Hsent.
Qed.

End Init.

Section InitExamples.
Import JSON Js index_js.

Lemma init_dials_again_witness :
  step (platform := Sample.platform) (client_message Sample.init_b) Sample.connecting
  = (Normal tt,
     {| sessionUuid := str "call-b"; ws := Some 1; audioBuffer := [];
        clientWs := OPEN; sockets := [CONNECTING; CONNECTING]; awaiting := [] |},
     [console_log "Session UUID:"; new_WebSocket "call-b"])
  /\ step (platform := Relay.platform)
          (client_message (Sample.text (Sample.init_message "bad id"))) Sample.connecting
     = (Normal tt,
        {| sessionUuid := str "bad id"; ws := Some 0; audioBuffer := [];
           clientWs := OPEN; sockets := [CONNECTING]; awaiting := [] |},
        [console_log "Session UUID:";
         console_error "Failed to initialize HumeAI connection:";
         send Client OPEN
           (stringify (Obj [("type", Str "error");
                            ("message", Str "Failed to connect to HumeAI API")]))]).
Proof.
  assert (Hinit : init_message_of (platform := Sample.platform) Sample.init_b (str "call-b")).
  { eexists. repeat split; reflexivity. }
  assert (Hbad : init_message_of (platform := Relay.platform)
                   (Sample.text (Sample.init_message "bad id")) (str "bad id")).
  { eexists. repeat split; reflexivity. }
  assert (Hclient : clientWs Sample.connecting <> CONNECTING) by discriminate.
  split.
  - exact (proj1 (@init_dials_again Sample.platform Sample.connecting Sample.init_b
                    (str "call-b") Hinit) "call-b" eq_refl eq_refl).
  - exact (proj1 (proj2 (@init_dials_again Relay.platform Sample.connecting _
                           (str "bad id") Hbad))
             Hclient (or_intror (ex_intro _ "bad id" (conj eq_refl eq_refl)))).
Defined.

(** C8, as stated, fails: after a first [init] the session is no longer
    in its INIT state, and a second [init] changes its id, dials a
    second upstream socket and makes it the session's socket. *)
Lemma second_init_not_ignored :
  run (platform := Sample.platform) [client_message Sample.init_a] new_session
  = (None, Sample.connecting, [console_log "Session UUID:"; new_WebSocket "call-a"])
  /\ exists s,
       run (platform := Sample.platform) [client_message Sample.init_b] Sample.connecting
       = (None, s, [console_log "Session UUID:"; new_WebSocket "call-b"])
       /\ s <> Sample.connecting
       /\ sessionUuid s = str "call-b"
       /\ ws s = Some 1
       /\ sockets s = [CONNECTING; CONNECTING].
Proof.
  split; [reflexivity|]. eexists. split; [reflexivity|].
  repeat split. discriminate.
Qed.

End InitExamples.

(** ** Client messages that are not JSON *)

Section MalformedJson.
Context {platform : Platform}.
Import JSON Js.

(** C7, as amended.  A client message that is not valid JSON is logged
    in both listeners that wrap [JSON.parse] in a [try]: the one of
    src/index.ts then closes the client socket, the one of the first
    revision of index.js drops the message and leaves the session as it
    was. *)
Theorem malformed_json_is_caught (data : string) (e : Exn) :
  JSON_parse data = Throw e ->
  (forall s : index_ts.Session,
      index_ts.clientWs s = OPEN ->
      index_ts.step (index_ts.client_message data) s
      = (Normal tt, index_ts.set_clientWs CLOSING s,
         [console_error "Error processing message from client:";
          close Client OPEN]))
  /\ (forall s : index_js_skeleton.Session,
         index_js_skeleton.on_client_message data s
         = (Normal tt, s, [console_error "Error processing client message:"])).
Proof.
  intros Hparse. split; intros s.
  - intros Hopen. cbn [index_ts.step].
    unfold index_ts.on_client_message, try_catch.
    rewrite (bind_lift_Throw _ _ Hparse).
    unfold index_ts.client_failed. rewrite bind_emit.
    unfold index_ts.socket_close. rewrite bind_read, bind_emit.
    cbn [index_ts.state_of]. rewrite Hopen. reflexivity.
  - unfold index_js_skeleton.on_client_message, try_catch.
    rewrite (bind_lift_Throw _ _ Hparse). reflexivity.
Qed.

(** The listener of the full index.js has no [try]: the syntax error
    leaves the listener, and nothing is logged by the session. *)
Lemma malformed_json_is_uncaught (data : string) (e : Exn) (s : index_js.Session) :
  JSON_parse data = Throw e ->
  index_js.step (index_js.client_message data) s = (Throw e, s, [])
  /\ forall evs, index_js.run (index_js.client_message data :: evs) s = (Some e, s, []).
Proof.
  intros Hparse.
  assert (Hstep : index_js.step (index_js.client_message data) s = (Throw e, s, [])).
  { cbn [index_js.step]. unfold index_js.on_client_message.
    rewrite (bind_lift_Throw _ _ Hparse). reflexivity. }
  split; [exact Hstep|]. intros evs. cbn [index_js.run]. rewrite Hstep. reflexivity.
Qed.

End MalformedJson.

Lemma malformed_json_is_caught_witness :
  index_js_skeleton.on_client_message (platform := Sample.platform) "not json"
    {| index_js_skeleton.sessionUuid := Js.str "call-a";
       index_js_skeleton.clientWs := OPEN |}
  = (Normal tt,
     {| index_js_skeleton.sessionUuid := Js.str "call-a";
        index_js_skeleton.clientWs := OPEN |},
     [console_error "Error processing client message:"]).
Proof.
  exact (proj2 (@malformed_json_is_caught Sample.platform "not json"
                  (SyntaxError "Unexpected token") eq_refl) _).
Defined.

(** C7, as stated, fails in src/index.ts: one message that is not JSON
    makes the session close the client socket. *)
Lemma malformed_json_closes_client :
  JSON_parse (Platform := Sample.platform) "not json"
  = Throw (SyntaxError "Unexpected token")
  /\ index_ts.step (platform := Sample.platform)
       (index_ts.client_message "not json") index_ts.new_session
     = (Normal tt, index_ts.set_clientWs CLOSING index_ts.new_session,
        [console_error "Error processing message from client:"; close Client OPEN]).
Proof. split; reflexivity. Qed.

(** ** Teardown *)

Section Teardown.
Context {platform : Platform}.
Import JSON Js index_js.

(** Closing the client socket closes the upstream socket of the session
    and forgets it and the queue. *)
Lemma client_close_closes_upstream (s : Session) (k : nat) :
  ws s = Some k ->
  state_of (Upstream k) s = OPEN ->
  step client_close s
  = (Normal tt,
     set_audioBuffer [] (set_ws None
       (set_state (Upstream k) CLOSING (set_state Client CLOSED s))),
     [console_log "Client WebSocket connection closed"; close (Upstream k) OPEN]).
Proof.
  intros Hws Hopen. destruct s as [uuid w queue client socks waiting].
  cbn in Hws, Hopen. subst w.
  unfold step, cleanup, try_catch, socket_close, bind, modify, emit, read, ret, when.
  cbn. rewrite Hopen. reflexivity.
Qed.

(** Closing the upstream socket closes the client socket, if it is
    open. *)
Lemma ws_close_closes_client (s : Session) (k : nat) (old : ReadyState) :
  ws s = Some k ->
  nth_error (sockets s) k = Some old ->
  clientWs s = OPEN ->
  step (ws_close k) s
  = (Normal tt,
     set_audioBuffer [] (set_state Client CLOSING
       (set_ws None (set_state (Upstream k) CLOSED s))),
     [console_log "HumeAI WebSocket connection closed";
      close (Upstream k) CLOSED; close Client OPEN]).
Proof.
  intros Hws Hsock Hclient. destruct s as [uuid w queue client socks waiting].
  cbn in Hws, Hsock, Hclient. subst w client.
  assert (Hclosed : nth k (set_nth socks k CLOSED) CLOSED = CLOSED)
    by (eapply state_of_set_nth; eassumption).
  unfold step, cleanup, try_catch, socket_close, bind, modify, emit, read, ret, when.
  cbn. rewrite Hclosed. reflexivity.
Qed.

(** A second teardown finds nothing to close and does not throw. *)
Lemma cleanup_twice (s : Session) :
  clientWs s <> CONNECTING ->
  exists s1 t1,
    cleanup s = (Normal tt, s1, t1)
    /\ cleanup s1 = (Normal tt, s1, []).
Proof.
  intros Hclient. destruct s as [uuid w queue client socks waiting].
  cbn in Hclient.
  destruct w as [k|]; destruct client; try congruence;
    try (destruct (nth k socks CLOSED) eqn:Hk);
    do 2 eexists;
    (split;
     [ cbv [cleanup try_catch socket_close bind read emit modify ret when];
       cbn; rewrite ?Hk; cbn; reflexivity
     | reflexivity ]).
Qed.

(** The error listener of the upstream socket sends to the client
    socket whatever its state. *)
Lemma ws_error_sends_to_client (s : Session) (k : nat) :
  clientWs s <> CONNECTING ->
  step (ws_error k) s
  = (Normal tt, set_state (Upstream k) CLOSING s,
     [console_error "HumeAI WebSocket error:";
      send Client (clientWs s)
        (stringify (object [("type", str "error");
                            ("message", str "Connection error with HumeAI API")]))]).
Proof.
  intros Hclient. cbn [step]. rewrite bind_modify.
  unfold on_ws_error. rewrite bind_emit.
  unfold clientWs_send, socket_send. rewrite bind_read, bind_emit.
  destruct s as [uuid w queue client socks waiting]. cbn in Hclient |- *.
  destruct client; try congruence; reflexivity.
Qed.

End Teardown.

Section TeardownExamples.
Import JSON Js index_js.

(** C9 on the code: the client sends [init] and hangs up while the
    upstream is still connecting.  The teardown closes the upstream
    socket; the ws library then reports the aborted handshake on that
    socket, and the error listener of index.js sends to the client
    socket, which is closed. *)
Theorem send_to_closed_client_after_teardown :
  run (platform := Sample.platform)
      [client_message (Sample.text (Sample.init_message "call-a"));
       client_close; ws_error 0; ws_close 0]
      new_session
  = (None,
     {| sessionUuid := str "call-a"; ws := None; audioBuffer := [];
        clientWs := CLOSED; sockets := [CLOSED]; awaiting := [] |},
     [console_log "Session UUID:"; new_WebSocket "call-a";
      console_log "Client WebSocket connection closed";
      close (Upstream 0) CONNECTING;
      console_error "HumeAI WebSocket error:";
      send Client CLOSED
        (stringify (object [("type", str "error");
                            ("message", str "Connection error with HumeAI API")]));
      console_log "HumeAI WebSocket connection closed"]).
Proof. reflexivity. Qed.

(** The same after an established call: what the upstream still
    delivers while its socket is closing is sent to the closed client
    socket. *)
Example interruption_sent_to_closed_client :
  run (platform := Sample.platform)
      [client_close; ws_message 0 (Sample.text Sample.interruption)] Sample.ready
  = (None,
     {| sessionUuid := str "call-a"; ws := None; audioBuffer := [];
        clientWs := CLOSED; sockets := [CLOSING]; awaiting := [] |},
     [console_log "Client WebSocket connection closed";
      close (Upstream 0) OPEN;
      console_log "User interruption";
      send Client CLOSED (stringify (object [("type", str "interruption")]))]).
Proof. reflexivity. Qed.

End TeardownExamples.

(** ** src/index.ts: frames on the wire and teardown *)

Section IndexTs.
Context {platform : Platform}.
Import JSON Js index_ts.

Lemma forEach_emit {A} (f : A -> Call) (l : list A) (s : Session) :
  forEach (fun x => emit (f x)) l s = (Normal tt, s, map f l).
Proof.
  induction l as [|x l IH]; [reflexivity|].
  cbn [forEach map]. rewrite bind_emit, IH. reflexivity.
Qed.

(** With the Hume socket open, [sendAudioInChunks] makes one
    [sendAudioInput] call per frame of the chunker, in their order. *)
Lemma sendAudioInChunks_calls (audioBuffer : Buffer) (s : Session) (k : nat) :
  hume_ready s = Some k ->
  sendAudioInChunks audioBuffer s
  = (Normal tt, s,
     map (fun frame => sendAudioInput (Upstream k) (base64 frame))
         (chunks CHUNK_SIZE_pos audioBuffer)).
Proof.
  intros Hready. unfold sendAudioInChunks. rewrite bind_read, Hready.
  unfold try_catch. rewrite forEach_emit. reflexivity.
Qed.

Lemma ts_client_close_closes_hume (s : Session) (k : nat) :
  hume_ready s = Some k ->
  step client_close s
  = (Normal tt, set_state (Upstream k) CLOSING (set_state Client CLOSED s),
     [console_log "Client WebSocket connection closed"; close (Upstream k) OPEN]).
Proof.
  intros Hready. destruct s as [hume queue client socks dials].
  unfold hume_ready in Hready. cbn in Hready.
  destruct hume as [j|]; [|discriminate].
  destruct (nth j socks CLOSED) eqn:Hj; try discriminate.
  injection Hready as ->.
  unfold step, socket_close, hume_ready, bind, modify, emit, read, ret.
  cbn. rewrite Hj. cbn. rewrite Hj. reflexivity.
Qed.

Lemma ts_hume_close_closes_client (s : Session) (k : nat) :
  clientWs s = OPEN ->
  step (hume_close k) s
  = (Normal tt, set_state Client CLOSING (set_state (Upstream k) CLOSED s),
     [console_log "Hume connection closed:"; close Client OPEN]).
Proof.
  intros Hopen. destruct s as [hume queue client socks dials].
  cbn in Hopen. subst client. reflexivity.
Qed.

(** The message listener of src/index.ts checks the client socket
    before it sends: nothing is sent to a client socket that is not
    open. *)
Lemma ts_hume_message_guarded (s : Session) (k : nat) (msg : JsVal) :
  clientWs s <> OPEN ->
  forall r s' t, step (hume_message k msg) s = (r, s', t) ->
  forall st data, ~ In (send Client st data) t.
Proof.
  intros Hclosed.
  assert (Hguard : is_open (clientWs s) = false)
    by (destruct (clientWs s); congruence || reflexivity).
  set (quiet := fun m : M Session unit =>
         forall r s' t, m s = (r, s', t) ->
         forall st data, ~ In (send Client st data) t).
  assert (Herror : quiet (emit (console_log "Received message from Hume:") ;;;
                          emit (console_error "Error from Hume API:"))).
  { intros r s' t [= <- <- <-] st data [H|[H|[]]]; discriminate H. }
  assert (Hother : quiet (emit (console_log "Received message from Hume:"))).
  { intros r s' t [= <- <- <-] st data [H|[]]; discriminate H. }
  assert (Haudio : forall body,
            body = (payload <- lift (get "data" msg) ;;
                    providerAudio <- lift (Buffer_from_base64 payload) ;;
                    wavInfo <- lift (wav_lib.parseWav providerAudio) ;;
                    match wavInfo with
                    | None => emit (console_error "Failed to parse WAV from Hume")
                    | Some info =>
                        when (negb (N.eqb (wav_lib.sampleRate info) 8000))
                          (emit (console_warn "Hume output sample rate differs from expected (8000Hz)")) ;;;
                        s <- read ;;
                        when (is_open (clientWs s))
                          (socket_send Client
                             (stringify (object [("type", str "audio");
                                                 ("audio", str (base64 (wav_lib.pcmData info)))])))
                    end) ->
            quiet (try_catch body
                     (fun _ => emit (console_error "Error processing audio from Hume:")))).
  { intros body -> r s' t. unfold try_catch, bind, lift, when, emit, read, ret.
    destruct (get "data" msg) as [payload|e1]; cbn.
    2:{ intros [= <- <- <-] st data [H|[]]; discriminate H. }
    destruct (Buffer_from_base64 payload) as [audio|e2]; cbn.
    2:{ intros [= <- <- <-] st data [H|[]]; discriminate H. }
    destruct (wav_lib.parseWav audio) as [[info|]|e3]; cbn.
    - destruct (negb (N.eqb (wav_lib.sampleRate info) 8000)); cbn;
        rewrite Hguard; cbn;
        intros [= <- <- <-] st data H; cbn in H;
        repeat (destruct H as [H|H]; [discriminate H|]); exact H.
    - intros [= <- <- <-] st data [H|[]]; discriminate H.
    - intros [= <- <- <-] st data [H|[]]; discriminate H. }
  specialize (Haudio _ eq_refl).
  cbn [step]. unfold on_hume_message. intros r s' t.
  destruct (get "type" msg) as [type|e] eqn:Htype.
  2:{ rewrite (bind_lift_Throw _ _ eq_refl). intros [= <- <- <-] st data []. }
  rewrite (bind_lift_Normal _ _ eq_refl). revert r s' t.
  match goal with
  | |- forall r s' t, ?m s = _ -> _ => change (quiet m)
  end.
  revert Herror Hother Haudio. generalize quiet.
  clear. intros quiet.
  match goal with
  | |- quiet ?a -> quiet ?c -> quiet ?b -> _ =>
      generalize a, c, b
  end.
  intros a c b Ha Hc Hb.
  destruct type as [[ | | | text | | ]|]; try exact Hc.
  repeat match goal with
         | |- context [match ?x with _ => _ end] =>
             is_var x; destruct x; try exact Hc; try exact Ha; try exact Hb
         end.
Qed.

End IndexTs.


(** * Further properties of the code *)

(** ** index.js: the chunk walk of [stripWavHeader] *)

Lemma u16le_bytes (n : N) :
  exists a b, u16le n = [a; b]
              /\ Byte.to_N a = (n mod 256)%N
              /\ Byte.to_N b = (n / 256 mod 256)%N.
Proof.
  unfold u16le.
  destruct (Byte.of_N (n mod 256)) as [a|] eqn:Ea.
  2:{ apply Byte.of_N_None_iff in Ea.
      pose proof (N.mod_upper_bound n 256). lia. }
  destruct (Byte.of_N (n / 256 mod 256)) as [b|] eqn:Eb.
  2:{ apply Byte.of_N_None_iff in Eb.
      pose proof (N.mod_upper_bound (n / 256) 256). lia. }
  exists a, b. repeat split; apply Byte.to_of_N; assumption.
Qed.

Lemma u32le_bytes (n : N) :
  (n < 4294967296)%N ->
  exists a b c d,
    u32le n = [a; b; c; d]
    /\ (Byte.to_N a + 256 * Byte.to_N b + 65536 * Byte.to_N c
        + 16777216 * Byte.to_N d = n)%N.
Proof.
  intros Hn. unfold u32le.
  destruct (u16le_bytes (n mod 65536)) as (a & b & -> & Ha & Hb).
  destruct (u16le_bytes (n / 65536)) as (c & d & -> & Hc & Hd).
  exists a, b, c, d. split; [reflexivity|].
  rewrite Ha, Hb, Hc, Hd. clear Ha Hb Hc Hd.
  pose proof (N.div_mod n 65536 ltac:(lia)).
  pose proof (N.mod_upper_bound n 65536 ltac:(lia)).
  pose proof (N.div_mod (n mod 65536) 256 ltac:(lia)).
  pose proof (N.mod_upper_bound (n mod 65536) 256 ltac:(lia)).
  pose proof (N.div_mod (n / 65536) 256 ltac:(lia)).
  pose proof (N.mod_upper_bound (n / 65536) 256 ltac:(lia)).
  assert (n / 65536 < 65536)%N by (apply N.Div0.div_lt_upper_bound; lia).
  assert (n mod 65536 / 256 < 256)%N by (apply N.Div0.div_lt_upper_bound; lia).
  assert (n / 65536 / 256 < 256)%N by (apply N.Div0.div_lt_upper_bound; lia).
  rewrite (N.mod_small (n mod 65536 / 256)) by lia.
  rewrite (N.mod_small (n / 65536 / 256)) by lia.
  lia.
Qed.

Lemma byte_at_app (front back : Buffer) (i : nat) :
  Buffer.byte_at (front ++ back) (List.length front + i) = Buffer.byte_at back i.
Proof.
  unfold Buffer.byte_at. rewrite app_nth2 by lia.
  replace (List.length front + i - List.length front) with i by lia. reflexivity.
Qed.

Lemma readUInt32LE_field (front back : Buffer) (n : N) :
  (n < 4294967296)%N ->
  Buffer.readUInt32LE (front ++ u32le n ++ back) (List.length front) = Normal n.
Proof.
  intros Hn. destruct (u32le_bytes Hn) as (a & b & c & d & -> & Hsum).
  unfold Buffer.readUInt32LE.
  replace (List.length front + 4 <=? List.length (front ++ [a; b; c; d] ++ back))
    with true by (symmetry; apply Nat.leb_le; rewrite !length_app; simpl; lia).
  rewrite <- (Nat.add_0_r (List.length front)) at 1.
  rewrite !byte_at_app. unfold Buffer.byte_at. simpl nth. rewrite Hsum. reflexivity.
Qed.

Lemma toString_ascii_field (front id back : Buffer) :
  List.length id = 4 ->
  Buffer.toString_ascii (front ++ id ++ back) (List.length front) (List.length front + 4)
  = Buffer.toString_ascii id 0 4.
Proof.
  intros Hid. unfold Buffer.toString_ascii, Buffer.slice.
  replace (List.length front + 4 - List.length front) with 4 by lia.
  rewrite skipn_app, skipn_all, Nat.sub_diag, skipn_O, app_nil_l.
  rewrite firstn_app, Hid, Nat.sub_diag, firstn_O, app_nil_r.
  unfold Buffer.slice. rewrite Nat.sub_0_r, skipn_O. reflexivity.
Qed.

(** The loop, one round at a time. *)
Lemma walk_round (buffer : Buffer) (offset : N) :
  index_js_wav.walk buffer offset
  = if N.leb (offset + 8) (N.of_nat (List.length buffer))
    then match Buffer.readUInt32LE buffer (N.to_nat offset + 4) with
         | Throw e => Throw e
         | Normal chunkSize =>
             if String.eqb (Buffer.toString_ascii buffer (N.to_nat offset)
                                                  (N.to_nat offset + 4)) "data"
             then Normal (Buffer.slice buffer (N.to_nat (offset + 8))
                            (N.to_nat (N.min (offset + 8 + chunkSize)
                                             (N.of_nat (List.length buffer)))))
             else index_js_wav.walk buffer (offset + 8 + chunkSize)
         end
    else Normal buffer.
Proof.
  funelim (index_js_wav.walk buffer offset);
    repeat match goal with
           | H : _ = _ |- _ => rewrite H
           end; reflexivity.
Qed.

(** One round of the loop over a sub-chunk that is not the data chunk. *)
Lemma walk_steps_over (front back : Buffer) (c : Buffer * Buffer) :
  skipped_chunk c ->
  index_js_wav.walk (front ++ riff_chunk c ++ back) (N.of_nat (List.length front))
  = index_js_wav.walk (front ++ riff_chunk c ++ back)
      (N.of_nat (List.length (front ++ riff_chunk c))).
Proof.
  intros (Hid & Hname & Hsize). destruct c as [id payload]. cbn [fst snd] in *.
  unfold riff_chunk. cbn [fst snd].
  set (buffer := front ++ (id ++ u32le (N.of_nat (List.length payload)) ++ payload) ++ back).
  assert (Hlen : List.length buffer
                 = List.length front + 8 + List.length payload + List.length back).
  { subst buffer. destruct (u32le_bytes Hsize) as (a & b & c & d & -> & _).
    rewrite !length_app. simpl. lia. }
  assert (Hread : Buffer.readUInt32LE buffer (List.length front + 4)
                  = Normal (N.of_nat (List.length payload))).
  { subst buffer.
    replace (front ++ (id ++ u32le (N.of_nat (List.length payload)) ++ payload) ++ back)
      with ((front ++ id) ++ u32le (N.of_nat (List.length payload)) ++ payload ++ back)
      by (rewrite <- !app_assoc; reflexivity).
    replace (List.length front + 4) with (List.length (front ++ id))
      by (rewrite length_app; lia).
    apply readUInt32LE_field. exact Hsize. }
  assert (Hascii : Buffer.toString_ascii buffer (List.length front) (List.length front + 4)
                   = Buffer.toString_ascii id 0 4).
  { subst buffer. rewrite <- !app_assoc. apply toString_ascii_field. exact Hid. }
  rewrite walk_round.
  replace (N.of_nat (List.length front) + 8 <=? N.of_nat (List.length buffer))%N
    with true by (symmetry; apply N.leb_le; lia).
  rewrite Nat2N.id, Hread, Hascii.
  apply String.eqb_neq in Hname. rewrite Hname.
  f_equal. destruct (u32le_bytes Hsize) as (a & b & c & d & -> & _).
  rewrite !length_app. simpl. lia.
Qed.

Lemma walk_steps_over_all (front back : Buffer) (cs : list (Buffer * Buffer)) :
  Forall skipped_chunk cs ->
  index_js_wav.walk (front ++ List.concat (map riff_chunk cs) ++ back)
                    (N.of_nat (List.length front))
  = index_js_wav.walk (front ++ List.concat (map riff_chunk cs) ++ back)
      (N.of_nat (List.length (front ++ List.concat (map riff_chunk cs)))).
Proof.
  intros Hcs. revert front.
  induction Hcs as [|c cs Hc Hcs IH]; intros front.
  - cbn [map List.concat]. rewrite app_nil_r. reflexivity.
  - cbn [map List.concat].
    replace (front ++ (riff_chunk c ++ List.concat (map riff_chunk cs)) ++ back)
      with (front ++ riff_chunk c ++ (List.concat (map riff_chunk cs) ++ back))
      by (rewrite <- !app_assoc; reflexivity).
    rewrite (walk_steps_over front _ Hc).
    replace (front ++ riff_chunk c ++ (List.concat (map riff_chunk cs) ++ back))
      with ((front ++ riff_chunk c) ++ List.concat (map riff_chunk cs) ++ back)
      by (rewrite <- !app_assoc; reflexivity).
    rewrite IH. rewrite <- !app_assoc. reflexivity.
Qed.

(** The round that finds the data chunk. *)
Lemma walk_finds_data (front rest : Buffer) (declared : N) :
  (declared < 4294967296)%N ->
  index_js_wav.walk (front ++ Buffer.from "data" ++ u32le declared ++ rest)
                    (N.of_nat (List.length front))
  = Normal (firstn (N.to_nat declared) rest).
Proof.
  intros Hsize.
  set (buffer := front ++ Buffer.from "data" ++ u32le declared ++ rest).
  assert (Hlen : List.length buffer = List.length front + 8 + List.length rest).
  { subst buffer. destruct (u32le_bytes Hsize) as (a & b & c & d & -> & _).
    rewrite !length_app. simpl. lia. }
  assert (Hread : Buffer.readUInt32LE buffer (List.length front + 4) = Normal declared).
  { subst buffer.
    replace (front ++ Buffer.from "data" ++ u32le declared ++ rest)
      with ((front ++ Buffer.from "data") ++ u32le declared ++ rest)
      by (rewrite <- !app_assoc; reflexivity).
    replace (List.length front + 4) with (List.length (front ++ Buffer.from "data"))
      by (rewrite length_app; reflexivity).
    apply readUInt32LE_field. exact Hsize. }
  assert (Hascii : Buffer.toString_ascii buffer (List.length front) (List.length front + 4)
                   = "data").
  { subst buffer. rewrite toString_ascii_field by reflexivity. reflexivity. }
  rewrite walk_round.
  replace (N.of_nat (List.length front) + 8 <=? N.of_nat (List.length buffer))%N
    with true by (symmetry; apply N.leb_le; lia).
  rewrite Nat2N.id, Hread, Hascii. cbn [String.eqb Ascii.eqb Bool.eqb andb].
  f_equal. unfold Buffer.slice.
  replace (N.to_nat (N.of_nat (List.length front) + 8)) with (List.length front + 8) by lia.
  assert (Hskip : skipn (List.length front + 8) buffer = rest).
  { subst buffer. destruct (u32le_bytes Hsize) as (a & b & c & d & -> & _).
    replace (front ++ Buffer.from "data" ++ [a; b; c; d] ++ rest)
      with ((front ++ Buffer.from "data" ++ [a; b; c; d]) ++ rest)
      by (rewrite <- !app_assoc; reflexivity).
    rewrite skipn_app, skipn_all2 by (rewrite !length_app; simpl; lia).
    replace (List.length front + 8 - _) with 0 by (rewrite !length_app; simpl; lia).
    reflexivity. }
  rewrite Hskip, Hlen.
  destruct (N.le_gt_cases (N.of_nat (List.length front) + 8 + declared)
              (N.of_nat (List.length front + 8 + List.length rest))) as [Hle|Hgt].
  - rewrite N.min_l by exact Hle. f_equal. lia.
  - rewrite N.min_r by lia.
    rewrite !firstn_all2 by lia. reflexivity.
Qed.

Section ContainerWalk.
Variable riff_size : N.
Variable skipped : list (Buffer * Buffer).
Hypothesis riff_size_fits : (riff_size < 4294967296)%N.
Hypothesis skipped_ok : Forall skipped_chunk skipped.

Lemma container_front_length :
  List.length (riff_header riff_size) = 12.
Proof.
  unfold riff_header. destruct (u32le_bytes riff_size_fits) as (a & b & c & d & -> & _).
  reflexivity.
Qed.

Lemma container_magic (tail : Buffer) :
  Buffer.toString_ascii (riff_header riff_size ++ tail) 0 4 = "RIFF"
  /\ Buffer.toString_ascii (riff_header riff_size ++ tail) 8 12 = "WAVE".
Proof.
  unfold riff_header. destruct (u32le_bytes riff_size_fits) as (a & b & c & d & -> & _).
  split; reflexivity.
Qed.

Lemma stripWavHeader_of_container (declared : N) (rest : Buffer) :
  (declared < 4294967296)%N ->
  let buffer := riff_header riff_size ++ List.concat (map riff_chunk skipped)
                ++ Buffer.from "data" ++ u32le declared ++ rest in
  44 <= List.length buffer ->
  index_js_wav.stripWavHeader buffer = Normal (firstn (N.to_nat declared) rest).
Proof.
  intros Hsize buffer Hlong.
  unfold index_js_wav.stripWavHeader. fold buffer.
  replace (List.length buffer <? 44) with false
    by (symmetry; apply Nat.ltb_ge; exact Hlong).
  destruct (container_magic (List.concat (map riff_chunk skipped)
              ++ Buffer.from "data" ++ u32le declared ++ rest)) as [Hriff Hwave].
  fold buffer in Hriff, Hwave. rewrite Hriff, Hwave.
  cbn [String.eqb Ascii.eqb Bool.eqb andb negb orb].
  replace 12%N with (N.of_nat (List.length (riff_header riff_size)))
    by (rewrite container_front_length; reflexivity).
  subst buffer.
  rewrite (walk_steps_over_all (riff_header riff_size)
             (Buffer.from "data" ++ u32le declared ++ rest) skipped_ok).
  replace (riff_header riff_size ++ List.concat (map riff_chunk skipped)
           ++ Buffer.from "data" ++ u32le declared ++ rest)
    with ((riff_header riff_size ++ List.concat (map riff_chunk skipped))
          ++ Buffer.from "data" ++ u32le declared ++ rest)
    by (rewrite <- !app_assoc; reflexivity).
  apply walk_finds_data. exact Hsize.
Qed.

(** X1.  [stripWavHeader] of index.js on a container whose sub-chunks
    lie back to back: it steps over every sub-chunk before the first
    [data] chunk, whatever their number and sizes, and returns the bytes
    that follow the data chunk's 8-byte header, cut to the declared size;
    a declared size that runs past the end of the buffer is clamped to
    the end.  Bytes after the payload are left out. *)
Theorem stripWavHeader_returns_payload (declared : N) (rest : Buffer) :
  (declared < 4294967296)%N ->
  let buffer := riff_header riff_size ++ List.concat (map riff_chunk skipped)
                ++ Buffer.from "data" ++ u32le declared ++ rest in
  44 <= List.length buffer ->
  index_js_wav.stripWavHeader buffer = Normal (firstn (N.to_nat declared) rest).
Proof.
  exact (@stripWavHeader_of_container declared rest).
Qed.

(** X2.  [stripWavHeader] of index.js on a container without a [data]
    chunk: when the walk over the sub-chunks ends with fewer than 8 bytes
    left, the whole buffer is returned, header included. *)
Theorem stripWavHeader_without_data_chunk (tail : Buffer) :
  List.length tail < 8 ->
  let buffer := riff_header riff_size ++ List.concat (map riff_chunk skipped) ++ tail in
  index_js_wav.stripWavHeader buffer = Normal buffer.
Proof.
  intros Hshort buffer.
  unfold index_js_wav.stripWavHeader. fold buffer.
  destruct (_ || _ || _); [reflexivity|].
  replace 12%N with (N.of_nat (List.length (riff_header riff_size)))
    by (rewrite container_front_length; reflexivity).
  subst buffer.
  rewrite (walk_steps_over_all (riff_header riff_size) tail skipped_ok).
  rewrite walk_round.
  replace (N.leb _ _) with false; [reflexivity|].
  symmetry. apply N.leb_gt. rewrite !length_app. lia.
Qed.

End ContainerWalk.

Lemma stripWavHeader_returns_payload_witness :
  index_js_wav.stripWavHeader test_wav = Normal [x01; x02; x03; x04].
Proof.
  assert (Hfmt : Forall skipped_chunk
                   [(Buffer.from "fmt ",
                     u16le 1 ++ u16le 1 ++ u32le 8000 ++ u32le 16000
                     ++ u16le 2 ++ u16le 16)]).
  { constructor; [|constructor].
    split; [reflexivity | split; [vm_compute; discriminate | vm_compute; reflexivity]]. }
  exact (@stripWavHeader_returns_payload 40 _ eq_refl Hfmt 4 [x01; x02; x03; x04]
           eq_refl (proj1 (Nat.leb_le 44 48) eq_refl)).
Defined.

Lemma stripWavHeader_without_data_chunk_witness :
  let buffer := riff_header 40 ++ riff_chunk (Buffer.from "LIST", repeat x00 40) ++ [x00] in
  index_js_wav.stripWavHeader buffer = Normal buffer.
Proof.
  assert (Hlist : Forall skipped_chunk [(Buffer.from "LIST", repeat x00 40)]).
  { constructor; [|constructor].
    split; [reflexivity | split; [vm_compute; discriminate | vm_compute; reflexivity]]. }
  pose proof (@stripWavHeader_without_data_chunk 40 _ eq_refl Hlist [x00]
                (proj1 (Nat.leb_le 2 8) eq_refl)) as H.
  cbn [map List.concat] in H. rewrite app_nil_r in H. exact H.
Defined.

(** What the loop returns is the buffer or a slice of it that starts
    behind a chunk header. *)
Lemma walk_returns_slice (buffer : Buffer) (offset : N) :
  (12 <= offset)%N ->
  index_js_wav.walk buffer offset = Normal buffer
  \/ exists start stop,
       20 <= start /\ start <= stop /\ stop <= List.length buffer
       /\ index_js_wav.walk buffer offset = Normal (Buffer.slice buffer start stop).
Proof.
  funelim (index_js_wav.walk buffer offset); intros Hoffset.
  - left. reflexivity.
  - exfalso.
    match goal with
    | Hr : Buffer.readUInt32LE _ _ = Throw _ |- _ =>
        unfold Buffer.readUInt32LE in Hr;
        destruct (N.to_nat offset + 4 + 4 <=? List.length buffer) eqn:E;
        [discriminate Hr | apply Nat.leb_gt in E]
    end.
    match goal with
    | Hle : N.leb _ _ = true |- _ => pose proof (proj1 (N.leb_le _ _) Hle); lia
    end.
  - right.
    match goal with
    | Hle : N.leb _ _ = true |- _ => pose proof (proj1 (N.leb_le _ _) Hle) as Hin
    end.
    eexists. eexists. split; [|split; [|split; [|reflexivity]]]; lia.
  - match goal with
    | IH : (12 <= _)%N -> _ |- _ => apply IH; lia
    end.
Qed.

(** X3.  [stripWavHeader] of index.js never throws, and it never returns
    bytes that are not in its input: the result is the buffer itself or
    one contiguous slice of it that begins at offset 20 or later. *)
Theorem stripWavHeader_returns_part_of_input (buffer : Buffer) :
  index_js_wav.stripWavHeader buffer = Normal buffer
  \/ exists start stop,
       20 <= start /\ start <= stop /\ stop <= List.length buffer
       /\ index_js_wav.stripWavHeader buffer = Normal (Buffer.slice buffer start stop).
Proof.
  unfold index_js_wav.stripWavHeader.
  destruct (_ || _ || _); [left; reflexivity|].
  apply walk_returns_slice. lia.
Qed.


(** ** The marker search of the WAV libraries *)

Lemma firstn_starts_with (m b : Buffer) :
  firstn (List.length m) b = m -> Buffer.starts_with m b = true.
Proof.
  revert b; induction m as [|x m IH]; intros b H; [reflexivity|].
  destruct b as [|y b]; [discriminate|]. simpl in H |- *.
  injection H as -> H. rewrite (IH _ H).
  rewrite (Byte.byte_dec_lb eq_refl). reflexivity.
Qed.

Lemma indexOf_least (b m : Buffer) (i : nat) :
  Buffer.indexOf b m = Some i ->
  forall j, j < i -> Buffer.starts_with m (skipn j b) = false.
Proof.
  revert i; induction b as [|x b IH]; intros i; simpl.
  - destruct (Buffer.starts_with m []); [|discriminate].
    intros [= <-] j Hj. lia.
  - destruct (Buffer.starts_with m (x :: b)) eqn:E.
    + intros [= <-] j Hj. lia.
    + destruct (Buffer.indexOf b m) as [k|] eqn:Ek; simpl; [|discriminate].
      intros [= <-] [|j] Hj; [exact E|]. simpl. apply (IH k eq_refl). lia.
Qed.

Lemma indexOf_None (b m : Buffer) :
  Buffer.indexOf b m = None ->
  forall j, Buffer.starts_with m (skipn j b) = false.
Proof.
  induction b as [|x b IH]; simpl.
  - destruct (Buffer.starts_with m []) eqn:E; [discriminate|].
    intros _ [|j]; exact E.
  - destruct (Buffer.starts_with m (x :: b)) eqn:E; [discriminate|].
    destruct (Buffer.indexOf b m) as [k|] eqn:Ek; simpl; [discriminate|].
    intros _ [|j]; [exact E|]. simpl. apply IH. reflexivity.
Qed.

Lemma indexOf_found (b m : Buffer) (i : nat) :
  Buffer.starts_with m (skipn i b) = true ->
  (forall j, j < i -> Buffer.starts_with m (skipn j b) = false) ->
  Buffer.indexOf b m = Some i.
Proof.
  intros Hi Hleast.
  destruct (Buffer.indexOf b m) as [k|] eqn:E.
  - f_equal. destruct (Nat.lt_trichotomy k i) as [Hlt|[Heq|Hgt]]; [|exact Heq|].
    + pose proof (indexOf_Some _ _ E) as Hk. apply firstn_starts_with in Hk.
      rewrite (Hleast k Hlt) in Hk. discriminate.
    + rewrite (indexOf_least _ _ E Hgt) in Hi. discriminate.
  - rewrite (indexOf_None _ _ E i) in Hi. discriminate.
Qed.

(** The marker sits at offset [i] of the buffer. *)
Lemma marker_at_iff (b m : Buffer) (i : nat) :
  Buffer.starts_with m (skipn i b) = true
  <-> Buffer.slice b i (i + List.length m) = m.
Proof.
  unfold Buffer.slice. replace (i + List.length m - i) with (List.length m) by lia.
  split; [apply starts_with_firstn | apply firstn_starts_with].
Qed.

Lemma marker_at_prefix (b m : Buffer) (limit i : nat) :
  i + List.length m <= limit ->
  Buffer.slice (Buffer.slice b 0 limit) i (i + List.length m)
  = Buffer.slice b i (i + List.length m).
Proof.
  intros Hi. unfold Buffer.slice. rewrite Nat.sub_0_r, skipn_O.
  rewrite skipn_firstn_comm, firstn_firstn.
  f_equal. lia.
Qed.

Lemma slice_app_prefix (a b : Buffer) (start stop : nat) :
  stop <= List.length a ->
  Buffer.slice (a ++ b) start stop = Buffer.slice a start stop.
Proof.
  intros H. unfold Buffer.slice. rewrite skipn_app, firstn_app, length_skipn.
  replace (stop - start - (List.length a - start)) with 0 by lia.
  rewrite firstn_O, app_nil_r. reflexivity.
Qed.

Lemma scan_found (buffer : Buffer) (remaining i j : nat) :
  i <= j < i + remaining ->
  Buffer.slice buffer j (j + 4) = Buffer.from "data" ->
  (forall k, i <= k < j -> Buffer.slice buffer k (k + 4) <> Buffer.from "data") ->
  wav_scan.scan buffer i remaining = Some j.
Proof.
  revert i; induction remaining as [|r IH]; intros i Hj Hat Hleast; [lia|].
  simpl. destruct (Buffer.equals _ _) eqn:E.
  - apply equals_eq in E. f_equal.
    destruct (Nat.eq_dec i j) as [|Hne]; [assumption|].
    exfalso. apply (Hleast i); [lia | exact E].
  - assert (i <> j).
    { intros ->. apply equals_eq in Hat. unfold wav_scan.dataMarker in E.
      rewrite Hat in E. discriminate. }
    apply IH; [lia | exact Hat |]. intros k Hk. apply Hleast. lia.
Qed.

(** X4.  The marker-search [stripWavHeader] functions do not read the
    size field of the data chunk: when the first "data" marker of the
    buffer ends within the first 200 bytes, all three return every byte
    behind the marker and the 4 bytes after it, whatever those 4 bytes
    say and whatever follows the payload. *)
Theorem marker_search_returns_rest (front size_field rest : Buffer) :
  List.length size_field = 4 ->
  List.length front + 4 <= 200 ->
  no_data_marker_before (List.length front) (front ++ Buffer.from "data") ->
  let buffer := front ++ Buffer.from "data" ++ size_field ++ rest in
  lib_ts.stripWavHeader buffer = rest
  /\ wav_lib.stripWavHeader buffer = rest
  /\ wav_scan.stripWavHeader buffer = rest.
Proof.
  intros Hsize Hwindow Hfirst buffer.
  assert (Hlen : List.length buffer = List.length front + 8 + List.length rest).
  { subst buffer. rewrite !length_app, Hsize. simpl. lia. }
  assert (Hat : Buffer.slice buffer (List.length front) (List.length front + 4)
                = Buffer.from "data").
  { subst buffer. unfold Buffer.slice.
    rewrite skipn_app, skipn_all, Nat.sub_diag, skipn_O, app_nil_l.
    replace (List.length front + 4 - List.length front) with 4 by lia. reflexivity. }
  assert (Hbefore : forall k, k < List.length front ->
                      Buffer.slice buffer k (k + 4) <> Buffer.from "data").
  { intros k Hk E. apply (Hfirst k Hk). subst buffer.
    rewrite (app_assoc front) in E.
    rewrite (slice_app_prefix (front ++ Buffer.from "data") (size_field ++ rest)) in E
      by (rewrite length_app; simpl; lia).
    exact E. }
  assert (Hskip : skipn (List.length front + 8) buffer = rest).
  { subst buffer.
    replace (front ++ Buffer.from "data" ++ size_field ++ rest)
      with ((front ++ Buffer.from "data" ++ size_field) ++ rest)
      by (rewrite <- !app_assoc; reflexivity).
    rewrite skipn_app, skipn_all2 by (rewrite !length_app, Hsize; simpl; lia).
    replace (List.length front + 8 - _) with 0
      by (rewrite !length_app, Hsize; simpl; lia).
    reflexivity. }
  assert (Hindex : Buffer.indexOf
                     (Buffer.slice buffer 0 (Nat.min (List.length buffer) 200))
                     (Buffer.from "data") = Some (List.length front)).
  { apply indexOf_found.
    - apply marker_at_iff.
      rewrite (marker_at_prefix buffer (Buffer.from "data")) by (simpl; lia).
      exact Hat.
    - intros j Hj. destruct (Buffer.starts_with _ _) eqn:E; [|reflexivity].
      apply marker_at_iff in E.
      rewrite (marker_at_prefix buffer (Buffer.from "data")) in E by (simpl; lia).
      exfalso. exact (Hbefore j Hj E). }
  split; [|split].
  - unfold lib_ts.stripWavHeader, lib_ts.DATA_MARKER. cbv zeta.
    rewrite Hindex. exact Hskip.
  - unfold wav_lib.stripWavHeader, wav_lib.DATA_MARKER. cbv zeta.
    rewrite Hindex. exact Hskip.
  - unfold wav_scan.stripWavHeader.
    rewrite (@scan_found buffer (Nat.min (List.length buffer) 200)
               0 (List.length front)).
    + exact Hskip.
    + lia.
    + exact Hat.
    + intros k Hk. apply Hbefore. lia.
Qed.

Lemma marker_search_returns_rest_witness :
  lib_ts.stripWavHeader test_wav = [x01; x02; x03; x04]
  /\ wav_lib.stripWavHeader test_wav = [x01; x02; x03; x04]
  /\ wav_scan.stripWavHeader test_wav = [x01; x02; x03; x04].
Proof.
  assert (Hfirst : no_data_marker_before 36 (firstn 36 test_wav ++ Buffer.from "data")).
  { intros i Hi.
    do 36 (destruct i as [|i]; [vm_compute; discriminate|]). lia. }
  exact (@marker_search_returns_rest (firstn 36 test_wav) (u32le 4)
           [x01; x02; x03; x04] eq_refl (proj1 (Nat.leb_le 40 200) eq_refl) Hfirst).
Defined.

Lemma window_first_marker (buffer m : Buffer) (i : nat) :
  m <> [] ->
  Buffer.indexOf (Buffer.slice buffer 0 (Nat.min (List.length buffer) 200)) m = Some i ->
  Buffer.slice buffer i (i + List.length m) = m
  /\ i + List.length m <= Nat.min (List.length buffer) 200
  /\ forall j, j < i -> Buffer.slice buffer j (j + List.length m) <> m.
Proof.
  intros Hm H. destruct (indexOf_prefix _ _ Hm H) as [Hat Hin].
  split; [exact Hat|]. split; [exact Hin|].
  intros j Hj E.
  pose proof (indexOf_least _ _ H Hj) as Hno.
  rewrite <- (marker_at_prefix buffer m (limit := Nat.min (List.length buffer) 200)) in E
    by lia.
  apply marker_at_iff in E. rewrite E in Hno. discriminate.
Qed.

Lemma window_no_marker (buffer m : Buffer) (j : nat) :
  Buffer.indexOf (Buffer.slice buffer 0 (Nat.min (List.length buffer) 200)) m = None ->
  j + List.length m <= Nat.min (List.length buffer) 200 ->
  Buffer.slice buffer j (j + List.length m) <> m.
Proof.
  intros H Hj E.
  pose proof (indexOf_None _ _ H j) as Hno.
  rewrite <- (marker_at_prefix buffer m (limit := Nat.min (List.length buffer) 200)) in E
    by lia.
  apply marker_at_iff in E. rewrite E in Hno. discriminate.
Qed.

Lemma slice_short (buffer : Buffer) (i n : nat) :
  0 < n ->
  List.length buffer < i + n ->
  List.length (Buffer.slice buffer i (i + n)) < n.
Proof.
  intros Hn H. unfold Buffer.slice. rewrite length_firstn, length_skipn. lia.
Qed.

(** X5.  The scanning loop of the earliest WAV library and the
    [indexOf] search of src/lib.ts strip the same header from every
    buffer in which no "data" marker begins at offset 197, 198 or 199;
    in particular from every buffer of at most 200 bytes. *)
Theorem scan_agrees_with_indexOf (buffer : Buffer) :
  (forall i, 197 <= i < 200 ->
             Buffer.slice buffer i (i + 4) <> Buffer.from "data")
  \/ List.length buffer <= 200 ->
  wav_scan.stripWavHeader buffer = lib_ts.stripWavHeader buffer.
Proof.
  intros Hedge.
  assert (Hedge' : forall i, 197 <= i < 200 ->
                     Buffer.slice buffer i (i + 4) <> Buffer.from "data").
  { destruct Hedge as [H|Hshort]; [exact H|].
    intros i Hi E.
    pose proof (@slice_short buffer i 4 ltac:(lia) ltac:(lia)) as Hs.
    rewrite E in Hs. simpl in Hs. lia. }
  unfold wav_scan.stripWavHeader, lib_ts.stripWavHeader, lib_ts.DATA_MARKER.
  cbv zeta.
  destruct (Buffer.indexOf _ _) as [d|] eqn:E.
  - destruct (@window_first_marker buffer (Buffer.from "data") d) as (Hat & Hin & Hleast);
      [discriminate | exact E |].
    simpl in Hat, Hin, Hleast.
    rewrite (@scan_found buffer (Nat.min (List.length buffer) 200) 0 d);
      [reflexivity | lia | exact Hat |].
    intros k Hk. apply Hleast. lia.
  - rewrite scan_misses; [reflexivity|].
    intros j Hj.
    destruct (Nat.le_gt_cases (j + 4) (Nat.min (List.length buffer) 200)) as [Hfit|Hout].
    + exact (@window_no_marker buffer (Buffer.from "data") j E Hfit).
    + destruct (Nat.le_gt_cases 200 (List.length buffer)) as [Hlong|Hshort].
      * apply Hedge'. lia.
      * intros Eq.
        pose proof (@slice_short buffer j 4 ltac:(lia) ltac:(lia)) as Hs.
        rewrite Eq in Hs. simpl in Hs. lia.
Qed.

Lemma scan_agrees_with_indexOf_witness :
  wav_scan.stripWavHeader raw_with_data_letters
  = lib_ts.stripWavHeader raw_with_data_letters.
Proof.
  apply scan_agrees_with_indexOf. right. vm_compute. lia.
Defined.

(** X6.  [parseWav] fails with a RangeError exactly when the first
    "fmt " marker within the first 200 bytes has fewer than 24 bytes
    from its start to the end of the buffer; whether a "data" marker
    exists plays no part. *)
Theorem parseWav_throws_iff (buffer : Buffer) :
  (exists e, wav_lib.parseWav buffer = Throw e)
  <-> exists fmtIndex,
        Buffer.indexOf (Buffer.slice buffer 0 (Nat.min (List.length buffer) 200))
                       wav_lib.FMT_MARKER = Some fmtIndex
        /\ List.length buffer < fmtIndex + 24.
Proof.
  unfold wav_lib.parseWav. cbv zeta.
  destruct (Buffer.indexOf _ wav_lib.FMT_MARKER) as [f|].
  2:{ split; [intros [e He]; discriminate | intros (f & Hf & _); discriminate]. }
  unfold Buffer.readUInt16LE, Buffer.readUInt32LE.
  destruct (Nat.le_gt_cases (f + 24) (List.length buffer)) as [Hfit|Hout].
  - replace (f + 8 + 2 + 2 <=? List.length buffer) with true
      by (symmetry; apply Nat.leb_le; lia).
    replace (f + 8 + 4 + 4 <=? List.length buffer) with true
      by (symmetry; apply Nat.leb_le; lia).
    replace (f + 8 + 14 + 2 <=? List.length buffer) with true
      by (symmetry; apply Nat.leb_le; lia).
    split.
    + intros [e He]. destruct (Buffer.indexOf _ wav_lib.DATA_MARKER); discriminate.
    + intros (f' & [= <-] & Hlt). lia.
  - replace (f + 8 + 14 + 2 <=? List.length buffer) with false
      by (symmetry; apply Nat.leb_gt; lia).
    split.
    + intros _. exists f. split; [reflexivity | exact Hout].
    + intros _. exists Buffer.out_of_range.
      destruct (f + 8 + 2 + 2 <=? List.length buffer); [|reflexivity].
      destruct (f + 8 + 4 + 4 <=? List.length buffer); reflexivity.
Qed.

(** X7.  Whenever [parseWav] returns a parsed file, its payload is what
    the deprecated [stripWavHeader] of the same library and the one of
    src/lib.ts return for the buffer, the three header fields are within
    the range of their 16- and 32-bit encodings, and the buffer holds at
    least the 24 bytes from the "fmt " marker on. *)
Theorem parseWav_payload (buffer : Buffer) (info : wav_lib.WavInfo) :
  wav_lib.parseWav buffer = Normal (Some info) ->
  wav_lib.pcmData info = wav_lib.stripWavHeader buffer
  /\ wav_lib.pcmData info = lib_ts.stripWavHeader buffer
  /\ (wav_lib.channels info < 65536)%N
  /\ (wav_lib.sampleRate info < 4294967296)%N
  /\ (wav_lib.bitsPerSample info < 65536)%N
  /\ 24 <= List.length buffer.
Proof.
  unfold wav_lib.parseWav, wav_lib.stripWavHeader, lib_ts.stripWavHeader,
    lib_ts.DATA_MARKER. cbv zeta.
  destruct (Buffer.indexOf _ wav_lib.FMT_MARKER) as [f|]; [|discriminate].
  unfold Buffer.readUInt16LE, Buffer.readUInt32LE.
  destruct (f + 8 + 2 + 2 <=? List.length buffer) eqn:E1; [|discriminate].
  destruct (f + 8 + 4 + 4 <=? List.length buffer) eqn:E2; [|discriminate].
  destruct (f + 8 + 14 + 2 <=? List.length buffer) eqn:E3; [|discriminate].
  apply Nat.leb_le in E3.
  assert (Hbyte : forall i, (Buffer.byte_at buffer i < 256)%N).
  { intros i. unfold Buffer.byte_at.
    pose proof (Byte.to_N_bounded (nth i buffer x00)). lia. }
  pose proof (Hbyte (f + 8 + 2)). pose proof (Hbyte (f + 8 + 2 + 1)).
  pose proof (Hbyte (f + 8 + 4)). pose proof (Hbyte (f + 8 + 4 + 1)).
  pose proof (Hbyte (f + 8 + 4 + 2)). pose proof (Hbyte (f + 8 + 4 + 3)).
  pose proof (Hbyte (f + 8 + 14)). pose proof (Hbyte (f + 8 + 14 + 1)).
  remember (Buffer.byte_at buffer (f + 8 + 2)
            + 256 * Buffer.byte_at buffer (f + 8 + 2 + 1))%N as c eqn:Ec.
  remember (Buffer.byte_at buffer (f + 8 + 4)
            + 256 * Buffer.byte_at buffer (f + 8 + 4 + 1)
            + 65536 * Buffer.byte_at buffer (f + 8 + 4 + 2)
            + 16777216 * Buffer.byte_at buffer (f + 8 + 4 + 3))%N as r eqn:Er.
  remember (Buffer.byte_at buffer (f + 8 + 14)
            + 256 * Buffer.byte_at buffer (f + 8 + 14 + 1))%N as w eqn:Ew.
  assert (Hc : (c < 65536)%N) by lia.
  assert (Hr : (r < 4294967296)%N) by lia.
  assert (Hw : (w < 65536)%N) by lia.
  clear Ec Er Ew.
  change wav_lib.DATA_MARKER with (Buffer.from "data").
  destruct (Buffer.indexOf _ (Buffer.from "data")) as [d|]; [|discriminate].
  intros [= <-]. cbn [wav_lib.pcmData wav_lib.channels wav_lib.sampleRate
                      wav_lib.bitsPerSample].
  split; [reflexivity|]. split; [reflexivity|].
  split; [exact Hc|]. split; [exact Hr|]. split; [exact Hw | lia].
Qed.

Lemma parseWav_payload_witness :
  wav_lib.parseWav test_wav
  = Normal (Some {| wav_lib.sampleRate := 8000; wav_lib.channels := 1;
                    wav_lib.bitsPerSample := 16;
                    wav_lib.pcmData := [x01; x02; x03; x04] |})
  /\ [x01; x02; x03; x04] = wav_lib.stripWavHeader test_wav.
Proof.
  assert (H : wav_lib.parseWav test_wav
              = Normal (Some {| wav_lib.sampleRate := 8000; wav_lib.channels := 1;
                                wav_lib.bitsPerSample := 16;
                                wav_lib.pcmData := [x01; x02; x03; x04] |}))
    by reflexivity.
  split; [exact H|]. exact (proj1 (parseWav_payload test_wav H)).
Defined.

Lemma u16le_value (n : N) :
  (n < 65536)%N ->
  exists a b, u16le n = [a; b] /\ (Byte.to_N a + 256 * Byte.to_N b = n)%N.
Proof.
  intros Hn. destruct (u16le_bytes n) as (a & b & E & Ha & Hb).
  exists a, b. split; [exact E|]. rewrite Ha, Hb.
  rewrite (N.mod_small (n / 256) 256)
    by (apply N.Div0.div_lt_upper_bound; lia).
  pose proof (N.div_mod n 256). lia.
Qed.

Lemma u32le_shape (n : N) : exists a b c d, u32le n = [a; b; c; d].
Proof.
  unfold u32le.
  destruct (u16le_bytes (n mod 65536)) as (a & b & -> & _).
  destruct (u16le_bytes (n / 65536)) as (c & d & -> & _).
  exists a, b, c, d. reflexivity.
Qed.

Lemma indexOf_app (b back m : Buffer) (i : nat) :
  Buffer.indexOf b m = Some i -> Buffer.indexOf (b ++ back) m = Some i.
Proof.
  intros H.
  pose proof (indexOf_Some _ _ H) as Hat.
  assert (Hfit : i + List.length m <= List.length b \/ m = []).
  { destruct m as [|x m]; [right; reflexivity|left].
    apply (f_equal (@List.length byte)) in Hat.
    rewrite length_firstn, length_skipn in Hat.
    cbn [List.length] in Hat |- *. lia. }
  destruct Hfit as [Hfit| ->].
  2:{ destruct b; simpl in H |- *; [destruct back|]; exact H. }
  apply indexOf_found.
  - apply marker_at_iff. rewrite slice_app_prefix by exact Hfit.
    apply marker_at_iff, firstn_starts_with, Hat.
  - intros j Hj. destruct (Buffer.starts_with m (skipn j (b ++ back))) eqn:E;
      [|reflexivity].
    apply marker_at_iff in E. rewrite slice_app_prefix in E by lia.
    apply marker_at_iff in E. rewrite (indexOf_least _ _ H Hj) in E. discriminate.
Qed.

Lemma window_of_header (header payload : Buffer) :
  List.length header <= 200 ->
  exists back,
    Buffer.slice (header ++ payload) 0
      (Nat.min (List.length (header ++ payload)) 200) = header ++ back.
Proof.
  intros H. unfold Buffer.slice. rewrite Nat.sub_0_r, skipn_O, firstn_app.
  rewrite firstn_all2 by (rewrite length_app; lia).
  eexists. reflexivity.
Qed.

Lemma parseWav_of_header
  (riff_size format channels rate byte_rate align bits data_size : N)
  (payload : Buffer) :
  (channels < 65536)%N -> (rate < 4294967296)%N -> (bits < 65536)%N ->
  let header := wav_header riff_size format channels rate byte_rate align bits
                           data_size in
  Buffer.indexOf header wav_lib.FMT_MARKER = Some 12 ->
  Buffer.indexOf header wav_lib.DATA_MARKER = Some 36 ->
  wav_lib.parseWav (header ++ payload)
  = Normal (Some {| wav_lib.sampleRate := rate; wav_lib.channels := channels;
                    wav_lib.bitsPerSample := bits; wav_lib.pcmData := payload |}).
Proof.
  intros Hchannels Hrate Hbits header.
  assert (Hshape : exists h,
             header = h /\ List.length h = 44
             /\ Buffer.readUInt16LE (h ++ payload) 22 = Normal channels
             /\ Buffer.readUInt32LE (h ++ payload) 24 = Normal rate
             /\ Buffer.readUInt16LE (h ++ payload) 34 = Normal bits
             /\ Buffer.subarray_from (h ++ payload) 44 = payload).
  { subst header. unfold wav_header, riff_header.
    destruct (u32le_shape riff_size) as (s0 & s1 & s2 & s3 & ->).
    destruct (u32le_shape 16) as (l0 & l1 & l2 & l3 & ->).
    destruct (u16le_bytes format) as (f0 & f1 & -> & _).
    destruct (u16le_value Hchannels) as (c0 & c1 & -> & Hc).
    destruct (u32le_bytes Hrate) as (r0 & r1 & r2 & r3 & -> & Hr).
    destruct (u32le_shape byte_rate) as (y0 & y1 & y2 & y3 & ->).
    destruct (u16le_bytes align) as (a0 & a1 & -> & _).
    destruct (u16le_value Hbits) as (w0 & w1 & -> & Hw).
    destruct (u32le_shape data_size) as (d0 & d1 & d2 & d3 & ->).
    eexists. split; [reflexivity|].
    split; [reflexivity|].
    unfold Buffer.readUInt16LE, Buffer.readUInt32LE, Buffer.byte_at,
      Buffer.subarray_from.
    cbn [app Buffer.from list_byte_of_string List.length Nat.add Nat.leb nth skipn
         map list_ascii_of_string byte_of_ascii].
    rewrite Hc, Hr, Hw. repeat split; reflexivity. }
  destruct Hshape as (h & -> & Hlen & Hc & Hr & Hw & Hpcm).
  intros Hfmt Hdata.
  destruct (@window_of_header h payload) as [back Hwindow]; [lia|].
  unfold wav_lib.parseWav. cbv zeta.
  rewrite Hwindow, (@indexOf_app h back _ 12 Hfmt), (@indexOf_app h back _ 36 Hdata).
  change (12 + 8 + 2) with 22. change (12 + 8 + 4) with 24.
  change (12 + 8 + 14) with 34. change (36 + 8) with 44.
  rewrite Hc, Hr, Hw, Hpcm. reflexivity.
Qed.

(** X8.  [parseWav] reads back a 44-byte PCM header: when the first
    "fmt " marker of the header is the one at offset 12 and its first
    "data" marker the one at offset 36, the result carries the channel
    count, sample rate and sample width written in the header, and the
    payload is every byte after the header, whatever the payload holds
    and whatever the two size fields say. *)
Theorem parseWav_reads_header
  (riff_size format channels rate byte_rate align bits data_size : N)
  (payload : Buffer) :
  (channels < 65536)%N -> (rate < 4294967296)%N -> (bits < 65536)%N ->
  let header := wav_header riff_size format channels rate byte_rate align bits
                           data_size in
  Buffer.indexOf header wav_lib.FMT_MARKER = Some 12 ->
  Buffer.indexOf header wav_lib.DATA_MARKER = Some 36 ->
  wav_lib.parseWav (header ++ payload)
  = Normal (Some {| wav_lib.sampleRate := rate; wav_lib.channels := channels;
                    wav_lib.bitsPerSample := bits; wav_lib.pcmData := payload |}).
Proof.
  exact (@parseWav_of_header riff_size format channels rate byte_rate align bits
           data_size payload).
Qed.

Lemma parseWav_reads_header_witness :
  wav_lib.parseWav (wav_header 36 1 2 44100 176400 4 16 0 ++ [])
  = Normal (Some {| wav_lib.sampleRate := 44100; wav_lib.channels := 2;
                    wav_lib.bitsPerSample := 16; wav_lib.pcmData := [] |}).
Proof.
  apply parseWav_reads_header; reflexivity.
Defined.


(** ** index.js: what the upstream listeners leave alone *)

Section Respects.
Context {S : Type} (R : S -> S -> Prop) (ok : Call -> bool).
Hypothesis R_refl : forall s, R s s.
Hypothesis R_trans : forall s1 s2 s3, R s1 s2 -> R s2 s3 -> R s1 s3.

Lemma respects_ret {A} (a : A) : respects R ok (ret a).
Proof. intros s. split; [apply R_refl | reflexivity]. Qed.

Lemma respects_lift {A} (c : completion A) : respects R ok (lift c).
Proof. intros s. split; [apply R_refl | reflexivity]. Qed.

Lemma respects_throw {A} (e : Exn) : respects R ok (@throw S A e).
Proof. intros s. split; [apply R_refl | reflexivity]. Qed.

Lemma respects_emit (c : Call) : ok c = true -> respects R ok (emit c).
Proof. intros H s. split; [apply R_refl | cbn; rewrite H; reflexivity]. Qed.

Lemma respects_read : respects R ok (@read S).
Proof. intros s. split; [apply R_refl | reflexivity]. Qed.

Lemma respects_modify (f : S -> S) :
  (forall s, R s (f s)) -> respects R ok (modify f).
Proof. intros H s. split; [apply H | reflexivity]. Qed.

Lemma respects_bind {A B} (m : M S A) (k : A -> M S B) :
  respects R ok m -> (forall a, respects R ok (k a)) -> respects R ok (bind m k).
Proof.
  intros Hm Hk s. unfold bind. specialize (Hm s).
  destruct (m s) as [[[a|e] s1] t1]; cbn in Hm |- *; [|exact Hm].
  specialize (Hk a s1). destruct (k a s1) as [[r s2] t2]. cbn in Hk |- *.
  split; [exact (R_trans (proj1 Hm) (proj1 Hk))|].
  rewrite forallb_app, (proj2 Hm), (proj2 Hk). reflexivity.
Qed.

Lemma respects_try_catch {A} (body : M S A) (handler : Exn -> M S A) :
  respects R ok body -> (forall e, respects R ok (handler e)) ->
  respects R ok (try_catch body handler).
Proof.
  intros Hm Hk s. unfold try_catch. specialize (Hm s).
  destruct (body s) as [[[a|e] s1] t1]; cbn in Hm |- *; [exact Hm|].
  specialize (Hk e s1). destruct (handler e s1) as [[r s2] t2]. cbn in Hk |- *.
  split; [exact (R_trans (proj1 Hm) (proj1 Hk))|].
  rewrite forallb_app, (proj2 Hm), (proj2 Hk). reflexivity.
Qed.

Lemma respects_when (b : bool) (m : M S unit) :
  respects R ok m -> respects R ok (when b m).
Proof. intros H. destruct b; [exact H | apply respects_ret]. Qed.


(** A [try] whose [catch] block only logs never throws. *)
Lemma logged_try_respects (body : M S unit) (c : Call) :
  ok c = true ->
  respects R ok body ->
  forall s, exists s' t,
    try_catch body (fun _ => emit c) s = (Normal tt, s', t)
    /\ R s s' /\ forallb ok t = true.
Proof.
  intros Hc Hbody s.
  pose proof (@respects_try_catch unit body (fun _ => emit c) Hbody
                (fun _ => respects_emit Hc) s) as H.
  unfold try_catch in H |- *.
  destruct (body s) as [[[[]|e] s1] t1]; cbn in H |- *;
    do 2 eexists; (split; [reflexivity | exact H]).
Qed.

End Respects.

Section UpstreamContained.
Context {platform : Platform}.
Import JSON Js index_js.

Lemma same_connection_refl (s : Session) : same_connection s s.
Proof. destruct s; reflexivity. Qed.

Lemma same_connection_trans (s1 s2 s3 : Session) :
  same_connection s1 s2 -> same_connection s2 s3 -> same_connection s1 s3.
Proof.
  unfold same_connection. intros H12 H23. rewrite H23, H12.
  destruct s1; reflexivity.
Qed.

Lemma same_connection_awaiting (l : list JsVal) (s : Session) :
  same_connection s (set_awaiting l s).
Proof. destruct s; reflexivity. Qed.

Lemma dispatch_ws_message {A} (P : A -> Prop) (type : JsVal)
    (audio interruption user assistant tool other : A) :
  P audio -> P interruption -> P user -> P assistant -> P tool -> P other ->
  P (match type with
     | Some (Str "audio_output") => audio
     | Some (Str "user_interruption") => interruption
     | Some (Str "user_message") => user
     | Some (Str "assistant_message") => assistant
     | Some (Str "tool_call") => tool
     | _ => other
     end).
Proof.
  intros Ha Hi Hu Hs Ht Ho.
  destruct type as [[ | | | text | | ]|]; try exact Ho.
  repeat match goal with
         | |- context [match ?x with _ => _ end] =>
             is_var x; destruct x; try assumption
         end.
Qed.

Ltac contained_with leaf :=
  repeat first
    [ leaf
    | apply (@respects_bind _ same_connection keeps_connections
               same_connection_trans); [|intro]
    | apply (@respects_try_catch _ same_connection keeps_connections
               same_connection_trans); [|intro]
    | apply (@respects_lift _ same_connection keeps_connections
               same_connection_refl)
    | apply (@respects_ret _ same_connection keeps_connections
               same_connection_refl)
    | apply (@respects_throw _ same_connection keeps_connections
               same_connection_refl)
    | apply (@respects_read _ same_connection keeps_connections
               same_connection_refl)
    | apply (@respects_emit _ same_connection keeps_connections
               same_connection_refl); reflexivity
    | apply (@respects_modify _ same_connection keeps_connections);
        intro; apply same_connection_awaiting
    | apply (@respects_when _ same_connection keeps_connections
               same_connection_refl) ].

Ltac contained := contained_with fail.

Lemma socket_send_contained (p : Peer) (data : string) :
  respects same_connection keeps_connections (socket_send p data).
Proof.
  unfold socket_send. contained.
  match goal with |- context [state_of p ?x] => destruct (state_of p x) end;
    contained.
Qed.

Lemma ws_send_contained (data : string) :
  respects same_connection keeps_connections (ws_send data).
Proof.
  unfold ws_send. contained.
  match goal with |- context [ws ?x] => destruct (ws x) end;
    [apply socket_send_contained | contained].
Qed.

Ltac sends := first [apply ws_send_contained | apply socket_send_contained].

Lemma tool_failed_contained (message : JsVal) (error : Thrown) :
  respects same_connection keeps_connections (tool_failed message error).
Proof. unfold tool_failed. contained_with sends. Qed.

Lemma tool_call_contained (message : JsVal) :
  respects same_connection keeps_connections (tool_call message).
Proof.
  unfold tool_call. contained_with sends.
  match goal with |- context [if ?b then _ else _] => destruct b end;
    contained_with ltac:(first [sends | apply tool_failed_contained]).
Qed.

Lemma tool_settled_body_contained (message : JsVal) (result : Settlement) :
  respects same_connection keeps_connections
    (match result with
     | Resolved content =>
         try_catch
           (emit (console_log "Tool response:") ;;;
            tool_call_id <- lift (get "tool_call_id" message) ;;
            ws_send (stringify (tool_response tool_call_id (JSON_stringify content))))
           (fun error => tool_failed message (thrown_of error))
     | Rejected error => tool_failed message error
     end).
Proof.
  destruct result as [content|error]; [|apply tool_failed_contained].
  contained_with ltac:(first [sends | apply tool_failed_contained]).
Qed.

Lemma on_ws_message_body_contained (data : string) :
  respects same_connection keeps_connections
    (parsed <- lift (JSON_parse data) ;;
     let message : JsVal := Some parsed in
     type <- lift (get "type" message) ;;
     match type with
     | Some (Str "audio_output") =>
         payload <- lift (get "data" message) ;;
         audioChunk <- lift (Buffer_from_base64 payload) ;;
         converted <- lift (convertProviderTo8k audioChunk) ;;
         clientWs_send (object [("type", str "audio");
                                ("audio", str (base64 converted))])
     | Some (Str "user_interruption") =>
         emit (console_log "User interruption") ;;;
         clientWs_send (object [("type", str "interruption")])
     | Some (Str "user_message") =>
         inner <- lift (get "message" message) ;;
         content <- lift (get "content" inner) ;;
         emit (console_log "User message:") ;;;
         clientWs_send (object [("type", str "transcript"); ("role", str "user");
                                ("text", content)])
     | Some (Str "assistant_message") =>
         inner <- lift (get "message" message) ;;
         content <- lift (get "content" inner) ;;
         emit (console_log "Assistant message:") ;;;
         clientWs_send (object [("type", str "transcript"); ("role", str "agent");
                                ("text", content)])
     | Some (Str "tool_call") => tool_call message
     | _ => emit (console_log "Unknown message type from HumeAI:")
     end).
Proof.
  contained. cbv zeta. contained.
  apply dispatch_ws_message; unfold clientWs_send;
    contained_with ltac:(first [sends | apply tool_call_contained]).
Qed.

Lemma ws_message_contained (k : nat) (data : string) (s : Session) :
  exists s' t,
    step (ws_message k data) s = (Normal tt, s', t)
    /\ same_connection s s' /\ forallb keeps_connections t = true.
Proof.
  cbn [step]. unfold on_ws_message, parse_error.
  apply (@logged_try_respects _ same_connection keeps_connections
           same_connection_refl same_connection_trans);
    [reflexivity | apply on_ws_message_body_contained].
Qed.

Lemma handler_settled_contained (i : nat) (result : Settlement) (s : Session) :
  exists s' t,
    step (handler_settled i result) s = (Normal tt, s', t)
    /\ same_connection s s' /\ forallb keeps_connections t = true.
Proof.
  cbn [step]. rewrite bind_read.
  destruct (nth_error (awaiting s) i) as [message|].
  - rewrite bind_modify. unfold tool_settled, parse_error.
    destruct (@logged_try_respects _ same_connection keeps_connections
                same_connection_refl same_connection_trans _
                (console_error "Error parsing HumeAI message:") eq_refl
                (tool_settled_body_contained message result)
                (set_awaiting (remove_nth i (awaiting s)) s))
      as (s' & t & Hrun & Hsame & Hcalls).
    exists s', t. split; [exact Hrun|]. split; [|exact Hcalls].
    exact (same_connection_trans (same_connection_awaiting _ s) Hsame).
  - exists s, []. split; [reflexivity|].
    split; [apply same_connection_refl | reflexivity].
Qed.

(** X9.  Nothing that arrives from the upstream side can bring the
    session down: the message listener of the upstream socket, and the
    continuation that runs when an awaited tool handler settles, never
    throw, never close a socket, never open a connection, and leave the
    session id, the upstream handle, the audio queue and both sockets'
    states as they were, for every message text and every state of the
    session. *)
Theorem upstream_traffic_is_contained :
  (forall (k : nat) (data : string) (s : Session),
     exists s' t,
       step (ws_message k data) s = (Normal tt, s', t)
       /\ same_connection s s' /\ forallb keeps_connections t = true)
  /\ (forall (i : nat) (result : Settlement) (s : Session),
        exists s' t,
          step (handler_settled i result) s = (Normal tt, s', t)
          /\ same_connection s s' /\ forallb keeps_connections t = true).
Proof.
  split; [exact ws_message_contained | exact handler_settled_contained].
Qed.

End UpstreamContained.

(** ** index.js: teardown and the queue invariant *)

Section QueueInvariant.
Context {platform : Platform}.
Import JSON Js index_js.

Lemma bind_thrown {S A B} (m : M S A) (k : A -> M S B) (s s1 : S) (e : Exn)
    (t1 : list Call) :
  m s = (Throw e, s1, t1) -> bind m k s = (Throw e, s1, t1).
Proof. intros H. unfold bind. rewrite H. reflexivity. Qed.

Lemma bind_inv {S A B} (m : M S A) (k : A -> M S B) (s s' : S) (b : B)
    (t : list Call) :
  bind m k s = (Normal b, s', t) ->
  exists a s1 t1 t2,
    m s = (Normal a, s1, t1) /\ k a s1 = (Normal b, s', t2) /\ t = t1 ++ t2.
Proof.
  unfold bind. destruct (m s) as [[[a|e] s1] t1]; [|discriminate].
  destruct (k a s1) as [[r s2] t2] eqn:Ek. intros [= -> <- <-].
  exists a, s1, t1, t2. split; [reflexivity|]. split; [exact Ek | reflexivity].
Qed.

Lemma socket_send_state (p : Peer) (data : string) (s : Session) :
  snd (fst (socket_send p data s)) = s.
Proof.
  unfold socket_send. rewrite bind_read, bind_emit.
  destruct (state_of p s); reflexivity.
Qed.

Lemma ws_send_state (data : string) (s : Session) :
  snd (fst (ws_send data s)) = s.
Proof.
  unfold ws_send. rewrite bind_read.
  destruct (ws s); [apply socket_send_state | reflexivity].
Qed.

Lemma nth_set_nth {A} (l : list A) (j k : nat) (x d : A) :
  nth j (set_nth l k x) d
  = if (j =? k) && (k <? List.length l) then x else nth j l d.
Proof.
  unfold set_nth. revert j k; induction l as [|y l IH]; intros j k.
  - destruct k; destruct j; simpl; rewrite ?andb_false_r; reflexivity.
  - destruct k as [|k]; destruct j as [|j]; simpl; try reflexivity.
    rewrite IH. reflexivity.
Qed.

(** [cleanup], whatever the session: it returns, forgets the upstream
    handle and the queue, and leaves no socket of the session open. *)
Lemma cleanup_post (s : Session) :
  exists s' t,
    cleanup s = (Normal tt, s', t)
    /\ ws s' = None /\ audioBuffer s' = []
    /\ is_open (clientWs s') = false
    /\ (forall k, ws s = Some k ->
                  state_of (Upstream k) s' <> OPEN
                  /\ state_of (Upstream k) s' <> CONNECTING)
    /\ forallb (fun c => negb (is_send c)) t = true.
Proof.
  destruct s as [uuid w queue client socks waiting].
  destruct w as [k|].
  - assert (Hclosing : nth k (set_nth socks k CLOSING) CLOSED <> OPEN
                       /\ nth k (set_nth socks k CLOSING) CLOSED <> CONNECTING).
    { rewrite nth_set_nth, Nat.eqb_refl. cbn [andb].
      destruct (k <? List.length socks) eqn:Hin; [split; discriminate|].
      apply Nat.ltb_ge in Hin. rewrite nth_overflow by exact Hin.
      split; discriminate. }
    destruct (nth k socks CLOSED) eqn:Hk; destruct client;
      do 2 eexists;
      (split;
       [ cbv [cleanup try_catch socket_close bind read emit modify ret when];
         cbn; rewrite ?Hk; cbn; reflexivity |]);
      (split; [reflexivity|]); (split; [reflexivity|]);
      (split; [reflexivity|]);
      (split; [|reflexivity]);
      intros j Hj; cbn in Hj; injection Hj as <-; cbn;
      first [ exact Hclosing | rewrite Hk; split; discriminate ].
  - destruct client;
      do 2 eexists; (split; [reflexivity|]);
      (split; [reflexivity|]); (split; [reflexivity|]);
      (split; [reflexivity|]); (split; [|reflexivity]);
      intros j Hj; discriminate Hj.
Qed.

Lemma teardown_post (ev : Event) (s : Session) :
  tears_down ev = true ->
  exists s' t,
    step ev s = (Normal tt, s', t)
    /\ ws s' = None /\ audioBuffer s' = []
    /\ is_open (clientWs s') = false
    /\ (forall k, ws s = Some k ->
                  state_of (Upstream k) s' <> OPEN
                  /\ state_of (Upstream k) s' <> CONNECTING)
    /\ forallb (fun c => negb (is_send c)) t = true.
Proof.
  intros Hev.
  assert (Hstep : exists s0 c,
            step ev s = (modify (fun _ => s0) ;;; emit c ;;; cleanup) s
            /\ ws s0 = ws s /\ is_send c = false).
  { destruct ev; try discriminate Hev.
    - exists (set_state Client CLOSED s), (console_log "Client WebSocket connection closed").
      split; [reflexivity|]. split; [destruct s; reflexivity | reflexivity].
    - exists (set_state Client CLOSING s), (console_error "Client WebSocket error:").
      split; [reflexivity|]. split; [destruct s; reflexivity | reflexivity].
    - exists (set_state (Upstream k) CLOSED s),
             (console_log "HumeAI WebSocket connection closed").
      split; [reflexivity|]. split; [destruct s; reflexivity | reflexivity]. }
  destruct Hstep as (s0 & c & -> & Hws & Hc).
  rewrite bind_modify, bind_emit.
  destruct (cleanup_post s0) as (s' & t & -> & Hnone & Hqueue & Hclient & Hup & Hsend).
  exists s', (c :: t). split; [reflexivity|].
  split; [exact Hnone|]. split; [exact Hqueue|]. split; [exact Hclient|].
  split; [intros k Hk; apply Hup; congruence|].
  cbn [forallb]. rewrite Hc, Hsend. reflexivity.
Qed.

(** X10.  Every teardown event (the client socket closes or fails, or
    the upstream socket closes) is handled without an exception, in
    every state of the session, and leaves a session that holds no
    upstream handle and no queued audio, whose client socket is not
    open, and whose former upstream socket is neither open nor
    connecting; nothing is sent on any socket while tearing down. *)
Theorem teardown_releases_session (ev : Event) (s : Session) :
  tears_down ev = true ->
  exists s' t,
    step ev s = (Normal tt, s', t)
    /\ ws s' = None /\ audioBuffer s' = []
    /\ is_open (clientWs s') = false
    /\ (forall k, ws s = Some k ->
                  state_of (Upstream k) s' <> OPEN
                  /\ state_of (Upstream k) s' <> CONNECTING)
    /\ forallb (fun c => negb (is_send c)) t = true.
Proof.
  exact (teardown_post ev s).
Qed.

Lemma dispatch_client_message {A} (P : A -> Prop) (type : JsVal)
    (init audio other : A) :
  P init -> P audio -> P other ->
  P (match type with
     | Some (Str "init") => init
     | Some (Str "audio") => audio
     | _ => other
     end).
Proof.
  intros Hi Ha Ho.
  destruct type as [[ | | | text | | ]|]; try exact Ho.
  repeat match goal with
         | |- context [match ?x with _ => _ end] =>
             is_var x; destruct x; try assumption
         end.
Qed.

Lemma upstream_open_set_state (k : nat) (r : ReadyState) (s : Session) :
  r <> OPEN ->
  upstream_open (set_state (Upstream k) r s) = true -> upstream_open s = true.
Proof.
  intros Hr. destruct s as [uuid w queue client socks waiting].
  unfold upstream_open. cbn. destruct w as [j|]; [|trivial].
  rewrite nth_set_nth.
  destruct ((j =? k) && (k <? List.length socks)); [|trivial].
  destruct r; try discriminate. congruence.
Qed.

Lemma drained_refl (s : Session) : keeps_drained s s.
Proof. unfold keeps_drained. trivial. Qed.

Lemma drained_trans (s1 s2 s3 : Session) :
  keeps_drained s1 s2 -> keeps_drained s2 s3 -> keeps_drained s1 s3.
Proof. unfold keeps_drained. auto. Qed.

Ltac drained_with leaf :=
  repeat first
    [ leaf
    | apply (@respects_bind _ keeps_drained any_call drained_trans); [|intro]
    | apply (@respects_try_catch _ keeps_drained any_call drained_trans); [|intro]
    | apply (@respects_lift _ keeps_drained any_call drained_refl)
    | apply (@respects_ret _ keeps_drained any_call drained_refl)
    | apply (@respects_throw _ keeps_drained any_call drained_refl)
    | apply (@respects_read _ keeps_drained any_call drained_refl)
    | apply (@respects_emit _ keeps_drained any_call drained_refl); reflexivity
    | apply (@respects_when _ keeps_drained any_call drained_refl) ].

Lemma any_call_all (t : list Call) : forallb any_call t = true.
Proof. induction t as [|c t IH]; [reflexivity | exact IH]. Qed.

Lemma socket_send_drained (p : Peer) (data : string) :
  respects keeps_drained any_call
           (socket_send p data).
Proof.
  intros s. rewrite socket_send_state.
  split; [apply drained_refl | apply any_call_all].
Qed.

Lemma ws_send_drained (data : string) :
  respects keeps_drained any_call
           (ws_send data).
Proof.
  intros s. unfold ws_send. rewrite bind_read.
  destruct (ws s);
    [apply socket_send_drained | split; [apply drained_refl | reflexivity]].
Qed.

Lemma initializeHumeAIConnection_drained :
  respects keeps_drained any_call
           initializeHumeAIConnection.
Proof.
  unfold initializeHumeAIConnection, clientWs_send.
  drained_with ltac:(apply socket_send_drained).
  match goal with |- context [if ?b then _ else _] => destruct b end;
    drained_with fail.
  apply (@respects_modify _ keeps_drained any_call). intros s _ Hopen. exfalso.
  destruct s as [uuid w queue client socks waiting].
  unfold upstream_open in Hopen. cbn in Hopen.
  rewrite app_nth2, Nat.sub_diag in Hopen by lia. discriminate Hopen.
Qed.

Lemma audio_case_drained (audioBase64 : JsVal) (chunk : value) :
  respects keeps_drained any_call
    (when (truthy audioBase64)
       (s <- read ;;
        match ws s with
        | Some k =>
            if is_open (state_of (Upstream k) s)
            then ws_send (stringify (audio_input audioBase64 (sessionUuid s)))
            else modify (set_audioBuffer (audioBuffer s ++ [chunk]))
        | None => modify (set_audioBuffer (audioBuffer s ++ [chunk]))
        end)).
Proof.
  apply (@respects_when _ keeps_drained any_call drained_refl).
  intros s. rewrite bind_read.
  destruct (ws s) as [k|] eqn:Hws.
  - destruct (is_open (state_of (Upstream k) s)) eqn:Hopen.
    + apply ws_send_drained.
    + split; [|reflexivity]. cbn. intros _ Hnow. exfalso.
      destruct s as [uuid w queue client socks waiting].
      unfold upstream_open in Hnow. cbn in Hws, Hopen, Hnow. subst w.
      rewrite Hopen in Hnow. discriminate Hnow.
  - split; [|reflexivity]. cbn. intros _ Hnow. exfalso.
    destruct s as [uuid w queue client socks waiting].
    unfold upstream_open in Hnow. cbn in Hws, Hnow. subst w. discriminate Hnow.
Qed.

Lemma on_client_message_drained (data : string) :
  respects keeps_drained any_call
           (on_client_message data).
Proof.
  unfold on_client_message. drained_with fail. cbv zeta. drained_with fail.
  apply dispatch_client_message.
  - drained_with ltac:(apply initializeHumeAIConnection_drained).
  - drained_with fail.
    match goal with |- context [match ?x with Some _ => _ | None => _ end] =>
      destruct x end; [apply audio_case_drained | drained_with fail].
  - drained_with fail.
Qed.

Lemma on_ws_open_drains (s s' : Session) (t : list Call) :
  on_ws_open s = (Normal tt, s', t) -> audioBuffer s' = [].
Proof.
  unfold on_ws_open. intros H.
  apply bind_inv in H as ([] & s0 & t0 & t0' & Hlog & H & _).
  injection Hlog as <- _.
  rewrite bind_read in H.
  apply bind_inv in H as ([] & s1 & t1 & t2 & Hflush & Hsend & _).
  rewrite bind_read in Hsend.
  pose proof (ws_send_state
                (stringify (assistant_input (sessionUuid s1) HUMEAI_WELCOME_MESSAGE))
                s1) as Hstate.
  rewrite Hsend in Hstate. cbn in Hstate. subst s1.
  destruct (0 <? List.length (audioBuffer s)) eqn:Hlen; cbn [when] in Hflush.
  - apply bind_inv in Hflush as ([] & s2 & t3 & t4 & Hlog & Hflush & _).
    apply bind_inv in Hflush as ([] & s3 & t5 & t6 & _ & Hclear & _).
    injection Hclear as <- _. reflexivity.
  - injection Hflush as <- _. apply Nat.ltb_ge in Hlen.
    destruct (audioBuffer s); [reflexivity | cbn in Hlen; lia].
Qed.

Lemma step_keeps_drained (ev : Event) (s s' : Session) (t : list Call) :
  step ev s = (Normal tt, s', t) -> queue_drained s -> queue_drained s'.
Proof.
  intros Hstep Hs.
  destruct (tears_down ev) eqn:Htear.
  { destruct (teardown_post ev s Htear) as (s1 & t1 & Hrun & _ & Hqueue & _).
    rewrite Hrun in Hstep. injection Hstep as <- _. intros _. exact Hqueue. }
  destruct ev; try discriminate Htear.
  - pose proof (on_client_message_drained data s) as [H _].
    cbn [step] in Hstep. rewrite Hstep in H. exact (H Hs).
  - cbn [step] in Hstep. rewrite bind_modify in Hstep.
    intros _. exact (on_ws_open_drains _ Hstep).
  - destruct (ws_message_contained k data s) as (s1 & t1 & Hrun & Hsame & _).
    rewrite Hrun in Hstep. injection Hstep as <- _.
    rewrite Hsame. destruct s; exact Hs.
  - cbn [step] in Hstep. rewrite bind_modify in Hstep.
    unfold on_ws_error in Hstep. rewrite bind_emit in Hstep.
    pose proof (socket_send_state Client
                  (stringify (object [("type", str "error");
                                      ("message", str "Connection error with HumeAI API")]))
                  (set_state (Upstream k) CLOSING s)) as Hstate.
    unfold clientWs_send in Hstep.
    destruct (socket_send _ _ _) as [[r1 s1] t1]. cbn in Hstate. subst s1.
    injection Hstep as _ <- _.
    intros Hopen. apply upstream_open_set_state in Hopen; [|discriminate].
    specialize (Hs Hopen). destruct s; exact Hs.
  - destruct (handler_settled_contained i result s) as (s1 & t1 & Hrun & Hsame & _).
    rewrite Hrun in Hstep. injection Hstep as <- _.
    rewrite Hsame. destruct s; exact Hs.
Qed.

Lemma run_keeps_drained (evs : list Event) (s s' : Session) (t : list Call) :
  run evs s = (None, s', t) -> queue_drained s -> queue_drained s'.
Proof.
  revert s t; induction evs as [|ev evs IH]; intros s t.
  - intros [= <- _]. trivial.
  - cbn [run]. destruct (step ev s) as [[[[]|e] s1] t1] eqn:Hstep; [|discriminate].
    destruct (run evs s1) as [[r s2] t2] eqn:Hrun. intros [= -> -> _] Hs.
    exact (IH _ _ Hrun (step_keeps_drained _ Hstep Hs)).
Qed.

(** X11.  In every session of index.js, after any sequence of events
    that no listener has left with an exception, the audio queue is
    empty whenever the upstream socket held by the session is open: a
    frame is queued only while the upstream is not open, and the queue
    is emptied by the very listener that sees it open, so no later
    frame can overtake a queued one. *)
Theorem queue_is_drained_while_open (evs : list Event) (s : Session)
    (t : list Call) :
  run evs new_session = (None, s, t) ->
  upstream_open s = true ->
  audioBuffer s = [].
Proof.
  intros Hrun. apply (run_keeps_drained _ Hrun). intros _. reflexivity.
Qed.

End QueueInvariant.

Lemma teardown_releases_session_witness :
  exists s' t,
    index_js.step (platform := Sample.platform) index_js.client_error Sample.ready
    = (Normal tt, s', t)
    /\ index_js.ws s' = None /\ index_js.audioBuffer s' = []
    /\ is_open (index_js.clientWs s') = false
    /\ (forall k, index_js.ws Sample.ready = Some k ->
                  index_js.state_of (Upstream k) s' <> OPEN
                  /\ index_js.state_of (Upstream k) s' <> CONNECTING)
    /\ forallb (fun c => negb (is_send c)) t = true.
Proof.
  exact (@teardown_releases_session Sample.platform index_js.client_error
           Sample.ready eq_refl).
Defined.

Lemma queue_is_drained_while_open_witness :
  exists s t,
    index_js.run (platform := Sample.platform)
      (map index_js.client_message Sample.traffic
       ++ [index_js.client_message Sample.init_a; index_js.ws_open 0]
       ++ map index_js.client_message Sample.traffic)
      index_js.new_session = (None, s, t)
    /\ upstream_open s = true
    /\ index_js.audioBuffer s = [].
Proof.
  do 2 eexists. split; [vm_compute; reflexivity|].
  split; [reflexivity|].
  eapply (@queue_is_drained_while_open Sample.platform
            (map index_js.client_message Sample.traffic
             ++ [index_js.client_message Sample.init_a; index_js.ws_open 0]
             ++ map index_js.client_message Sample.traffic));
    [vm_compute; reflexivity | reflexivity].
Defined.

(** ** index.js: what is relayed, and to whom *)

Section Relaying.
Context {platform : Platform}.
Import JSON Js index_js.

Lemma audio_is_forwarded (s : Session) (k : nat) (data : string)
    (payload : option string) :
  ws s = Some k ->
  state_of (Upstream k) s = OPEN ->
  audio_message_of data payload ->
  step (client_message data) s
  = (Normal tt, s,
     map (fun a => send (Upstream k) OPEN
                     (stringify (audio_input (str a) (sessionUuid s))))
         (frames_of [payload])).
Proof.
  intros Hws Hopen (parsed & Hparse & Htype & Haudio).
  cbn [step]. unfold on_client_message.
  rewrite (bind_lift_Normal _ _ Hparse).
  rewrite (bind_lift_Normal _ _ Htype). cbv beta iota delta [str].
  rewrite (bind_lift_Normal _ _ Haudio).
  destruct payload as [a|]; cbn [option_map frames_of flat_map]; [|reflexivity].
  cbn [truthy]. destruct (String.eqb a EmptyString) eqn:Ea; cbn [negb when];
    [reflexivity|].
  rewrite bind_read, Hws, Hopen. cbn [is_open].
  unfold ws_send, socket_send. rewrite bind_read, Hws, bind_read, bind_emit, Hopen.
  reflexivity.
Qed.

Lemma audio_forwarded_run (s : Session) (k : nat)
    (ds : list string) (payloads : list (option string)) :
  ws s = Some k ->
  state_of (Upstream k) s = OPEN ->
  Forall2 audio_message_of ds payloads ->
  run (map client_message ds) s
  = (None, s,
     map (fun a => send (Upstream k) OPEN
                     (stringify (audio_input (str a) (sessionUuid s))))
         (frames_of payloads)).
Proof.
  intros Hws Hopen Hall.
  induction Hall as [|d p ds ps Hd Hall IH]; [reflexivity|].
  cbn [map]. erewrite run_cons by (apply audio_is_forwarded; eassumption).
  rewrite IH. rewrite (frames_of_cons p ps), !map_app. reflexivity.
Qed.

(** X12.  While the upstream socket of the session is open, every audio
    message of the client with a string payload is forwarded at once: a
    run of audio messages puts one [audio_input] frame per non-empty
    payload on the upstream socket, in the order of arrival, with the
    payload text as its [data] and the session id attached; nothing is
    queued and the session is left as it was. *)
Theorem audio_is_forwarded_in_order (s : Session) (k : nat)
    (ds : list string) (payloads : list (option string)) :
  ws s = Some k ->
  state_of (Upstream k) s = OPEN ->
  Forall2 audio_message_of ds payloads ->
  let frames := map (fun a =>
                       stringify (object [("data", str a);
                                          ("type", str "audio_input");
                                          ("custom_session_id", sessionUuid s)]))
                    (frames_of payloads) in
  run (map client_message ds) s
  = (None, s, map (send (Upstream k) OPEN) frames)
  /\ delivered to_upstream (map (send (Upstream k) OPEN) frames) = frames.
Proof.
  intros Hws Hopen Hall frames. split.
  - subst frames. rewrite map_map.
    exact (@audio_forwarded_run s k ds payloads Hws Hopen Hall).
  - pose proof (delivered_sends k (fun f => f) frames []) as H.
    rewrite app_nil_r, map_id in H. cbn in H. rewrite app_nil_r in H. exact H.
Qed.


(** X14.  A [tool_call] for a registered tool whose [parameters] text
    is no JSON never reaches the handler: it is answered on the open
    upstream socket with one [tool_response] that carries the call id
    and the parser's message as the error, nothing is awaited, and the
    session is left as it was. *)
Theorem unparseable_parameters_are_answered
    (s : Session) (k : nat) (data name parameters : string)
    (tool_call_id message : JsVal) (failure : Exn) :
  ws s = Some k ->
  state_of (Upstream k) s = OPEN ->
  tool_call_of data name tool_call_id message ->
  getToolHandler (str name) = true ->
  get "parameters" message = Normal (str parameters) ->
  JSON_parse parameters = Throw failure ->
  let content := stringify (Obj [("error", Str ("Error executing tool " +++ name
                                                +++ ": " +++ message_of failure))]) in
  let answer := stringify (object [("type", str "tool_response");
                                   ("tool_call_id", tool_call_id);
                                   ("content", str content)]) in
  step (ws_message k data) s
  = (Normal tt, s,
     [console_log "Tool call:";
      console_error ("Error executing tool " +++ name +++ ":");
      send (Upstream k) OPEN answer]).
Proof.
  intros Hws Hopen (parsed & -> & Hparse & Htype & Hname & Hid) Hsome Hpar Hpp
         content answer.
  cbn [step]. unfold on_ws_message, try_catch.
  rewrite (bind_lift_Normal _ _ Hparse).
  rewrite (bind_lift_Normal _ _ Htype). cbv beta iota delta [str].
  unfold tool_call. rewrite bind_emit.
  rewrite (bind_lift_Normal _ _ Hname). rewrite Hsome. cbn [negb].
  unfold try_catch. rewrite bind_read.
  rewrite (bind_lift_Normal _ _ Hpar).
  rewrite (bind_lift_Normal (c := ToString (str parameters)) (a := parameters))
    by reflexivity.
  rewrite (bind_lift_Throw _ _ Hpp).
  unfold tool_failed.
  rewrite (bind_lift_Normal _ _ Hname).
  rewrite (bind_lift_Normal (c := ToString (str name)) (a := name)) by reflexivity.
  rewrite bind_emit.
  rewrite (bind_lift_Normal _ _ Hid).
  rewrite (bind_lift_Normal (c := message_property (thrown_of failure))
             (a := str (message_of failure))) by reflexivity.
  rewrite (bind_lift_Normal (c := ToString (str (message_of failure)))
             (a := message_of failure)) by reflexivity.
  unfold ws_send, socket_send.
  rewrite !bind_read, Hws, bind_read, bind_emit, Hopen.
  reflexivity.
Qed.

(** X15.  A tool handler that settles after the session was torn down
    (the upstream handle is [null]) is not answered: whatever the
    awaited message and however the handler ended, nothing is sent on
    any socket and no exception leaves the continuation; the failed
    [ws.send] is logged as a parse error and the call is no longer
    awaited. *)
Theorem late_tool_result_is_dropped
    (s : Session) (i : nat) (message : JsVal) (result : Settlement) :
  ws s = None ->
  nth_error (awaiting s) i = Some message ->
  exists t,
    step (handler_settled i result) s
    = (Normal tt, set_awaiting (remove_nth i (awaiting s)) s,
       t ++ [console_error "Error parsing HumeAI message:"])
    /\ forallb (fun c => negb (is_send c)) t = true.
Proof.
  intros Hws Hnth. cbn [step]. rewrite bind_read, Hnth, bind_modify.
  destruct s as [uuid w queue client socks waiting]. cbn in Hws. subst w.
  cbn [awaiting].
  unfold tool_settled, tool_failed, ws_send, try_catch, bind, lift, emit, read,
    throw, parse_error.
  cbn [ws set_awaiting].
  destruct result as [content|error];
    destruct (get "name" message) as [name|e1];
    try destruct (ToString name) as [text|e2];
    destruct (get "tool_call_id" message) as [id|e3];
    try destruct (message_property error) as [error_message|e4];
    try destruct (message_property (thrown_of _)) as [error_message|e4];
    try destruct (ToString error_message) as [error_text|e5];
    cbn; eexists;
    (split; [ rewrite ?app_nil_r; try reflexivity;
              match goal with
              | |- (_, _, ?l) = (_, _, _ ++ [?c]) =>
                  apply (f_equal (fun t => (Normal tt, _, t)));
                  first [ exact (eq_refl : [c] = [] ++ [c])
                        | exact (eq_refl : [_; c] = [_] ++ [c])
                        | exact (eq_refl : [_; _; c] = [_; _] ++ [c]) ]
              end
            | reflexivity ]).
Qed.

(** X16.  When the connection to the upstream cannot be set up (the
    session id has no string conversion, or [new WebSocket] refuses the
    URL built from it), the [init] message is answered on the client
    socket with one error envelope; the session keeps the new id, and
    its upstream handle, queue and sockets are as before. *)
Theorem dial_failure_is_reported (s : Session) (data : string) (uuid : JsVal) :
  clientWs s <> CONNECTING ->
  init_message_of data uuid ->
  (exists e, ToString uuid = Throw e)
  \/ (exists id, ToString uuid = Normal id /\ url_ok id = false) ->
  step (client_message data) s
  = (Normal tt, set_sessionUuid uuid s,
     [console_log "Session UUID:";
      console_error "Failed to initialize HumeAI connection:";
      send Client (clientWs s)
        (stringify (object [("type", str "error");
                            ("message", str "Failed to connect to HumeAI API")]))]).
Proof.
  intros Hclient (parsed & Hparse & Htype & Huuid) Hfail.
  cbn [step]. unfold on_client_message.
  rewrite (bind_lift_Normal _ _ Hparse).
  rewrite (bind_lift_Normal _ _ Htype). cbv beta iota delta [str].
  rewrite (bind_lift_Normal _ _ Huuid).
  rewrite bind_modify, bind_emit.
  unfold initializeHumeAIConnection, try_catch.
  rewrite bind_read. cbn [sessionUuid set_sessionUuid].
  assert (Hsend : (emit (console_error "Failed to initialize HumeAI connection:") ;;;
                   clientWs_send (object [("type", str "error");
                                          ("message", str "Failed to connect to HumeAI API")]))
                    (set_sessionUuid uuid s)
                  = (Normal tt, set_sessionUuid uuid s,
                     [console_error "Failed to initialize HumeAI connection:";
                      send Client (clientWs s)
                        (stringify (object [("type", str "error");
                                            ("message", str "Failed to connect to HumeAI API")]))])).
  { rewrite bind_emit. unfold clientWs_send, socket_send.
    rewrite bind_read, bind_emit.
    destruct s as [u w queue client socks waiting]. cbn in Hclient |- *.
    destruct client; try congruence; reflexivity. }
  destruct Hfail as [[e He] | (id & Hid & Hurl)].
  - rewrite (bind_lift_Throw _ _ He). rewrite Hsend. reflexivity.
  - rewrite (bind_lift_Normal _ _ Hid). rewrite Hurl.
    unfold throw. rewrite Hsend. reflexivity.
Qed.

Lemma flush_stops_at_number (front : list string) (z : Z) (back : list value)
    (s : Session) (k : nat) :
  ws s = Some k ->
  state_of (Upstream k) s = OPEN ->
  forEach (fun chunk =>
             data <- lift (toString_base64 chunk) ;;
             s' <- read ;;
             ws_send (stringify (audio_input (str data) (sessionUuid s'))))
          (map Str front ++ Num z :: back) s
  = (Throw (RangeError "toString() radix must be between 2 and 36"), s,
     map (fun a => send (Upstream k) OPEN
                     (stringify (audio_input (str a) (sessionUuid s)))) front).
Proof.
  intros Hws Hopen. induction front as [|a front IH]; [reflexivity|].
  cbn [map app forEach].
  erewrite bind_result.
  2:{ rewrite (bind_lift_Normal (c := toString_base64 (Str a)) (a := a))
        by reflexivity.
      rewrite bind_read. unfold ws_send, socket_send.
      rewrite bind_read, Hws, bind_read, bind_emit, Hopen. reflexivity. }
  rewrite IH. reflexivity.
Qed.

(** The open listener on a queue that holds a number behind the
    strings [front]: the strings are sent, the conversion of the number
    throws, and the listener is left before the queue is emptied. *)
Lemma open_breaks_at_number (s : Session) (k : nat) (old : ReadyState)
    (front : list string) (z : Z) (back : list value) :
  ws s = Some k ->
  nth_error (sockets s) k = Some old ->
  audioBuffer s = map Str front ++ Num z :: back ->
  step (ws_open k) s
  = (Throw (RangeError "toString() radix must be between 2 and 36"),
     set_state (Upstream k) OPEN s,
     console_log "Connected to HumeAI WebSocket API"
     :: console_log ("Sending " +++ decimal (Z.of_nat (List.length (audioBuffer s)))
                     +++ " buffered audio chunks")
     :: map (fun a => send (Upstream k) OPEN
                        (stringify (audio_input (str a) (sessionUuid s)))) front).
Proof.
  intros Hws Hsock Hqueue.
  destruct s as [uuid w queue client socks waiting].
  cbn in Hws, Hsock, Hqueue. subst w queue.
  assert (Hnow : nth k (set_nth socks k OPEN) CLOSED = OPEN)
    by (eapply state_of_set_nth; exact Hsock).
  set (s1 := {| sessionUuid := uuid; ws := Some k;
                audioBuffer := map Str front ++ Num z :: back;
                clientWs := client; sockets := set_nth socks k OPEN;
                awaiting := waiting |}).
  assert (Hflush := @flush_stops_at_number front z back s1 k eq_refl Hnow).
  cbn [sessionUuid s1] in Hflush.
  cbn [step]. rewrite bind_modify. unfold on_ws_open.
  rewrite bind_emit, bind_read.
  change (set_state (Upstream k) OPEN _) with s1.
  cbn [audioBuffer s1].
  replace (0 <? List.length (map Str front ++ Num z :: back)) with true
    by (symmetry; apply Nat.ltb_lt; rewrite length_app; cbn; lia).
  cbn [when].
  erewrite bind_thrown; [reflexivity|].
  rewrite bind_emit. erewrite bind_thrown by exact Hflush. reflexivity.
Qed.

(** X17.  A payload that is a number is queued like any other truthy
    payload while the upstream is not open, and breaks the flush: when
    the socket opens, the open listener sends the frames queued before
    the number, then [chunk.toString("base64")] throws a RangeError
    that nothing catches; the payloads queued behind the number and the
    welcome message are not sent, and the queue is left as it was. *)
Theorem queued_number_breaks_flush
    (s : Session) (k : nat) (old : ReadyState) (data : string)
    (front : list string) (z : Z)
    (ds : list string) (payloads : list (option string)) :
  ws s = Some k ->
  nth_error (sockets s) k = Some old ->
  old <> OPEN ->
  audioBuffer s = map Str front ->
  (exists parsed,
     JSON_parse data = Normal parsed
     /\ get "type" (Some parsed) = Normal (str "audio")
     /\ get "audio" (Some parsed) = Normal (Some (Num z))) ->
  z <> 0%Z ->
  Forall2 audio_message_of ds payloads ->
  exists text t,
    run (client_message data :: map client_message ds ++ [ws_open k]) s
    = (Some (RangeError text),
       set_state (Upstream k) OPEN
         (set_audioBuffer
            (map Str front ++ Num z :: map Str (frames_of payloads)) s), t)
    /\ delivered to_upstream t
       = map (fun a =>
                stringify (object [("data", str a);
                                   ("type", str "audio_input");
                                   ("custom_session_id", sessionUuid s)]))
             front.
Proof.
  intros Hws Hsock Hold Hqueue (parsed & Hparse & Htype & Haudio) Hz Hall.
  assert (Hstate : state_of (Upstream k) s = old).
  { cbn. apply nth_error_nth. exact Hsock. }
  assert (Hclosed : upstream_open s = false).
  { unfold upstream_open. rewrite Hws, Hstate. destruct old; congruence || reflexivity. }
  assert (Hpush : step (client_message data) s
                  = (Normal tt, set_audioBuffer (map Str front ++ [Num z]) s, [])).
  { cbn [step]. unfold on_client_message.
    rewrite (bind_lift_Normal _ _ Hparse).
    rewrite (bind_lift_Normal _ _ Htype). cbv beta iota delta [str].
    rewrite (bind_lift_Normal _ _ Haudio).
    cbn [truthy]. replace (Z.eqb z 0) with false
      by (symmetry; apply Z.eqb_neq; exact Hz).
    cbn [negb when]. rewrite bind_read, Hws, Hstate, Hqueue.
    destruct old; try congruence; reflexivity. }
  set (s1 := set_audioBuffer (map Str front ++ [Num z]) s) in *.
  assert (Hqueued : run (map client_message ds) s1
                    = (None,
                       set_audioBuffer
                         (map Str front ++ Num z :: map Str (frames_of payloads)) s,
                       [])).
  { erewrite audio_run_is_queued; [| destruct s; exact Hclosed | exact Hall].
    subst s1. destruct s. cbn. rewrite <- app_assoc. reflexivity. }
  set (s2 := set_audioBuffer _ s) in Hqueued.
  pose proof (@open_breaks_at_number s2 k old front z (map Str (frames_of payloads)))
    as Hopen.
  specialize (Hopen ltac:(destruct s; exact Hws) ltac:(destruct s; exact Hsock)
                    ltac:(destruct s; reflexivity)).
  exists "toString() radix must be between 2 and 36". eexists. split.
  - erewrite run_cons by exact Hpush.
    rewrite run_app, Hqueued. cbn [run]. rewrite Hopen. reflexivity.
  - cbn [app]. unfold delivered. cbn [flat_map app].
    replace (sessionUuid s2) with (sessionUuid s) by (destruct s; reflexivity).
    clear. induction front as [|a front IH]; [reflexivity|].
    cbn [map flat_map to_upstream app]. f_equal. exact IH.
Qed.

End Relaying.

Section RelayingExamples.
Import JSON Js index_js.

Lemma audio_is_forwarded_in_order_witness :
  run (platform := Sample.platform) (map client_message Sample.traffic) Sample.ready
  = (None, Sample.ready,
     [send (Upstream 0) OPEN
        (stringify (Obj [("data", Str "AAAA"); ("type", Str "audio_input");
                         ("custom_session_id", Str "call-a")]));
      send (Upstream 0) OPEN
        (stringify (Obj [("data", Str "BBBB"); ("type", Str "audio_input");
                         ("custom_session_id", Str "call-a")]))]).
Proof.
  assert (Hall : Forall2 (audio_message_of (platform := Sample.platform)) Sample.traffic
                   [Some "AAAA"; Some EmptyString; Some "BBBB"]).
  { repeat constructor; eexists; repeat split; reflexivity. }
  exact (proj1 (@audio_is_forwarded_in_order Sample.platform Sample.ready 0
                  Sample.traffic _ eq_refl eq_refl Hall)).
Defined.


Lemma unparseable_parameters_are_answered_witness :
  step (platform := Relay.platform) (ws_message 0 (Sample.text Relay.bad_call))
       Sample.ready
  = (Normal tt, Sample.ready,
     [console_log "Tool call:";
      console_error "Error executing tool get_weather:";
      send (Upstream 0) OPEN
        (stringify
           (Obj [("type", Str "tool_response"); ("tool_call_id", Str "tc-3");
                 ("content",
                  Str (stringify
                         (Obj [("error",
                                Str "Error executing tool get_weather: Unexpected token")])))]))]).
Proof.
  assert (Hcall : tool_call_of (platform := Relay.platform)
                    (Sample.text Relay.bad_call)
                    "get_weather" (str "tc-3") (Some Relay.bad_call)).
  { eexists. repeat split; reflexivity. }
  exact (@unparseable_parameters_are_answered Relay.platform Sample.ready 0
           (Sample.text Relay.bad_call) "get_weather" "{oops"
           (str "tc-3") _ (SyntaxError "Unexpected token")
           eq_refl eq_refl Hcall eq_refl eq_refl eq_refl).
Defined.

Lemma late_tool_result_is_dropped_witness :
  exists t,
    step (platform := Sample.platform) (handler_settled 0 (Resolved (str "sunny")))
         {| sessionUuid := str "call-a"; ws := None; audioBuffer := [];
            clientWs := CLOSED; sockets := [CLOSING];
            awaiting := [Some (Sample.tool_call_message "get_weather" "tc-2" "{}")] |}
    = (Normal tt,
       {| sessionUuid := str "call-a"; ws := None; audioBuffer := [];
          clientWs := CLOSED; sockets := [CLOSING]; awaiting := [] |},
       t ++ [console_error "Error parsing HumeAI message:"])
    /\ forallb (fun c => negb (is_send c)) t = true.
Proof.
  exact (@late_tool_result_is_dropped Sample.platform
           {| sessionUuid := str "call-a"; ws := None; audioBuffer := [];
              clientWs := CLOSED; sockets := [CLOSING];
              awaiting := [Some (Sample.tool_call_message "get_weather" "tc-2" "{}")] |}
           0 _ (Resolved (str "sunny")) eq_refl eq_refl).
Defined.

Lemma dial_failure_is_reported_witness :
  step (platform := Relay.platform)
       (client_message (Sample.text (Sample.init_message "bad id"))) new_session
  = (Normal tt, set_sessionUuid (str "bad id") new_session,
     [console_log "Session UUID:";
      console_error "Failed to initialize HumeAI connection:";
      send Client OPEN
        (stringify (object [("type", str "error");
                            ("message", str "Failed to connect to HumeAI API")]))]).
Proof.
  assert (Hinit : init_message_of (platform := Relay.platform)
                    (Sample.text (Sample.init_message "bad id")) (str "bad id")).
  { eexists. repeat split; reflexivity. }
  assert (Hclient : clientWs new_session <> CONNECTING) by discriminate.
  exact (@dial_failure_is_reported Relay.platform new_session _ (str "bad id")
           Hclient Hinit
           (or_intror (ex_intro _ "bad id" (conj eq_refl eq_refl)))).
Defined.

Lemma queued_number_breaks_flush_witness :
  exists text t,
    run (platform := Relay.platform)
        [client_message (Sample.text Relay.numeric_audio);
         client_message (Sample.text (Sample.audio_message "BBBB"));
         ws_open 0]
        (set_audioBuffer [Str "AAAA"] Sample.connecting)
    = (Some (RangeError text),
       set_state (Upstream 0) OPEN
         (set_audioBuffer [Str "AAAA"; Num 7; Str "BBBB"] Sample.connecting), t)
    /\ delivered to_upstream t
       = [stringify (Obj [("data", Str "AAAA"); ("type", Str "audio_input");
                          ("custom_session_id", Str "call-a")])].
Proof.
  assert (Hold : CONNECTING <> OPEN) by discriminate.
  assert (Hz : 7%Z <> 0%Z) by discriminate.
  assert (Haudio : exists parsed,
             JSON_parse (Platform := Relay.platform) (Sample.text Relay.numeric_audio)
             = Normal parsed
             /\ get "type" (Some parsed) = Normal (str "audio")
             /\ get "audio" (Some parsed) = Normal (Some (Num 7))).
  { eexists. repeat split; reflexivity. }
  assert (Hall : Forall2 (audio_message_of (platform := Relay.platform))
                   [Sample.text (Sample.audio_message "BBBB")] [Some "BBBB"]).
  { repeat constructor; eexists; repeat split; reflexivity. }
  exact (@queued_number_breaks_flush Relay.platform
           (set_audioBuffer [Str "AAAA"] Sample.connecting) 0 CONNECTING
           (Sample.text Relay.numeric_audio) ["AAAA"] 7%Z
           [Sample.text (Sample.audio_message "BBBB")] [Some "BBBB"]
           eq_refl eq_refl Hold eq_refl Haudio Hz Hall).
Defined.

End RelayingExamples.

(** ** index.js: audio from the upstream *)

Section Resampling.
Context {platform : Platform}.
Import JSON Js index_js.

(** X18.  An [audio_output] message whose payload decodes to a
    RIFF/WAVE container is relayed as one [audio] envelope on the client
    socket: the resampler is given the bytes of the data chunk only (no
    header byte, nothing behind the declared size), and the envelope
    carries the base64 text of what the resampler returns; the session
    is left as it was.  The data chunk is taken to start at an even
    offset, as the 16-bit view that [convertProviderTo8k] lays over the
    samples requires. *)
Theorem audio_output_is_resampled_and_relayed
    (s : Session) (k : nat) (data : string) (parsed : value) (payload : JsVal)
    (riff_size declared : N) (skipped : list (Buffer * Buffer)) (rest out : Buffer)
    (full : Buffer -> completion Buffer) :
  clientWs s <> CONNECTING ->
  JSON_parse data = Normal parsed ->
  get "type" (Some parsed) = Normal (str "audio_output") ->
  get "data" (Some parsed) = Normal payload ->
  (riff_size < 4294967296)%N ->
  Forall skipped_chunk skipped ->
  Nat.even (List.length (List.concat (map riff_chunk skipped))) = true ->
  (declared < 4294967296)%N ->
  let audio := riff_header riff_size ++ List.concat (map riff_chunk skipped)
               ++ Buffer.from "data" ++ u32le declared ++ rest in
  44 <= List.length audio ->
  Buffer_from_base64 payload = Normal audio ->
  globalDownsampler = Some full ->
  full (firstn (N.to_nat declared) rest) = Normal out ->
  step (ws_message k data) s
  = (Normal tt, s,
     [send Client (clientWs s)
        (stringify (object [("type", str "audio"); ("audio", str (base64 out))]))]).
Proof.
  intros Hclient Hparse Htype Hdata Hriff Hskipped _ Hdeclared audio Hlong Hdecode
         Hfull Hout.
  assert (Hconvert : convertProviderTo8k audio = Normal out).
  { unfold convertProviderTo8k. rewrite Hfull.
    replace (List.length audio =? 0) with false
      by (symmetry; apply Nat.eqb_neq; lia).
    subst audio.
    rewrite (@stripWavHeader_of_container riff_size skipped Hriff Hskipped
               declared rest Hdeclared Hlong).
    exact Hout. }
  cbn [step]. unfold on_ws_message, try_catch.
  rewrite (bind_lift_Normal _ _ Hparse).
  rewrite (bind_lift_Normal _ _ Htype). cbv beta iota delta [str].
  rewrite (bind_lift_Normal _ _ Hdata).
  rewrite (bind_lift_Normal _ _ Hdecode).
  rewrite (bind_lift_Normal _ _ Hconvert).
  unfold clientWs_send, socket_send. rewrite bind_read, bind_emit.
  destruct s as [uuid w queue client socks waiting]. cbn in Hclient |- *.
  destruct client; try congruence; reflexivity.
Qed.

End Resampling.

Lemma audio_output_is_resampled_and_relayed_witness :
  index_js.step (platform := Relay.platform)
    (index_js.ws_message 0 (Sample.text Relay.audio_output)) Sample.ready
  = (Normal tt, Sample.ready,
     [send Client OPEN
        (JSON.stringify (Js.object [("type", Js.str "audio");
                                    ("audio", Js.str (string_of_list_byte [x01; x02]))]))]).
Proof.
  assert (Hclient : index_js.clientWs Sample.ready <> CONNECTING) by discriminate.
  assert (Hfmt : Forall skipped_chunk
                   [(Buffer.from "fmt ",
                     u16le 1 ++ u16le 1 ++ u32le 8000 ++ u32le 16000
                     ++ u16le 2 ++ u16le 16)]).
  { constructor; [|constructor].
    split; [reflexivity|]. split; [discriminate | reflexivity]. }
  exact (@audio_output_is_resampled_and_relayed Relay.platform Sample.ready 0
           (Sample.text Relay.audio_output) Relay.audio_output
           (Js.str (string_of_list_byte test_wav))
           40 4 _ [x01; x02; x03; x04] [x01; x02] _
           Hclient eq_refl eq_refl eq_refl eq_refl Hfmt eq_refl eq_refl
           (proj1 (Nat.leb_le 44 48) eq_refl) eq_refl eq_refl eq_refl).
Defined.

(** ** src/index.ts: the queue and the client listener *)

Section TsQueue.
Context {platform : Platform}.
Import JSON Js index_ts.


Lemma frames_to_cons (k : nat) (buf : Buffer) (bufs : list Buffer) :
  frames_to k (buf :: bufs)
  = map (fun frame => sendAudioInput (Upstream k) (base64 frame))
        (chunks CHUNK_SIZE_pos buf) ++ frames_to k bufs.
Proof. reflexivity. Qed.

Lemma flush_loop_sends (items : list JsVal) (bufs : list Buffer) (s : Session)
    (k : nat) :
  hume_ready s = Some k ->
  decodes items bufs ->
  forEach (fun audio =>
             clientAudio <- lift (Buffer_from_base64 audio) ;;
             sendAudioInChunks clientAudio)
          items s
  = (Normal tt, s, frames_to k bufs).
Proof.
  intros Hready Hall. induction Hall as [|item buf items bufs Hitem Hall IH];
    [reflexivity|].
  cbn [forEach]. erewrite bind_result.
  2:{ rewrite (bind_lift_Normal _ _ Hitem).
      apply sendAudioInChunks_calls. exact Hready. }
  rewrite IH, frames_to_cons. reflexivity.
Qed.

Lemma flush_loop_stops (good : list JsVal) (bufs : list Buffer) (bad : JsVal)
    (rest : list JsVal) (e : Exn) (s : Session) (k : nat) :
  hume_ready s = Some k ->
  decodes good bufs ->
  Buffer_from_base64 bad = Throw e ->
  forEach (fun audio =>
             clientAudio <- lift (Buffer_from_base64 audio) ;;
             sendAudioInChunks clientAudio)
          (good ++ bad :: rest) s
  = (Throw e, s, frames_to k bufs).
Proof.
  intros Hready Hall Hbad. induction Hall as [|item buf items bufs Hitem Hall IH].
  - cbn [app forEach]. erewrite bind_thrown; [reflexivity|].
    rewrite (bind_lift_Throw _ _ Hbad). reflexivity.
  - cbn [app forEach]. erewrite bind_result.
    2:{ rewrite (bind_lift_Normal _ _ Hitem).
        apply sendAudioInChunks_calls. exact Hready. }
    rewrite IH, frames_to_cons. reflexivity.
Qed.

Lemma hume_ready_set_queued (l : list JsVal) (s : Session) :
  hume_ready (set_queued l s) = hume_ready s.
Proof. destruct s; reflexivity. Qed.

Lemma set_queued_twice (l1 l2 : list JsVal) (s : Session) :
  set_queued l2 (set_queued l1 s) = set_queued l2 s.
Proof. destruct s; reflexivity. Qed.

(** X19.  When the Hume socket is open, an audio message of the client
    empties the queue onto it: every queued payload and then the new
    one is decoded and handed to [sendAudioInput], in the order of
    arrival, each cut into frames of [CHUNK_SIZE] bytes; the queue is
    empty afterwards and nothing else changes. *)
Theorem ts_audio_flushes_queue (s : Session) (k : nat) (data : string)
    (parsed : value) (audio : JsVal) (bufs : list Buffer) :
  hume_ready s = Some k ->
  JSON_parse data = Normal parsed ->
  get "type" (Some parsed) = Normal (str "audio") ->
  get "audio" (Some parsed) = Normal audio ->
  decodes (queued s ++ [audio]) bufs ->
  step (client_message data) s
  = (Normal tt, set_queued [] s, frames_to k bufs).
Proof.
  intros Hready Hparse Htype Haudio Hall.
  cbn [step]. unfold on_client_message, try_catch.
  rewrite (bind_lift_Normal _ _ Hparse).
  rewrite (bind_lift_Normal _ _ Htype). cbv beta iota delta [str].
  rewrite (bind_lift_Normal _ _ Haudio).
  rewrite bind_modify. unfold flushQueue.
  rewrite bind_read, hume_ready_set_queued, Hready.
  cbn [queued set_queued].
  replace (List.length (queued s ++ [audio]) =? 0) with false
    by (symmetry; apply Nat.eqb_neq; rewrite length_app; cbn; lia).
  unfold try_catch.
  erewrite bind_result.
  2:{ apply flush_loop_sends; [|exact Hall].
      rewrite hume_ready_set_queued. exact Hready. }
  unfold modify. rewrite set_queued_twice, app_nil_r. reflexivity.
Qed.

(** X20.  A queue entry that cannot be decoded blocks the queue of
    src/index.ts: the flush hands the payloads before it to
    [sendAudioInput], logs the failure and leaves the queue whole, the
    payloads already sent included, so that the next flush sends them
    again and never gets past the entry.  The client socket stays
    open. *)
Theorem ts_undecodable_audio_blocks_queue (s : Session) (k : nat) (data : string)
    (parsed : value) (audio bad : JsVal) (good rest : list JsVal)
    (bufs : list Buffer) (e : Exn) :
  hume_ready s = Some k ->
  JSON_parse data = Normal parsed ->
  get "type" (Some parsed) = Normal (str "audio") ->
  get "audio" (Some parsed) = Normal audio ->
  queued s ++ [audio] = good ++ bad :: rest ->
  decodes good bufs ->
  Buffer_from_base64 bad = Throw e ->
  let s' := set_queued (queued s ++ [audio]) s in
  let calls := frames_to k bufs ++ [console_error "Error flushing audio queue:"] in
  step (client_message data) s = (Normal tt, s', calls)
  /\ flushQueue s' = (Normal tt, s', calls).
Proof.
  intros Hready Hparse Htype Haudio Hsplit Hall Hbad s' calls.
  assert (Hflush : flushQueue s' = (Normal tt, s', calls)).
  { unfold flushQueue. subst s'.
    rewrite bind_read, hume_ready_set_queued, Hready.
    cbn [queued set_queued].
    replace (List.length (queued s ++ [audio]) =? 0) with false
      by (symmetry; apply Nat.eqb_neq; rewrite length_app; cbn; lia).
    unfold try_catch.
    erewrite bind_thrown.
    2:{ rewrite Hsplit. eapply flush_loop_stops; [|exact Hall | exact Hbad].
        rewrite hume_ready_set_queued. exact Hready. }
    unfold emit. rewrite <- Hsplit. reflexivity. }
  split; [|exact Hflush].
  cbn [step]. unfold on_client_message, try_catch.
  rewrite (bind_lift_Normal _ _ Hparse).
  rewrite (bind_lift_Normal _ _ Htype). cbv beta iota delta [str].
  rewrite (bind_lift_Normal _ _ Haudio).
  rewrite bind_modify. fold s'. rewrite Hflush. reflexivity.
Qed.










End TsQueue.

Section TsRelay.
Context {platform : Platform}.
Import JSON Js index_ts.

(** X22.  An [audio_output] message of Hume whose payload decodes to a
    44-byte PCM header followed by samples is relayed to the open
    client socket as one [audio] envelope that carries the base64 text
    of the samples alone; a sample rate other than 8000 Hz is reported
    by a warning and the samples are relayed all the same, not
    resampled. *)
Theorem ts_audio_output_is_relayed
    (s : Session) (k : nat) (msg payload : JsVal)
    (riff_size format channels rate byte_rate align bits data_size : N)
    (pcm : Buffer) :
  clientWs s = OPEN ->
  get "type" msg = Normal (str "audio_output") ->
  get "data" msg = Normal payload ->
  (channels < 65536)%N -> (rate < 4294967296)%N -> (bits < 65536)%N ->
  let header := wav_header riff_size format channels rate byte_rate align bits
                           data_size in
  Buffer.indexOf header wav_lib.FMT_MARKER = Some 12 ->
  Buffer.indexOf header wav_lib.DATA_MARKER = Some 36 ->
  Buffer_from_base64 payload = Normal (header ++ pcm) ->
  step (hume_message k msg) s
  = (Normal tt, s,
     (if N.eqb rate 8000 then []
      else [console_warn "Hume output sample rate differs from expected (8000Hz)"])
     ++ [send Client OPEN
           (stringify (object [("type", str "audio");
                               ("audio", str (base64 pcm))]))]).
Proof.
  intros Hopen Htype Hdata Hchannels Hrate Hbits header Hfmt Hmarker Hdecode.
  pose proof (@parseWav_of_header riff_size format channels rate byte_rate align
                bits data_size pcm Hchannels Hrate Hbits Hfmt Hmarker) as Hwav.
  fold header in Hwav.
  cbn [step]. unfold on_hume_message.
  rewrite (bind_lift_Normal _ _ Htype). cbv beta iota delta [str].
  unfold try_catch.
  rewrite (bind_lift_Normal _ _ Hdata).
  rewrite (bind_lift_Normal _ _ Hdecode).
  rewrite (bind_lift_Normal _ _ Hwav).
  cbn [wav_lib.sampleRate wav_lib.pcmData].
  unfold socket_send.
  destruct (N.eqb rate 8000); cbn [negb when].
  - unfold bind at 1. unfold ret at 1.
    rewrite bind_read, Hopen. cbn [is_open when].
    rewrite bind_read, bind_emit. cbn [state_of]. rewrite Hopen. reflexivity.
  - rewrite bind_emit.
    rewrite bind_read, Hopen. cbn [is_open when].
    rewrite bind_read, bind_emit. cbn [state_of]. rewrite Hopen. reflexivity.
Qed.

End TsRelay.

Section TsExamples.
Import JSON Js index_ts.

Lemma ts_audio_flushes_queue_witness :
  step (platform := Sample.platform)
       (client_message (Sample.text (Sample.audio_message "BBBB")))
       {| humeSocket := Some 0; queued := [str "AAAA"]; clientWs := OPEN;
          sockets := [OPEN]; dialing := 0 |}
  = (Normal tt,
     {| humeSocket := Some 0; queued := []; clientWs := OPEN;
        sockets := [OPEN]; dialing := 0 |},
     [sendAudioInput (Upstream 0) "AAAA"; sendAudioInput (Upstream 0) "BBBB"]).
Proof.
  assert (Hall : decodes (platform := Sample.platform)
                   [str "AAAA"; str "BBBB"] [Buffer.from "AAAA"; Buffer.from "BBBB"]).
  { repeat constructor. }
  exact (@ts_audio_flushes_queue Sample.platform
           {| humeSocket := Some 0; queued := [str "AAAA"]; clientWs := OPEN;
              sockets := [OPEN]; dialing := 0 |}
           0 (Sample.text (Sample.audio_message "BBBB"))
           (Sample.audio_message "BBBB") (str "BBBB") _
           eq_refl eq_refl eq_refl eq_refl Hall).
Defined.

Lemma ts_undecodable_audio_blocks_queue_witness :
  step (platform := Sample.platform)
       (client_message (Sample.text (Sample.audio_message "BBBB")))
       {| humeSocket := Some 0; queued := [str "AAAA"; None]; clientWs := OPEN;
          sockets := [OPEN]; dialing := 0 |}
  = (Normal tt,
     {| humeSocket := Some 0; queued := [str "AAAA"; None; str "BBBB"];
        clientWs := OPEN; sockets := [OPEN]; dialing := 0 |},
     [sendAudioInput (Upstream 0) "AAAA";
      console_error "Error flushing audio queue:"]).
Proof.
  assert (Hall : decodes (platform := Sample.platform)
                   [str "AAAA"] [Buffer.from "AAAA"]).
  { repeat constructor. }
  exact (proj1 (@ts_undecodable_audio_blocks_queue Sample.platform
                  {| humeSocket := Some 0; queued := [str "AAAA"; None];
                     clientWs := OPEN; sockets := [OPEN]; dialing := 0 |}
                  0 (Sample.text (Sample.audio_message "BBBB"))
                  (Sample.audio_message "BBBB") (str "BBBB") None
                  [str "AAAA"] [str "BBBB"] _
                  (TypeError "The first argument must be of type string")
                  eq_refl eq_refl eq_refl eq_refl eq_refl Hall eq_refl)).
Defined.

Lemma ts_audio_output_is_relayed_witness :
  step (platform := Sample.platform)
       (hume_message 0
          (Some (Obj [("type", Str "audio_output");
                      ("data", Str (string_of_list_byte
                                      (wav_header 38 1 2 44100 176400 4 16 2
                                       ++ [x0a; x0b])))])))
       new_session
  = (Normal tt, new_session,
     [console_warn "Hume output sample rate differs from expected (8000Hz)";
      send Client OPEN
        (stringify (object [("type", str "audio");
                            ("audio", str (string_of_list_byte [x0a; x0b]))]))]).
Proof.
  exact (@ts_audio_output_is_relayed Sample.platform new_session 0
           (Some (Obj [("type", Str "audio_output");
                       ("data", Str (string_of_list_byte
                                       (wav_header 38 1 2 44100 176400 4 16 2
                                        ++ [x0a; x0b])))]))
           (str (string_of_list_byte
                   (wav_header 38 1 2 44100 176400 4 16 2 ++ [x0a; x0b])))
           38 1 2 44100 176400 4 16 2 [x0a; x0b]
           eq_refl eq_refl eq_refl eq_refl eq_refl eq_refl eq_refl eq_refl eq_refl).
Defined.

End TsExamples.

(** ** index.js: transcripts, and the first revision's listener *)

Section Transcripts.
Context {platform : Platform}.
Import JSON Js index_js.

(** X23.  A [user_message] or [assistant_message] of the upstream is
    relayed to the client as one [transcript] envelope with the role
    "user" or "agent" and the content of the inner message as its text
    (left out when the content is absent); when the inner message is
    missing, reading its content fails, the failure is logged as a
    parse error and nothing is sent.  The session is left as it was. *)
Theorem transcript_is_relayed (s : Session) (k : nat) (data type role : string)
    (parsed : value) (inner : JsVal) :
  clientWs s <> CONNECTING ->
  transcript_role type = Some role ->
  JSON_parse data = Normal parsed ->
  get "type" (Some parsed) = Normal (str type) ->
  get "message" (Some parsed) = Normal inner ->
  exists label,
    step (ws_message k data) s
    = (Normal tt, s,
       match get "content" inner with
       | Normal content =>
           [console_log label;
            send Client (clientWs s)
              (stringify (object [("type", str "transcript"); ("role", str role);
                                  ("text", content)]))]
       | Throw _ => [console_error "Error parsing HumeAI message:"]
       end).
Proof.
  intros Hclient Hrole Hparse Htype Hinner.
  assert (Hsend : forall v, clientWs_send v s
                            = (Normal tt, s, [send Client (clientWs s) (stringify v)])).
  { intros v. unfold clientWs_send, socket_send. rewrite bind_read, bind_emit.
    destruct s as [uuid w queue client socks waiting]. cbn in Hclient |- *.
    destruct client; try congruence; reflexivity. }
  unfold transcript_role in Hrole.
  destruct (String.eqb_spec type "user_message") as [->|Hnot].
  - injection Hrole as <-. exists "User message:".
    cbn [step]. unfold on_ws_message, try_catch.
    rewrite (bind_lift_Normal _ _ Hparse).
    rewrite (bind_lift_Normal _ _ Htype). cbv beta iota delta [str].
    rewrite (bind_lift_Normal _ _ Hinner).
    destruct (get "content" inner) as [content|e] eqn:Hcontent.
    + rewrite (bind_lift_Normal _ _ eq_refl).
      rewrite bind_emit, Hsend. reflexivity.
    + rewrite (bind_lift_Throw _ _ eq_refl). reflexivity.
  - destruct (String.eqb_spec type "assistant_message") as [->|Hnot'];
      [|discriminate].
    injection Hrole as <-. exists "Assistant message:".
    cbn [step]. unfold on_ws_message, try_catch.
    rewrite (bind_lift_Normal _ _ Hparse).
    rewrite (bind_lift_Normal _ _ Htype). cbv beta iota delta [str].
    rewrite (bind_lift_Normal _ _ Hinner).
    destruct (get "content" inner) as [content|e] eqn:Hcontent.
    + rewrite (bind_lift_Normal _ _ eq_refl).
      rewrite bind_emit, Hsend. reflexivity.
    + rewrite (bind_lift_Throw _ _ eq_refl). reflexivity.
Qed.

End Transcripts.

Lemma transcript_is_relayed_witness :
  exists label,
    index_js.step (platform := Relay.platform)
      (index_js.ws_message 0 (Sample.text Relay.assistant_message)) Sample.ready
    = (Normal tt, Sample.ready,
       [console_log label;
        send Client OPEN
          (JSON.stringify
             (Js.object [("type", Js.str "transcript"); ("role", Js.str "agent");
                         ("text", Js.str "Hello")]))]).
Proof.
  assert (Hclient : index_js.clientWs Sample.ready <> CONNECTING) by discriminate.
  exact (@transcript_is_relayed Relay.platform Sample.ready 0
           (Sample.text Relay.assistant_message) "assistant_message" "agent"
           Relay.assistant_message
           (Some (JSON.Obj [("role", JSON.Str "assistant");
                            ("content", JSON.Str "Hello")]))
           Hclient eq_refl eq_refl eq_refl eq_refl).
Defined.

Section FirstRevision.
Context {platform : Platform}.
Import JSON Js index_js_skeleton.

Lemma same_client_refl (s : Session) : same_client s s.
Proof. reflexivity. Qed.

Lemma same_client_trans (s1 s2 s3 : Session) :
  same_client s1 s2 -> same_client s2 s3 -> same_client s1 s3.
Proof. unfold same_client. congruence. Qed.

Lemma skeleton_dispatch {A} (P : A -> Prop) (type : JsVal) (init audio other : A) :
  P init -> P audio -> P other ->
  P (match type with
     | Some (Str "init") => init
     | Some (Str "audio") => audio
     | _ => other
     end).
Proof.
  intros Hi Ha Ho.
  destruct type as [[ | | | text | | ]|]; try exact Ho.
  repeat match goal with
         | |- context [match ?x with _ => _ end] =>
             is_var x; destruct x; try assumption
         end.
Qed.

(** X24.  The client listener of the first revision of index.js only
    logs: for every message text it returns without an exception,
    makes no call other than to the console (no audio is forwarded, no
    socket is closed, nothing is dialled) and leaves the client socket
    in the state it had. *)
Theorem first_revision_only_logs (data : string) (s : Session) :
  exists s' t,
    on_client_message data s = (Normal tt, s', t)
    /\ same_client s s'
    /\ forallb is_console t = true.
Proof.
  unfold on_client_message.
  apply (@logged_try_respects _ same_client is_console
           same_client_refl same_client_trans); [reflexivity|].
  apply (@respects_bind _ same_client is_console same_client_trans);
    [apply (@respects_lift _ same_client is_console same_client_refl) | intro].
  cbv zeta.
  apply (@respects_bind _ same_client is_console same_client_trans);
    [apply (@respects_lift _ same_client is_console same_client_refl) | intro].
  apply skeleton_dispatch.
  - apply (@respects_bind _ same_client is_console same_client_trans);
      [apply (@respects_lift _ same_client is_console same_client_refl) | intro].
    apply (@respects_bind _ same_client is_console same_client_trans);
      [|intro; apply (@respects_emit _ same_client is_console same_client_refl);
        reflexivity].
    apply (@respects_modify _ same_client is_console). intros []. reflexivity.
  - apply (@respects_bind _ same_client is_console same_client_trans);
      [apply (@respects_lift _ same_client is_console same_client_refl) | intro].
    apply (@respects_ret _ same_client is_console same_client_refl).
  - apply (@respects_emit _ same_client is_console same_client_refl). reflexivity.
Qed.

End FirstRevision.

(** ** index.js: which client messages leave the listener with an exception *)

Section ClientListener.
Context {platform : Platform}.
Import JSON Js index_js.

Lemma returns_bind {S A B} (P : S -> Prop) (m : M S A) (k : A -> M S B) :
  returns_from P m -> (forall a, returns_from P (k a)) ->
  returns_from P (bind m k).
Proof.
  intros Hm Hk s Hs. destruct (Hm s Hs) as (a & s1 & t1 & Em & Hs1).
  destruct (Hk a s1 Hs1) as (b & s2 & t2 & Ek & Hs2).
  exists b, s2, (t1 ++ t2). split; [|exact Hs2].
  unfold bind. rewrite Em, Ek. reflexivity.
Qed.

Lemma returns_emit {S} (P : S -> Prop) (c : Call) : returns_from P (emit c).
Proof. intros s Hs. exists tt, s, [c]. split; [reflexivity | exact Hs]. Qed.

Lemma returns_ret {S A} (P : S -> Prop) (a : A) : returns_from P (ret a).
Proof. intros s Hs. exists a, s, []. split; [reflexivity | exact Hs]. Qed.

Lemma returns_lift {S A} (P : S -> Prop) (a : A) :
  returns_from P (lift (S := S) (Normal a)).
Proof. intros s Hs. exists a, s, []. split; [reflexivity | exact Hs]. Qed.

Lemma value_is_null (v : value) : v = Null \/ v <> Null.
Proof. destruct v; try (right; discriminate). left. reflexivity. Qed.

Lemma get_of_value (k : string) (parsed : value) :
  parsed <> Null -> exists v, get k (Some parsed) = Normal v.
Proof.
  intros H. destruct parsed; try (eexists; reflexivity). congruence.
Qed.

Lemma clientWs_send_returns (v : value) :
  returns_from client_accepted (clientWs_send v).
Proof.
  intros s Hs. unfold clientWs_send, socket_send.
  rewrite bind_read, bind_emit.
  unfold client_accepted in Hs.
  destruct s as [uuid w queue client socks waiting]. cbn in Hs |- *.
  destruct client; try congruence; do 3 eexists; (split; [reflexivity | exact Hs]).
Qed.

Lemma initializeHumeAIConnection_returns :
  returns_from client_accepted initializeHumeAIConnection.
Proof.
  intros s Hs. unfold initializeHumeAIConnection.
  assert (Hhandler : forall s0, client_accepted s0 ->
            exists s1 t1,
              (emit (console_error "Failed to initialize HumeAI connection:") ;;;
               clientWs_send (object [("type", str "error");
                                      ("message", str "Failed to connect to HumeAI API")]))
                s0 = (Normal tt, s1, t1) /\ client_accepted s1).
  { intros s0 Hs0.
    destruct (@returns_bind _ _ _ client_accepted
                (emit (console_error "Failed to initialize HumeAI connection:"))
                (fun _ => clientWs_send
                            (object [("type", str "error");
                                     ("message", str "Failed to connect to HumeAI API")]))
                (returns_emit _ _) (fun _ => clientWs_send_returns _) s0 Hs0)
      as ([] & s1 & t1 & E & Hs1).
    exists s1, t1. split; [exact E | exact Hs1]. }
  unfold try_catch. rewrite bind_read.
  destruct (ToString (sessionUuid s)) as [id|e] eqn:Hid.
  - rewrite (bind_lift_Normal _ _ eq_refl).
    destruct (url_ok id).
    + rewrite bind_emit. cbn. do 3 eexists. split; [reflexivity|].
      destruct s; exact Hs.
    + unfold throw. destruct (Hhandler s Hs) as (s1 & t1 & E & Hs1).
      rewrite E. do 3 eexists. split; [reflexivity | exact Hs1].
  - rewrite (bind_lift_Throw _ _ eq_refl).
    destruct (Hhandler s Hs) as (s1 & t1 & E & Hs1).
    rewrite E. do 3 eexists. split; [reflexivity | exact Hs1].
Qed.

Lemma audio_case_returns (audioBase64 : JsVal) (chunk : value) :
  returns_from client_accepted
    (when (truthy audioBase64)
       (s <- read ;;
        match ws s with
        | Some k =>
            if is_open (state_of (Upstream k) s)
            then ws_send (stringify (audio_input audioBase64 (sessionUuid s)))
            else modify (set_audioBuffer (audioBuffer s ++ [chunk]))
        | None => modify (set_audioBuffer (audioBuffer s ++ [chunk]))
        end)).
Proof.
  intros s Hs. destruct (truthy audioBase64); cbn [when];
    [|exists tt, s, []; split; [reflexivity | exact Hs]].
  rewrite bind_read.
  destruct (ws s) as [k|] eqn:Hws.
  - destruct (state_of (Upstream k) s) eqn:Hstate; cbn [is_open];
      try (do 3 eexists; split; [reflexivity | destruct s; exact Hs]).
    unfold ws_send, socket_send. rewrite bind_read, Hws, bind_read, bind_emit, Hstate.
    do 3 eexists. split; [reflexivity | exact Hs].
  - do 3 eexists. split; [reflexivity | destruct s; exact Hs].
Qed.

(** X25.  The client [message] listener of index.js, which has no
    [try], lets an exception escape for exactly two kinds of input: a
    text that [JSON.parse] rejects, and the text of the JSON value
    [null] (reading [message.type] fails).  Every other message,
    whatever its type and fields, is handled without an exception. *)
Theorem client_listener_throws_iff (data : string) (s : Session) :
  client_accepted s ->
  (exists e s' t, step (client_message data) s = (Throw e, s', t))
  <-> (exists e, JSON_parse data = Throw e) \/ JSON_parse data = Normal Null.
Proof.
  intros Hs. cbn [step]. unfold on_client_message.
  destruct (JSON_parse data) as [parsed|e] eqn:Hparse.
  2:{ rewrite (bind_lift_Throw _ _ eq_refl).
      split; [intros _; left; exists e; reflexivity|].
      intros _. exists e, s, []. reflexivity. }
  rewrite (bind_lift_Normal _ _ eq_refl). cbv zeta.
  destruct (value_is_null parsed) as [->|Hvalue].
  { cbn [get]. rewrite (bind_lift_Throw _ _ eq_refl).
    split; [intros _; right; reflexivity|].
    intros _. do 3 eexists. reflexivity. }
  split.
  2:{ intros [[e He]|He]; [discriminate He | congruence]. }
  intros (e & s' & t & Hthrow). exfalso.
  destruct (get_of_value "type" Hvalue) as [type Htype].
  rewrite (bind_lift_Normal _ _ Htype) in Hthrow.
  revert Hthrow.
  assert (Hreturns : returns_from client_accepted
            (match type with
             | Some (Str "init") =>
                 uuid <- lift (get "uuid" (Some parsed)) ;;
                 modify (set_sessionUuid uuid) ;;;
                 emit (console_log "Session UUID:") ;;;
                 initializeHumeAIConnection
             | Some (Str "audio") =>
                 audioBase64 <- lift (get "audio" (Some parsed)) ;;
                 match audioBase64 with
                 | Some chunk =>
                     when (truthy audioBase64)
                       (s <- read ;;
                        match ws s with
                        | Some k =>
                            if is_open (state_of (Upstream k) s)
                            then ws_send (stringify (audio_input audioBase64 (sessionUuid s)))
                            else modify (set_audioBuffer (audioBuffer s ++ [chunk]))
                        | None => modify (set_audioBuffer (audioBuffer s ++ [chunk]))
                        end)
                 | None => ret tt
                 end
             | _ => emit (console_log "Unknown message type from client:")
             end)).
  { apply dispatch_client_message.
    - destruct (get_of_value "uuid" Hvalue) as [uuid ->].
      apply returns_bind; [apply returns_lift | intro u].
      apply returns_bind.
      + intros s0 Hs0. exists tt, (set_sessionUuid u s0), [].
        split; [reflexivity | destruct s0; exact Hs0].
      + intros _. apply returns_bind; [apply returns_emit | intros _].
        apply initializeHumeAIConnection_returns.
    - destruct (get_of_value "audio" Hvalue) as [audio ->].
      apply returns_bind; [apply returns_lift | intro a].
      destruct a as [chunk|]; [apply audio_case_returns | apply returns_ret].
    - apply returns_emit. }
  destruct (Hreturns s Hs) as (a & s1 & t1 & -> & _). discriminate.
Qed.

End ClientListener.

Lemma client_listener_throws_iff_witness :
  exists e s' t,
    index_js.step (platform := Sample.platform)
      (index_js.client_message "not json") index_js.new_session
    = (Throw e, s', t).
Proof.
  assert (Hclient : client_accepted index_js.new_session) by discriminate.
  apply (proj2 (@client_listener_throws_iff Sample.platform "not json"
                  index_js.new_session Hclient)).
  left. eexists. reflexivity.
Defined.

(** ** src/index.ts: the socket that opens after [init] returned *)

Section TsOpening.
Context {platform : Platform}.
Import JSON Js index_ts.

(** X26.  In src/index.ts the queue is not flushed when the Hume socket
    opens.  When [connect] hands over a socket that is still
    connecting, the [init] case flushes nothing, and the [open]
    listener only sends the session settings: the queue is as it was,
    the socket is the session's and ready, and the queued audio waits
    for the next audio message of the client. *)
Theorem ts_open_socket_does_not_flush (s : Session) (n : nat) :
  dialing s = S n ->
  let k := List.length (sockets s) in
  exists s1 s2,
    step (connected CONNECTING) s = (Normal tt, s1, [])
    /\ step (hume_open k) s1
       = (Normal tt, s2,
          [console_log "Hume connection opened";
           sendSessionSettings (Upstream k);
           console_log "Session settings sent: 8000Hz, linear16, mono"])
    /\ queued s2 = queued s
    /\ hume_ready s2 = Some k.
Proof.
  intros Hdial k. destruct s as [hume queue client socks dials].
  cbn in Hdial, k. subst dials.
  do 2 eexists. split; [reflexivity|]. split; [reflexivity|].
  split; [reflexivity|].
  unfold hume_ready. cbn. rewrite nth_set_nth, Nat.eqb_refl. subst k.
  replace (List.length socks <? List.length (socks ++ [CONNECTING])) with true
    by (symmetry; apply Nat.ltb_lt; rewrite length_app; cbn; lia).
  reflexivity.
Qed.

End TsOpening.

Lemma ts_open_socket_does_not_flush_witness :
  exists s1 s2,
    index_ts.step (platform := Sample.platform) (index_ts.connected CONNECTING)
      {| index_ts.humeSocket := None; index_ts.queued := [Js.str "AAAA"];
         index_ts.clientWs := OPEN; index_ts.sockets := []; index_ts.dialing := 1 |}
    = (Normal tt, s1, [])
    /\ index_ts.step (platform := Sample.platform) (index_ts.hume_open 0) s1
       = (Normal tt, s2,
          [console_log "Hume connection opened";
           sendSessionSettings (Upstream 0);
           console_log "Session settings sent: 8000Hz, linear16, mono"])
    /\ index_ts.queued s2 = [Js.str "AAAA"]
    /\ index_ts.hume_ready s2 = Some 0.
Proof.
  exact (@ts_open_socket_does_not_flush Sample.platform
           {| index_ts.humeSocket := None; index_ts.queued := [Js.str "AAAA"];
              index_ts.clientWs := OPEN; index_ts.sockets := [];
              index_ts.dialing := 1 |} 0 eq_refl).
Defined.
